(** * Sleeping Beauty Mechanism Viewer: [app.js]

    The viewer is a static page.  [submitPassword] fetches the public
    encryption parameters and the encrypted bundle, calls [decryptData]
    (CryptoJS: Base64, PBKDF2, AES-CBC, UTF-8, then [JSON.parse]) and
    unlocks the session when the result is truthy.  After unlocking,
    [loadLateAwakeningData] decrypts a second bundle with the stored
    password.  [renderMechanismChain] picks an HTML template from the
    mechanism label of a case.  The rest of the file draws the overview,
    the case browser and the 3-year table from the decrypted data.

    Layout of the development:
    - [JS]: JavaScript values as far as the program uses them;
    - [Runtime]: the calls the program makes into CryptoJS and the engine;
    - section [Viewer]: the functions of the unlock path, over any
      [Runtime];
    - [JSON] and [CryptoJS]: the algorithms behind those calls, executable,
      with [browser] the [Runtime] they make up;
    - [Reference]: the offline encryptor that produces the bundles;
    - [Rfc2898]: the key derivation as its standard writes it;
    - the vocabulary of the properties and the scenarios they are run on;
    - [Double], [Text] and [Conv]: numbers, strings and conversions as the
      rendering code meets them;
    - [Pages]: the rendering functions, over any page ([Dom]), and
      [Sample], a page and data to run them on;
    - then the properties. *)
From Stdlib Require Import String Ascii NArith ZArith List Bool Lia Btauto.
From Stdlib Require Permutation.
Import ListNotations.

Set Warnings "-register-all".
Local Open Scope string_scope.
Local Open Scope list_scope.

(** ** JavaScript values *)

Module JS.

(** A number is kept as the decimal it was written as, [m * 10^e]; the
    engine holds the IEEE double nearest to it.  A decimal beyond the range
    of doubles is kept as written, where the engine has an infinity. *)
Inductive number : Type :=
| NaN
| Dec (m : Z) (e : Z).

Inductive value : Type :=
| Undefined
| Null
| Bool (b : bool)
| Num (n : number)
| Str (s : string)
| Arr (items : list value)
| Obj (props : list (string * value)).

Inductive exn : Type :=
| TypeError
| SyntaxError
| URIError
| RangeError
| Error (msg : string)
| NetworkError.

Inductive result (A : Type) : Type :=
| Ok (a : A)
| Throw (e : exn).
Arguments Ok {A} a.
Arguments Throw {A} e.

Definition bind {A B : Type} (r : result A) (k : A -> result B) : result B :=
  match r with
  | Ok a => k a
  | Throw e => Throw e
  end.

(** The double nearest to [m * 10^e] is zero exactly when
    [|m| * 10^e <= 2^-1075] (half of the least subnormal, ties to even). *)
Definition rounds_to_zero (n : number) : bool :=
  match n with
  | NaN => false
  | Dec m e => (m =? 0)%Z || ((e <? 0)%Z && (Z.abs m * 2 ^ 1075 <=? 10 ^ (- e))%Z)
  end.

(** ToBoolean. *)
Definition truthy (v : value) : bool :=
  match v with
  | Undefined | Null => false
  | Bool b => b
  | Num NaN => false
  | Num n => negb (rounds_to_zero n)
  | Str s => negb (s =? "")
  | Arr _ | Obj _ => true
  end.

(** [x / 32]: division by a power of two is exact, on decimals as on doubles. *)
Definition div32 (n : number) : number :=
  match n with
  | NaN => NaN
  | Dec m e => Dec (m * 3125) (e - 5)
  end.

(** The last binding of a key wins, as in an object built by [JSON.parse]. *)
Fixpoint lookup (k : string) (props : list (string * value)) : option value :=
  match props with
  | [] => None
  | (k', v) :: rest =>
    match lookup k rest with
    | Some w => Some w
    | None => if k' =? k then Some v else None
    end
  end.

(** [o.k] for the property names this program reads ([ciphertext], [iv],
    [salt], [keySize], [iterations], [mechanism]); none of them lives on a
    built-in prototype, so only own properties of objects answer. *)
Definition get_prop (o : value) (k : string) : result value :=
  match o with
  | Undefined | Null => Throw TypeError
  | Obj props => Ok (match lookup k props with Some v => v | None => Undefined end)
  | _ => Ok Undefined
  end.

(** [a || b] on values. *)
Definition or_else (a b : value) : value := if truthy a then a else b.

(** [s.includes(needle)] on strings. *)
Fixpoint string_includes (s needle : string) : bool :=
  String.prefix needle s ||
  match s with
  | EmptyString => false
  | String _ rest => string_includes rest needle
  end.

(** [x.includes(needle)] with a string argument: substring search on a
    string, membership on an array, and no such method elsewhere. *)
Definition includes (x : value) (needle : string) : result bool :=
  match x with
  | Str s => Ok (string_includes s needle)
  | Arr items =>
    Ok (existsb (fun v => match v with Str t => t =? needle | _ => false end) items)
  | _ => Throw TypeError
  end.

(** [x === 'lit']. *)
Definition strict_eq_string (x : value) (lit : string) : bool :=
  match x with
  | Str s => s =? lit
  | _ => false
  end.

End JS.
Import JS.

Declare Scope js_scope.
Delimit Scope js_scope with js.
Notation "x <- c1 ;; c2" := (JS.bind c1 (fun x => c2))
  (at level 61, c1 at next level, right associativity) : js_scope.
Local Open Scope js_scope.

(** ** The calls into CryptoJS and the engine *)

(** [CryptoJS.algo.*], as far as modelled. *)
Inductive Hasher : Type := algo_SHA1 | algo_SHA256.

(** The options object handed to [CryptoJS.PBKDF2]. *)
Record PBKDF2_cfg : Type := {
  keySize : number;
  iterations : value;
  hasher : Hasher
}.

Class Runtime : Type := {
  WordArray : Type;
  (** ToNumber of the engine *)
  ToNumber : value -> number;
  (** [JSON.parse(text)] *)
  JSON_parse : string -> result value;
  (** [CryptoJS.enc.Base64.parse(x)] *)
  Base64_parse : value -> result WordArray;
  (** [CryptoJS.PBKDF2(password, salt, cfg)] *)
  PBKDF2 : value -> WordArray -> PBKDF2_cfg -> result WordArray;
  (** [CryptoJS.AES.decrypt({ciphertext}, key, {iv, mode: CBC, padding: Pkcs7})] *)
  AES_decrypt_CBC_Pkcs7 : WordArray -> WordArray -> WordArray -> result WordArray;
  (** [wordArray.toString(CryptoJS.enc.Utf8)] *)
  Utf8_stringify : WordArray -> result string
}.

(** ** The program *)

(** What a [fetch(url)] followed by [response.json()] yields during one
    run, and whether a DOM rendering routine throws. *)
Record World : Type := {
  fetch_json : string -> result value;
  dom_throws : string -> bool
}.

Inductive Event : Type :=
| Fetched (url : string) (r : result value)
| Decrypted (encrypted password config : value) (returned : value)
| ConsoleError (msg : string) (e : exn)
| ConsoleLog (msg : string).

(** The globals of [app.js] and the part of the page the unlock path writes. *)
Record State : Type := {
  casesData : value;
  metadata : value;
  lateAwakeningData : value;
  lateAwakeningCases : value;
  storedPassword : value;
  password_error : string;      (* #password-error textContent *)
  modal_hidden : bool;          (* #password-modal has class hidden *)
  app_hidden : bool;            (* #main-app has class hidden *)
  trace : list Event            (* oldest first *)
}.

Definition initial : State := {|
  casesData := Arr [];
  metadata := Arr [];
  lateAwakeningData := Arr [];
  lateAwakeningCases := Arr [];
  storedPassword := Null;
  password_error := "";
  modal_hidden := false;
  app_hidden := true;
  trace := []
|}.

(** Async functions: state passing with exceptions; an [await] that rejects
    is a [Throw]. *)
Definition M (A : Type) : Type := State -> result A * State.

Definition ret {A : Type} (a : A) : M A := fun s => (Ok a, s).

Definition mbind {A B : Type} (c : M A) (k : A -> M B) : M B :=
  fun s =>
    match c s with
    | (Ok a, s') => k a s'
    | (Throw e, s') => (Throw e, s')
    end.

Definition try_catch {A : Type} (body : M A) (handler : exn -> M A) : M A :=
  fun s =>
    match body s with
    | (Ok a, s') => (Ok a, s')
    | (Throw e, s') => handler e s'
    end.

(** A call of an async function whose promise is dropped: a rejection
    reaches nobody. *)
Definition not_awaited (c : M unit) : M unit :=
  fun s => (Ok tt, snd (c s)).

Definition modify (f : State -> State) : M unit := fun s => (Ok tt, f s).
Definition get {A : Type} (f : State -> A) : M A := fun s => (Ok (f s), s).
Definition emit (ev : Event) : M unit :=
  modify (fun s =>
    {| casesData := casesData s; metadata := metadata s;
       lateAwakeningData := lateAwakeningData s;
       lateAwakeningCases := lateAwakeningCases s;
       storedPassword := storedPassword s;
       password_error := password_error s;
       modal_hidden := modal_hidden s; app_hidden := app_hidden s;
       trace := trace s ++ [ev] |}).

Declare Scope m_scope.
Delimit Scope m_scope with m.
Notation "x <~ c1 ;; c2" := (mbind c1 (fun x => c2))
  (at level 61, c1 at next level, right associativity) : m_scope.
Notation "c1 ;;; c2" := (mbind c1 (fun _ => c2))
  (at level 61, right associativity) : m_scope.

Definition set_casesData (v : value) : M unit :=
  modify (fun s =>
    {| casesData := v; metadata := metadata s;
       lateAwakeningData := lateAwakeningData s;
       lateAwakeningCases := lateAwakeningCases s;
       storedPassword := storedPassword s;
       password_error := password_error s;
       modal_hidden := modal_hidden s; app_hidden := app_hidden s;
       trace := trace s |}).

Definition set_metadata (v : value) : M unit :=
  modify (fun s =>
    {| casesData := casesData s; metadata := v;
       lateAwakeningData := lateAwakeningData s;
       lateAwakeningCases := lateAwakeningCases s;
       storedPassword := storedPassword s;
       password_error := password_error s;
       modal_hidden := modal_hidden s; app_hidden := app_hidden s;
       trace := trace s |}).

Definition set_lateAwakeningData (v : value) : M unit :=
  modify (fun s =>
    {| casesData := casesData s; metadata := metadata s;
       lateAwakeningData := v;
       lateAwakeningCases := lateAwakeningCases s;
       storedPassword := storedPassword s;
       password_error := password_error s;
       modal_hidden := modal_hidden s; app_hidden := app_hidden s;
       trace := trace s |}).

Definition set_lateAwakeningCases (v : value) : M unit :=
  modify (fun s =>
    {| casesData := casesData s; metadata := metadata s;
       lateAwakeningData := lateAwakeningData s;
       lateAwakeningCases := v;
       storedPassword := storedPassword s;
       password_error := password_error s;
       modal_hidden := modal_hidden s; app_hidden := app_hidden s;
       trace := trace s |}).

Definition set_storedPassword (v : value) : M unit :=
  modify (fun s =>
    {| casesData := casesData s; metadata := metadata s;
       lateAwakeningData := lateAwakeningData s;
       lateAwakeningCases := lateAwakeningCases s;
       storedPassword := v;
       password_error := password_error s;
       modal_hidden := modal_hidden s; app_hidden := app_hidden s;
       trace := trace s |}).

(** [errorEl.textContent = msg] *)
Definition set_error (msg : string) : M unit :=
  modify (fun s =>
    {| casesData := casesData s; metadata := metadata s;
       lateAwakeningData := lateAwakeningData s;
       lateAwakeningCases := lateAwakeningCases s;
       storedPassword := storedPassword s;
       password_error := msg;
       modal_hidden := modal_hidden s; app_hidden := app_hidden s;
       trace := trace s |}).

(** [#password-modal.classList.add('hidden')], then
    [#main-app.classList.remove('hidden')] *)
Definition show_app : M unit :=
  modify (fun s =>
    {| casesData := casesData s; metadata := metadata s;
       lateAwakeningData := lateAwakeningData s;
       lateAwakeningCases := lateAwakeningCases s;
       storedPassword := storedPassword s;
       password_error := password_error s;
       modal_hidden := true; app_hidden := false;
       trace := trace s |}).

(** [console.error(msg, error)] and [console.log(msg)] *)
Definition console_error (msg : string) (e : exn) : M unit := emit (ConsoleError msg e).
Definition console_log (msg : string) : M unit := emit (ConsoleLog msg).

Definition msg_enter : string := "Please enter a password".
Definition msg_decrypting : string := "Decrypting...".
Definition msg_incorrect : string := "Incorrect password. Please try again.".
Definition msg_loading : string := "Error loading data. Please check the console.".

Definition url_config : string := "data/encryption_config.json".
Definition url_cases : string := "data/cases.encrypted".
Definition url_metadata : string := "data/metadata.json".
Definition url_late_top20 : string := "data/late_awakening_top20.json".
Definition url_late_cases : string := "data/late_awakening_cases.encrypted".

(** The templates of [renderMechanismChain] are written with ['] where the
    source has the double quote; [dq] puts the double quotes back. *)
Definition dq_char (c : ascii) : ascii :=
  if Ascii.eqb c "'" then ascii_of_nat 34 else c.

Fixpoint dq (s : string) : string :=
  match s with
  | EmptyString => EmptyString
  | String c rest => String (dq_char c) (dq rest)
  end.

Definition chain_external_event : string := dq "
            <div class='mechanism-chain'>
                <h4>Awakening Chain</h4>
                <div class='chain-container'>
                    <div class='chain-step external-event'>
                        <div class='step-icon'>1</div>
                        <div class='step-content'>
                            <div class='step-title'>External Event</div>
                            <div class='step-desc'>COVID Second Wave + UK Vaccine Rollout (Feb 2021)</div>
                        </div>
                    </div>
                    <div class='chain-arrow'>&#8595;</div>
                    <div class='chain-step'>
                        <div class='step-icon'>2</div>
                        <div class='step-content'>
                            <div class='step-title'>Community Activity Spike</div>
                            <div class='step-desc'>Multiple new posts about COVID/vaccine/shielding</div>
                        </div>
                    </div>
                    <div class='chain-arrow'>&#8595;</div>
                    <div class='chain-step'>
                        <div class='step-icon'>3</div>
                        <div class='step-content'>
                            <div class='step-title'>Related Content Browsing</div>
                            <div class='step-desc'>Users browse new COVID posts, platform shows related content</div>
                        </div>
                    </div>
                    <div class='chain-arrow'>&#8595;</div>
                    <div class='chain-step discovery'>
                        <div class='step-icon'>4</div>
                        <div class='step-content'>
                            <div class='step-title'>Old Post Discovery</div>
                            <div class='step-desc'>Users find SB post via internal navigation (NOT email)</div>
                        </div>
                    </div>
                    <div class='chain-arrow'>&#8595;</div>
                    <div class='chain-step peak'>
                        <div class='step-icon'>5</div>
                        <div class='step-content'>
                            <div class='step-title'>Peak Engagement</div>
                            <div class='step-desc'>New user comments, sharing experiential knowledge</div>
                        </div>
                    </div>
                </div>
                <div class='chain-insight'>
                    <strong>Key Insight:</strong> Platform email notifications only promote NEW posts (98.2% within 7 days).
                    Old posts are discovered through internal navigation / related content browsing.
                </div>
            </div>
        ".

Definition chain_author_series : string := dq "
            <div class='mechanism-chain'>
                <h4>Awakening Chain</h4>
                <div class='chain-container'>
                    <div class='chain-step'>
                        <div class='step-icon'>1</div>
                        <div class='step-content'>
                            <div class='step-title'>Original Post Created</div>
                            <div class='step-desc'>Author creates educational content</div>
                        </div>
                    </div>
                    <div class='chain-arrow'>&#8595;</div>
                    <div class='chain-step dormancy'>
                        <div class='step-icon'>2</div>
                        <div class='step-content'>
                            <div class='step-title'>Dormancy Period</div>
                            <div class='step-desc'>Post receives minimal attention</div>
                        </div>
                    </div>
                    <div class='chain-arrow'>&#8595;</div>
                    <div class='chain-step prince'>
                        <div class='step-icon'>3</div>
                        <div class='step-content'>
                            <div class='step-title'>Follow-up Post (Prince)</div>
                            <div class='step-desc'>Same author publishes continuation/sequel</div>
                        </div>
                    </div>
                    <div class='chain-arrow'>&#8595;</div>
                    <div class='chain-step peak'>
                        <div class='step-icon'>4</div>
                        <div class='step-content'>
                            <div class='step-title'>Peak - Discovery</div>
                            <div class='step-desc'>Readers of new post discover original</div>
                        </div>
                    </div>
                </div>
            </div>
        ".

Definition chain_author_self_promotion : string := dq "
            <div class='mechanism-chain'>
                <h4>Awakening Chain</h4>
                <div class='chain-container'>
                    <div class='chain-step'>
                        <div class='step-icon'>1</div>
                        <div class='step-content'>
                            <div class='step-title'>Original Post Created</div>
                            <div class='step-desc'>Author creates educational content</div>
                        </div>
                    </div>
                    <div class='chain-arrow'>&#8595;</div>
                    <div class='chain-step dormancy'>
                        <div class='step-icon'>2</div>
                        <div class='step-content'>
                            <div class='step-title'>Dormancy Period</div>
                            <div class='step-desc'>Post receives minimal attention</div>
                        </div>
                    </div>
                    <div class='chain-arrow'>&#8595;</div>
                    <div class='chain-step prince'>
                        <div class='step-icon'>3</div>
                        <div class='step-content'>
                            <div class='step-title'>Related Discussion (Prince)</div>
                            <div class='step-desc'>Another user posts on related topic</div>
                        </div>
                    </div>
                    <div class='chain-arrow'>&#8595;</div>
                    <div class='chain-step self-promo'>
                        <div class='step-icon'>4</div>
                        <div class='step-content'>
                            <div class='step-title'>Author Comments with Link</div>
                            <div class='step-desc'>Original author replies with link to their post</div>
                        </div>
                    </div>
                    <div class='chain-arrow'>&#8595;</div>
                    <div class='chain-step peak'>
                        <div class='step-icon'>5</div>
                        <div class='step-content'>
                            <div class='step-title'>Peak - Referral Traffic</div>
                            <div class='step-desc'>Readers follow link to original post</div>
                        </div>
                    </div>
                </div>
            </div>
        ".

Definition chain_new_user_discovery : string := dq "
            <div class='mechanism-chain'>
                <h4>Awakening Chain</h4>
                <div class='chain-container'>
                    <div class='chain-step'>
                        <div class='step-icon'>1</div>
                        <div class='step-content'>
                            <div class='step-title'>Original Post Created</div>
                            <div class='step-desc'>User seeks help/shares experience</div>
                        </div>
                    </div>
                    <div class='chain-arrow'>&#8595;</div>
                    <div class='chain-step dormancy'>
                        <div class='step-icon'>2</div>
                        <div class='step-content'>
                            <div class='step-title'>Dormancy Period</div>
                            <div class='step-desc'>Post receives minimal attention</div>
                        </div>
                    </div>
                    <div class='chain-arrow'>&#8595;</div>
                    <div class='chain-step discovery'>
                        <div class='step-icon'>3</div>
                        <div class='step-content'>
                            <div class='step-title'>New User Discovers Post</div>
                            <div class='step-desc'>Via search, related posts, or browsing</div>
                        </div>
                    </div>
                    <div class='chain-arrow'>&#8595;</div>
                    <div class='chain-step peak'>
                        <div class='step-icon'>4</div>
                        <div class='step-content'>
                            <div class='step-title'>Peak - Re-engagement</div>
                            <div class='step-desc'>New user comments, may trigger original participants</div>
                        </div>
                    </div>
                </div>
            </div>
        ".

Section Viewer.

Context {RT : Runtime}.

(** *** [decryptData], lines 65-93 *)

(** The options literal of the [CryptoJS.PBKDF2] call, lines 73-77. *)
Definition pbkdf2_options (config : value) : result PBKDF2_cfg :=
  ks <- get_prop config "keySize" ;;
  it <- get_prop config "iterations" ;;
  Ok {| keySize := div32 (ToNumber ks);
        iterations := it;
        hasher := algo_SHA256 |}.

(** Lines 73-77: the key derivation step. *)
Definition derive_key (password : value) (salt : WordArray) (config : value)
  : result WordArray :=
  opts <- pbkdf2_options config ;;
  PBKDF2 password salt opts.

(** Lines 68-87: everything in the [try] up to [decryptedStr]. *)
Definition decrypt_to_string (encrypted password config : value) : result string :=
  c <- get_prop encrypted "ciphertext" ;;
  ciphertext <- Base64_parse c ;;
  i <- get_prop encrypted "iv" ;;
  iv <- Base64_parse i ;;
  s <- get_prop encrypted "salt" ;;
  salt <- Base64_parse s ;;
  key <- derive_key password salt config ;;
  decrypted <- AES_decrypt_CBC_Pkcs7 ciphertext key iv ;;
  Utf8_stringify decrypted.

Definition decryptData_try (encrypted password config : value) : result value :=
  decryptedStr <- decrypt_to_string encrypted password config ;;
  JSON_parse decryptedStr.

Definition decryptData (encrypted password config : value) : value :=
  match decryptData_try encrypted password config with
  | Ok v => v
  | Throw _ => Null
  end.

(** What the [catch] of [decryptData] writes to the console. *)
Definition decryptData_log (encrypted password config : value) : list Event :=
  match decryptData_try encrypted password config with
  | Ok _ => []
  | Throw e => [ConsoleError "Decryption failed:" e]
  end.

(** *** The async functions *)

Local Open Scope m_scope.

Variable W : World.

(** [await fetch(url)] and [await response.json()]. *)
Definition fetch (url : string) : M value :=
  fun s => let r := fetch_json W url in
           match emit (Fetched url r) s with
           | (_, s') => (r, s')
           end.

(** A rendering routine: it touches the page only and may throw. *)
Definition dom (routine : string) : M unit :=
  fun s => if dom_throws W routine then (Throw TypeError, s) else (Ok tt, s).

(** Several events, in order. *)
Definition emit_all (evs : list Event) : M unit :=
  fun s => (Ok tt, fold_left (fun s' ev => snd (emit ev s')) evs s).

(** A call of [decryptData] made by an async function: the call with what
    it returns, then what it wrote to the console. *)
Definition call_decryptData (encrypted password config : value) : M value :=
  let r := decryptData encrypted password config in
  emit (Decrypted encrypted password config r) ;;;
  emit_all (decryptData_log encrypted password config) ;;;
  ret r.

(** Lines 113-141. *)
Definition loadLateAwakeningData : M unit :=
  try_catch
    (d <~ fetch url_late_top20 ;;
     set_lateAwakeningData d ;;;
     try_catch
       (config <~ fetch url_config ;;
        encrypted <~ fetch url_late_cases ;;
        pw <~ get storedPassword ;;
        decrypted <~ call_decryptData encrypted pw config ;;
        if truthy decrypted then
          set_lateAwakeningCases decrypted ;;;
          console_log "Loaded ${lateAwakeningCases.length} late awakening cases" ;;;
          dom "populateLateCaseSelector"
        else ret tt)
       (fun _ => console_log "Late awakening case data not available yet") ;;;
     dom "renderLateAwakeningTable")
    (fun e => console_error "Error loading late awakening data:" e).

(** Lines 104-109. *)
Definition initializeApp : M unit :=
  dom "initializeTabs" ;;;
  dom "renderOverview" ;;;
  dom "populateCaseSelector" ;;;
  loadLateAwakeningData.

(** Lines 19-63; [password] is the value of [#password-input]. *)
Definition submitPassword (password : string) : M unit :=
  if negb (truthy (Str password)) then
    set_error msg_enter
  else
    set_error msg_decrypting ;;;
    try_catch
      (config <~ fetch url_config ;;
       encrypted <~ fetch url_cases ;;
       decrypted <~ call_decryptData encrypted (Str password) config ;;
       if truthy decrypted then
         set_casesData decrypted ;;;
         set_storedPassword (Str password) ;;;
         m <~ fetch url_metadata ;;
         set_metadata m ;;;
         show_app ;;;
         not_awaited initializeApp
       else
         set_error msg_incorrect)
      (fun e =>
         console_error "Decryption error:" e ;;;
         set_error msg_loading).

(** *** [renderMechanismChain], lines 935-1128 *)

Definition renderMechanismChain (c : value) : result string :=
  m <- get_prop c "mechanism" ;;
  let mechanism := or_else m (Str "") in
  ee <- includes mechanism "External Event" ;;
  cd <- (if ee then includes mechanism "Contextual Discovery" else Ok false) ;;
  if cd then Ok chain_external_event else
  sc <- includes mechanism "Author Series Continuation" ;;
  np <- (if sc then (p <- includes mechanism "Possible" ;; Ok (negb p)) else Ok false) ;;
  if np then Ok chain_author_series else
  sp <- includes mechanism "Author Self-Promotion" ;;
  if sp then Ok chain_author_self_promotion else
  if strict_eq_string mechanism "New User Discovery" then Ok chain_new_user_discovery else
  Ok "".

End Viewer.

(** ** [JSON.parse], executable

    The grammar of ECMA-404 on the UTF-8 bytes of the text.  Escaped code
    units are written back as UTF-8, a surrogate pair as one code point. *)

Module JSON.

Local Open Scope char_scope.

Definition is_ws (c : ascii) : bool :=
  match c with
  | " " | "009" | "010" | "013" => true
  | _ => false
  end.

Fixpoint skip_ws (s : string) : string :=
  match s with
  | String c r => if is_ws c then skip_ws r else s
  | EmptyString => s
  end.

Definition digit_of (c : ascii) : option Z :=
  let n := Z.of_N (N_of_ascii c) in
  if ((48 <=? n) && (n <=? 57))%Z then Some (n - 48)%Z else None.

Definition hex_of (c : ascii) : option N :=
  let n := N_of_ascii c in
  if ((48 <=? n) && (n <=? 57))%N then Some (n - 48)%N
  else if ((65 <=? n) && (n <=? 70))%N then Some (n - 55)%N
  else if ((97 <=? n) && (n <=? 102))%N then Some (n - 87)%N
  else None.

(** Leading digits: their value, how many, and the rest. *)
Fixpoint digits (s : string) (acc : Z) (count : Z) : Z * Z * string :=
  match s with
  | String c r =>
    match digit_of c with
    | Some d => digits r (acc * 10 + d) (count + 1)
    | None => (acc, count, s)
    end
  | EmptyString => (acc, count, s)
  end.

(** [int frac? exp?] after an optional minus sign. *)
Definition parse_number (s : string) : option (number * string) :=
  let '(neg, s1) := match s with
                    | String "-" r => (true, r)
                    | _ => (false, s)
                    end in
  let int_part :=
    match s1 with
    | String "0" r => Some (0%Z, r)
    | _ => let '(v, n, r) := digits s1 0 0 in
           if (n =? 0)%Z then None else Some (v, r)
    end in
  match int_part with
  | None => None
  | Some (iv, s2) =>
    let frac :=
      match s2 with
      | String "." r =>
        let '(v, n, r') := digits r iv 0 in
        if (n =? 0)%Z then None else Some (v, n, r')
      | _ => Some (iv, 0%Z, s2)
      end in
    match frac with
    | None => None
    | Some (m, fn, s3) =>
      let expo :=
        match s3 with
        | String c r =>
          if (Ascii.eqb c "e" || Ascii.eqb c "E")%bool then
            let '(eneg, r1) := match r with
                               | String "-" r' => (true, r')
                               | String "+" r' => (false, r')
                               | _ => (false, r)
                               end in
            let '(v, n, r2) := digits r1 0 0 in
            if (n =? 0)%Z then None
            else Some ((if eneg then - v else v)%Z, r2)
          else Some (0%Z, s3)
        | EmptyString => Some (0%Z, s3)
        end in
      match expo with
      | None => None
      | Some (e, s4) => Some (Dec (if neg then - m else m) (e - fn), s4)
      end
    end
  end.

Definition hex4 (s : string) : option (N * string) :=
  match s with
  | String a (String b (String c (String d r))) =>
    match hex_of a, hex_of b, hex_of c, hex_of d with
    | Some x, Some y, Some z, Some w => Some ((((x * 16 + y) * 16 + z) * 16 + w)%N, r)
    | _, _, _, _ => None
    end
  | _ => None
  end.

Definition utf8_encode (cp : N) : string :=
  let b (n : N) := ascii_of_N n in
  (if cp <? 0x80 then String (b cp) EmptyString
   else if cp <? 0x800 then
     String (b (0xC0 + cp / 64)) (String (b (0x80 + cp mod 64)) EmptyString)
   else if cp <? 0x10000 then
     String (b (0xE0 + cp / 4096))
       (String (b (0x80 + (cp / 64) mod 64)) (String (b (0x80 + cp mod 64)) EmptyString))
   else
     String (b (0xF0 + cp / 262144))
       (String (b (0x80 + (cp / 4096) mod 64))
          (String (b (0x80 + (cp / 64) mod 64)) (String (b (0x80 + cp mod 64)) EmptyString))))%N.

(** An escaped code unit [u], joined with a low surrogate escaped right
    after it when [u] is a high surrogate. *)
Definition escaped_unit (u : N) (rest : string) : string * string :=
  if ((0xD800 <=? u) && (u <=? 0xDBFF))%N then
    match rest with
    | String "\" (String "u" r) =>
      match hex4 r with
      | Some (lo, r') =>
        if ((0xDC00 <=? lo) && (lo <=? 0xDFFF))%N
        then (utf8_encode (0x10000 + (u - 0xD800) * 1024 + (lo - 0xDC00))%N, r')
        else (utf8_encode u, rest)
      | None => (utf8_encode u, rest)
      end
    | _ => (utf8_encode u, rest)
    end
  else (utf8_encode u, rest).

(** The characters of a string after its opening quote. *)
Fixpoint parse_chars (fuel : nat) (s : string) : option (string * string) :=
  match fuel with
  | O => None
  | S f =>
    match s with
    | EmptyString => None
    | String c r =>
      if Ascii.eqb c (ascii_of_nat 34) then Some (EmptyString, r)
      else if Ascii.eqb c "\" then
        match r with
        | String e r1 =>
          let simple (x : ascii) :=
            match parse_chars f r1 with
            | Some (t, r2) => Some (String x t, r2)
            | None => None
            end in
          if Ascii.eqb e (ascii_of_nat 34) then simple (ascii_of_nat 34)
          else if Ascii.eqb e "\" then simple "\"
          else if Ascii.eqb e "/" then simple "/"
          else if Ascii.eqb e "b" then simple "008"
          else if Ascii.eqb e "f" then simple "012"
          else if Ascii.eqb e "n" then simple "010"
          else if Ascii.eqb e "r" then simple "013"
          else if Ascii.eqb e "t" then simple "009"
          else if Ascii.eqb e "u" then
            match hex4 r1 with
            | Some (u, r2) =>
              let '(enc, r3) := escaped_unit u r2 in
              match parse_chars f r3 with
              | Some (t, r4) => Some (append enc t, r4)
              | None => None
              end
            | None => None
            end
          else None
        | EmptyString => None
        end
      else if (N_of_ascii c <? 32)%N then None
      else
        match parse_chars f r with
        | Some (t, r') => Some (String c t, r')
        | None => None
        end
    end
  end.

Definition parse_string (s : string) : option (string * string) :=
  parse_chars (String.length s) s.

Definition literal (word : string) (v : value) (s : string) : option (value * string) :=
  if String.prefix word s
  then Some (v, substring (String.length word) (String.length s - String.length word) s)
  else None.

Fixpoint parse_value (fuel : nat) (s : string) {struct fuel} : option (value * string) :=
  match fuel with
  | O => None
  | S f =>
    match skip_ws s with
    | EmptyString => None
    | String c r as s' =>
      if Ascii.eqb c "[" then
        match skip_ws r with
        | String "]" r' => Some (Arr [], r')
        | _ =>
          match parse_elements f r with
          | Some (items, r') => Some (Arr items, r')
          | None => None
          end
        end
      else if Ascii.eqb c "{" then
        match skip_ws r with
        | String "}" r' => Some (Obj [], r')
        | _ =>
          match parse_members f r with
          | Some (props, r') => Some (Obj props, r')
          | None => None
          end
        end
      else if Ascii.eqb c (ascii_of_nat 34) then
        match parse_string r with
        | Some (t, r') => Some (Str t, r')
        | None => None
        end
      else if Ascii.eqb c "t" then literal "true" (Bool true) s'
      else if Ascii.eqb c "f" then literal "false" (Bool false) s'
      else if Ascii.eqb c "n" then literal "null" Null s'
      else
        match parse_number s' with
        | Some (n, r') => Some (Num n, r')
        | None => None
        end
    end
  end

with parse_elements (fuel : nat) (s : string) {struct fuel} : option (list value * string) :=
  match fuel with
  | O => None
  | S f =>
    match parse_value f s with
    | None => None
    | Some (v, r) =>
      match skip_ws r with
      | String "," r' =>
        match parse_elements f r' with
        | Some (vs, r'') => Some (v :: vs, r'')
        | None => None
        end
      | String "]" r' => Some ([v], r')
      | _ => None
      end
    end
  end

with parse_members (fuel : nat) (s : string) {struct fuel}
  : option (list (string * value) * string) :=
  match fuel with
  | O => None
  | S f =>
    match skip_ws s with
    | String c r =>
      if Ascii.eqb c (ascii_of_nat 34) then
        match parse_string r with
        | None => None
        | Some (k, r1) =>
          match skip_ws r1 with
          | String ":" r2 =>
            match parse_value f r2 with
            | None => None
            | Some (v, r3) =>
              match skip_ws r3 with
              | String "," r4 =>
                match parse_members f r4 with
                | Some (ps, r5) => Some ((k, v) :: ps, r5)
                | None => None
                end
              | String "}" r4 => Some ([(k, v)], r4)
              | _ => None
              end
            end
          | _ => None
          end
        end
      else None
    | EmptyString => None
    end
  end.

(** [JSON.parse(text)]; the fuel exceeds what any text can use. *)
Definition parse (text : string) : result value :=
  match parse_value (2 * String.length text + 2) text with
  | Some (v, rest) =>
    match skip_ws rest with
    | EmptyString => Ok v
    | _ => Throw SyntaxError
    end
  | None => Throw SyntaxError
  end.

End JSON.

(** ** CryptoJS, executable

    The algorithms behind the calls of [Runtime], as CryptoJS 4 carries
    them out.  A WordArray is kept as its significant bytes. *)

Module CryptoJS.

Local Open Scope N_scope.

Definition bytes : Type := list N.

Definition bytes_of_string (s : string) : bytes :=
  map N_of_ascii (list_ascii_of_string s).

Definition string_of_bytes (b : bytes) : string :=
  string_of_list_ascii (map ascii_of_N b).

Definition xor_bytes (a b : bytes) : bytes :=
  map (fun p => N.lxor (fst p) (snd p)) (combine a b).

(** *** 32-bit words *)

Definition w32 (x : N) : N := N.land x 0xFFFFFFFF.
Definition add32 (x y : N) : N := w32 (x + y).
Definition rotr (n x : N) : N := N.lor (N.shiftr x n) (w32 (N.shiftl x (32 - n))).
Definition rotl (n x : N) : N := N.lor (w32 (N.shiftl x n)) (N.shiftr x (32 - n)).
Definition not32 (x : N) : N := N.lxor x 0xFFFFFFFF.

Fixpoint words_of_bytes (l : bytes) : list N :=
  match l with
  | a :: b :: c :: d :: r =>
    N.lor (N.lor (N.shiftl a 24) (N.shiftl b 16)) (N.lor (N.shiftl c 8) d)
      :: words_of_bytes r
  | _ => []
  end.

Definition bytes_of_word (w : N) : bytes :=
  [N.land (N.shiftr w 24) 255; N.land (N.shiftr w 16) 255;
   N.land (N.shiftr w 8) 255; N.land w 255].

Definition bytes_of_words (l : list N) : bytes := flat_map bytes_of_word l.

(** *** SHA-256 and SHA-1 *)

Fixpoint no_divisor (n d : N) (fuel : nat) : bool :=
  match fuel with
  | O => true
  | S f =>
    if n <? d * d then true
    else if n mod d =? 0 then false
    else no_divisor n (d + 1) f
  end.

Definition is_prime (n : N) : bool := (2 <=? n) && no_divisor n 2 (N.to_nat n).

Fixpoint primes_from (n : N) (count fuel : nat) : list N :=
  match count, fuel with
  | O, _ => []
  | _, O => []
  | S c, S f =>
    if is_prime n then n :: primes_from (n + 1) c f
    else primes_from (n + 1) (S c) f
  end.

Definition first_primes (k : nat) : list N := primes_from 2 k 400.

(** Floor of the cube root, bit by bit. *)
Fixpoint icbrt_bits (x r : N) (bit : nat) : N :=
  match bit with
  | O => r
  | S b =>
    let c := N.lor r (N.shiftl 1 (N.of_nat b)) in
    icbrt_bits x (if c * c * c <=? x then c else r) b
  end.

Definition icbrt (x : N) : N := icbrt_bits x 0 48.

(** The initial hash value and the round constants are the fractional bits
    of the square and cube roots of the first primes, which is how
    [sha256.js] computes them when it is loaded. *)
Definition SHA256_H : list N := Eval vm_compute in
  map (fun p => w32 (N.sqrt (p * 2 ^ 64))) (first_primes 8).

Definition SHA256_K : list N := Eval vm_compute in
  map (fun p => w32 (icbrt (p * 2 ^ 96))) (first_primes 64).

Definition Ch (x y z : N) : N := N.lxor (N.land x y) (N.land (not32 x) z).
Definition Maj (x y z : N) : N :=
  N.lxor (N.lxor (N.land x y) (N.land x z)) (N.land y z).
Definition Parity (x y z : N) : N := N.lxor (N.lxor x y) z.
Definition Sigma0 (x : N) : N := N.lxor (N.lxor (rotr 2 x) (rotr 13 x)) (rotr 22 x).
Definition Sigma1 (x : N) : N := N.lxor (N.lxor (rotr 6 x) (rotr 11 x)) (rotr 25 x).
Definition sigma0 (x : N) : N := N.lxor (N.lxor (rotr 7 x) (rotr 18 x)) (N.shiftr x 3).
Definition sigma1 (x : N) : N := N.lxor (N.lxor (rotr 17 x) (rotr 19 x)) (N.shiftr x 10).

(** The message schedule, newest word first. *)
Fixpoint sha256_schedule (rev_w : list N) (n : nat) : list N :=
  match n with
  | O => rev_w
  | S k =>
    let w := add32 (add32 (sigma1 (nth 1 rev_w 0)) (nth 6 rev_w 0))
                   (add32 (sigma0 (nth 14 rev_w 0)) (nth 15 rev_w 0)) in
    sha256_schedule (w :: rev_w) k
  end.

Definition sha256_round (s : list N) (kw : N * N) : list N :=
  match s with
  | [a; b; c; d; e; f; g; h] =>
    let t1 := add32 (add32 (add32 h (Sigma1 e)) (add32 (Ch e f g) (fst kw))) (snd kw) in
    let t2 := add32 (Sigma0 a) (Maj a b c) in
    [add32 t1 t2; a; b; c; add32 d t1; e; f; g]
  | _ => s
  end.

Definition add_words (a b : list N) : list N :=
  map (fun p => add32 (fst p) (snd p)) (combine a b).

Definition sha256_block (h block : list N) : list N :=
  let w := rev (sha256_schedule (rev block) 48) in
  add_words h (fold_left sha256_round (combine SHA256_K w) h).

Definition SHA1_H : list N :=
  [0x67452301; 0xefcdab89; 0x98badcfe; 0x10325476; 0xc3d2e1f0].

Fixpoint sha1_schedule (rev_w : list N) (n : nat) : list N :=
  match n with
  | O => rev_w
  | S k =>
    let x := N.lxor (N.lxor (nth 2 rev_w 0) (nth 7 rev_w 0))
                    (N.lxor (nth 13 rev_w 0) (nth 15 rev_w 0)) in
    sha1_schedule (rotl 1 x :: rev_w) k
  end.

Definition sha1_round (s : list N) (iw : nat * N) : list N :=
  match s with
  | [a; b; c; d; e] =>
    let i := fst iw in
    let fk :=
      if Nat.ltb i 20 then add32 (Ch b c d) 0x5a827999
      else if Nat.ltb i 40 then add32 (Parity b c d) 0x6ed9eba1
      else if Nat.ltb i 60 then add32 (Maj b c d) 0x8f1bbcdc
      else add32 (Parity b c d) 0xca62c1d6 in
    let t := add32 (add32 (rotl 5 a) e) (add32 (snd iw) fk) in
    [t; a; rotl 30 b; c; d]
  | _ => s
  end.

Definition sha1_block (h block : list N) : list N :=
  let w := rev (sha1_schedule (rev block) 64) in
  add_words h (fold_left sha1_round (combine (seq 0 80) w) h).

(** Padding shared by both: a one bit, zeros, and the bit length on 64 bits. *)
Definition md_pad (msg : bytes) : bytes :=
  let n := N.of_nat (length msg) in
  let zeros := (64 - (n + 9) mod 64) mod 64 in
  msg ++ [128] ++ repeat 0 (N.to_nat zeros)
      ++ bytes_of_word (N.shiftr (n * 8) 32) ++ bytes_of_word (w32 (n * 8)).

Fixpoint md_blocks (step : list N -> list N -> list N) (fuel : nat)
         (ws h : list N) : list N :=
  match fuel, ws with
  | S f, _ :: _ => md_blocks step f (skipn 16 ws) (step h (firstn 16 ws))
  | _, _ => h
  end.

Definition md_hash (step : list N -> list N -> list N) (h0 : list N) (msg : bytes) : bytes :=
  let ws := words_of_bytes (md_pad msg) in
  bytes_of_words (md_blocks step (length ws) ws h0).

Definition SHA256 : bytes -> bytes := md_hash sha256_block SHA256_H.
Definition SHA1 : bytes -> bytes := md_hash sha1_block SHA1_H.

Definition hash_of (h : Hasher) : bytes -> bytes :=
  match h with
  | algo_SHA1 => SHA1
  | algo_SHA256 => SHA256
  end.

(** *** HMAC, [hmac.js] *)

(** A key longer than the block is hashed; the key is then filled with
    zeros up to the block size of 64 bytes. *)
Definition hmac_key (h : Hasher) (key : bytes) : bytes :=
  let k := if (64 <? N.of_nat (length key)) then hash_of h key else key in
  k ++ repeat 0 (64 - length k)%nat.

Definition HMAC (h : Hasher) (key msg : bytes) : bytes :=
  let k := hmac_key h key in
  let ikey := map (N.lxor 0x36) k in
  let okey := map (N.lxor 0x5c) k in
  hash_of h (okey ++ hash_of h (ikey ++ msg)).

(** *** PBKDF2, [pbkdf2.js] *)

(** ToNumber on the values a config read by [JSON.parse] normally holds.
    Strings, arrays and objects are not followed: the engine converts them
    through their text, this definition sends them to [NaN]. *)
Definition to_number (v : value) : number :=
  match v with
  | Null => Dec 0 0
  | Bool true => Dec 1 0
  | Bool false => Dec 0 0
  | Num n => n
  | _ => NaN
  end.

(** The least whole number not below a number; none for [NaN]. *)
Definition ceiling (n : number) : option Z :=
  match n with
  | NaN => None
  | Dec m e =>
    if (0 <=? e)%Z then Some (m * 10 ^ e)%Z
    else Some (- ((- m) / 10 ^ (- e)))%Z
  end.

(** How often the body of [for (var i = 1; i < iterations; i++)] runs. *)
Definition extra_iterations (iters : value) : nat :=
  match ceiling (to_number iters) with
  | Some c => Z.to_nat (c - 1)
  | None => 0
  end.

(** How many words [while (derivedKeyWords.length < keySize)] asks for;
    nothing is derived when the comparison fails at once, as with [NaN].
    A key size that is zero, negative or not whole is not followed any
    further: CryptoJS carries its [sigBytes] into the AES key schedule,
    here the size is rounded up and an empty key is read as the [NaN] case. *)
Definition key_words (ks : number) : nat :=
  match ceiling ks with
  | Some c => Z.to_nat c
  | None => 0
  end.

Fixpoint pbkdf2_iterate (h : Hasher) (pw : bytes) (n : nat) (u acc : bytes) : bytes :=
  match n with
  | O => acc
  | S k =>
    let u' := HMAC h pw u in
    pbkdf2_iterate h pw k u' (xor_bytes acc u')
  end.

Definition pbkdf2_block (h : Hasher) (pw salt : bytes) (extra : nat) (index : N) : bytes :=
  let u := HMAC h pw (salt ++ bytes_of_word index) in
  pbkdf2_iterate h pw extra u u.

Definition hash_words (h : Hasher) : nat :=
  match h with
  | algo_SHA1 => 5
  | algo_SHA256 => 8
  end.

Definition pbkdf2_bytes (h : Hasher) (pw salt : bytes) (extra nwords : nat) : bytes :=
  let nblocks := ((nwords + hash_words h - 1) / hash_words h)%nat in
  firstn (4 * nwords)
    (flat_map (fun i => pbkdf2_block h pw salt extra (N.of_nat (S i))) (seq 0 nblocks)).

(** [Utf8.parse] goes through [encodeURIComponent], which refuses a lone
    surrogate; in the byte form of a string that is [ED] followed by
    [A0..BF]. *)
Fixpoint has_surrogate (b : bytes) : bool :=
  match b with
  | c :: rest =>
    match rest with
    | c1 :: _ => (c =? 0xED) && (0xA0 <=? c1)
    | [] => false
    end || has_surrogate rest
  | [] => false
  end.

Definition Utf8_parse (s : string) : result bytes :=
  let b := bytes_of_string s in
  if has_surrogate b then Throw URIError else Ok b.

(** Only a string is turned into a WordArray by [HMAC.init]; on anything
    else that JSON can hold, [key.clamp()] is not a function. *)
Definition PBKDF2 (password : value) (salt : bytes) (cfg : PBKDF2_cfg) : result bytes :=
  match password with
  | Str s =>
    pw <- Utf8_parse s ;;
    Ok (pbkdf2_bytes (hasher cfg) pw salt
          (extra_iterations (iterations cfg)) (key_words (keySize cfg)))
  | _ => Throw TypeError
  end.

(** *** AES, [aes.js] *)

(** Multiplication by [x] in GF(2^8) modulo [x^8 + x^4 + x^3 + x + 1]. *)
Definition xtime (b : N) : N :=
  if b <? 128 then N.shiftl b 1 else N.lxor (N.shiftl b 1) 0x11b.

Fixpoint gmul_bits (n : nat) (a b : N) : N :=
  match n with
  | O => 0
  | S k => N.lxor (if N.odd b then a else 0) (gmul_bits k (xtime a) (N.shiftr b 1))
  end.

Definition gmul (a b : N) : N := gmul_bits 8 a b.

Definition ginv (a : N) : N :=
  match find (fun x => gmul a x =? 1) (map N.of_nat (seq 1 255)) with
  | Some x => x
  | None => 0
  end.

Definition rotl8 (n x : N) : N :=
  N.land (N.lor (N.shiftl x n) (N.shiftr x (8 - n))) 255.

Definition sbox_entry (a : N) : N :=
  let x := ginv a in
  N.lxor (N.lxor (N.lxor x (rotl8 1 x)) (N.lxor (rotl8 2 x) (rotl8 3 x)))
         (N.lxor (rotl8 4 x) 0x63).

(** The tables [aes.js] fills in when it is loaded. *)
Definition SBOX : list N := Eval vm_compute in
  map (fun i => sbox_entry (N.of_nat i)) (seq 0 256).

Definition index_of (x : N) (l : list N) : N :=
  match find (fun i => nth i l 0 =? x) (seq 0 (length l)) with
  | Some i => N.of_nat i
  | None => 0
  end.

Definition INV_SBOX : list N := Eval vm_compute in
  map (fun i => index_of (N.of_nat i) SBOX) (seq 0 256).

Definition RCON : list N :=
  [0x00; 0x01; 0x02; 0x04; 0x08; 0x10; 0x20; 0x40; 0x80; 0x1b; 0x36].

Definition sub_byte (b : N) : N := nth (N.to_nat b) SBOX 0.
Definition inv_sub_byte (b : N) : N := nth (N.to_nat b) INV_SBOX 0.

Definition sub_word (w : N) : N :=
  match words_of_bytes (map sub_byte (bytes_of_word w)) with
  | [x] => x
  | _ => 0
  end.

(** The key schedule, newest word first while it grows: [w] holds the
    words [0 .. i-1] and [n] more are to come. *)
Fixpoint expand_key (Nk : nat) (n i : nat) (rev_w : list N) : list N :=
  match n with
  | O => rev rev_w
  | S k =>
    let t := nth 0 rev_w 0 in
    let t' :=
      if (i mod Nk =? 0)%nat then
        N.lxor (sub_word (rotl 8 t)) (N.shiftl (nth (i / Nk) RCON 0) 24)
      else if (Nat.ltb 6 Nk && (i mod Nk =? 4)%nat)%bool then sub_word t
      else t in
    expand_key Nk k (S i) (N.lxor (nth (Nk - 1) rev_w 0) t' :: rev_w)
  end.

Record schedule : Type := {
  sched_rounds : nat;          (* nRounds *)
  sched_words : list N         (* keySchedule *)
}.

(** [_doReset]: [keySize = key.sigBytes / 4], [nRounds = keySize + 6] and
    [(nRounds + 1) * 4] schedule words.  With a [NaN] key size, which is
    how an empty key arrives, every loop bound is [NaN]: the schedule stays
    empty and no middle round runs. *)
Definition key_schedule (key : bytes) : schedule :=
  let Nk := (length key / 4)%nat in
  match Nk with
  | O => {| sched_rounds := 1; sched_words := [] |}
  | _ =>
    let kw := words_of_bytes key in
    {| sched_rounds := Nk + 6;
       sched_words := expand_key Nk (4 * (Nk + 7) - Nk) Nk (rev kw) |}
  end.

(** A missing schedule word reads as [undefined], which xors as zero. *)
Definition round_key (ks : schedule) (r : nat) : bytes :=
  bytes_of_words (map (fun j => nth (4 * r + j) (sched_words ks) 0) (seq 0 4)).

(** The state is the block in byte order: byte [4c + r] is row [r] of
    column [c]. *)
Definition shift_rows (s : bytes) : bytes :=
  match s with
  | [s0; s1; s2; s3; s4; s5; s6; s7; s8; s9; s10; s11; s12; s13; s14; s15] =>
    [s0; s5; s10; s15; s4; s9; s14; s3; s8; s13; s2; s7; s12; s1; s6; s11]
  | _ => s
  end.

Definition inv_shift_rows (s : bytes) : bytes :=
  match s with
  | [s0; s1; s2; s3; s4; s5; s6; s7; s8; s9; s10; s11; s12; s13; s14; s15] =>
    [s0; s13; s10; s7; s4; s1; s14; s11; s8; s5; s2; s15; s12; s9; s6; s3]
  | _ => s
  end.

Definition xor4 (a b c d : N) : N := N.lxor (N.lxor a b) (N.lxor c d).

Fixpoint mix_columns (s : bytes) : bytes :=
  match s with
  | a :: b :: c :: d :: rest =>
    xor4 (gmul a 2) (gmul b 3) c d :: xor4 a (gmul b 2) (gmul c 3) d
      :: xor4 a b (gmul c 2) (gmul d 3) :: xor4 (gmul a 3) b c (gmul d 2)
      :: mix_columns rest
  | _ => []
  end.

Fixpoint inv_mix_columns (s : bytes) : bytes :=
  match s with
  | a :: b :: c :: d :: rest =>
    xor4 (gmul a 14) (gmul b 11) (gmul c 13) (gmul d 9)
      :: xor4 (gmul a 9) (gmul b 14) (gmul c 11) (gmul d 13)
      :: xor4 (gmul a 13) (gmul b 9) (gmul c 14) (gmul d 11)
      :: xor4 (gmul a 11) (gmul b 13) (gmul c 9) (gmul d 14)
      :: inv_mix_columns rest
  | _ => []
  end.

Definition inv_round (ks : schedule) (r : nat) (s : bytes) : bytes :=
  inv_mix_columns
    (xor_bytes (map inv_sub_byte (inv_shift_rows s)) (round_key ks r)).

Fixpoint inv_rounds (ks : schedule) (r : nat) (s : bytes) : bytes :=
  match r with
  | O => s
  | S k => inv_rounds ks k (inv_round ks r s)
  end.

(** [decryptBlock]; CryptoJS runs the table form of the same rounds. *)
Definition decrypt_block (ks : schedule) (c : bytes) : bytes :=
  let s := xor_bytes c (round_key ks (sched_rounds ks)) in
  let s := inv_rounds ks (sched_rounds ks - 1) s in
  xor_bytes (map inv_sub_byte (inv_shift_rows s)) (round_key ks 0).

Definition enc_round (ks : schedule) (r : nat) (s : bytes) : bytes :=
  xor_bytes (mix_columns (shift_rows (map sub_byte s))) (round_key ks r).

(** Rounds [from], [from + 1], ... , [from + n - 1]. *)
Fixpoint enc_rounds (ks : schedule) (n from : nat) (s : bytes) : bytes :=
  match n with
  | O => s
  | S k => enc_rounds ks k (S from) (enc_round ks from s)
  end.

Definition encrypt_block (ks : schedule) (p : bytes) : bytes :=
  let s := xor_bytes p (round_key ks 0) in
  let s := enc_rounds ks (sched_rounds ks - 1) 1 s in
  xor_bytes (shift_rows (map sub_byte s)) (round_key ks (sched_rounds ks)).

(** *** CBC and Pkcs7, [cipher-core.js] *)

(** A block cut short is read with zeros where the words are missing. *)
Definition block16 (b : bytes) : bytes := firstn 16 (b ++ repeat 0 16).

Fixpoint cbc_decrypt (ks : schedule) (fuel : nat) (prev ct : bytes) : bytes :=
  match fuel, ct with
  | S f, _ :: _ =>
    let c := block16 ct in
    xor_bytes (decrypt_block ks c) prev ++ cbc_decrypt ks f c (skipn 16 ct)
  | _, _ => []
  end.

(** [Pkcs7.unpad] reads the low byte of the word that holds the last
    significant byte and lowers [sigBytes] by it; nothing is checked, and a
    [sigBytes] that falls below zero yields no bytes. *)
Definition pkcs7_unpad (processed : bytes) (sigBytes : nat) : bytes :=
  let n := match sigBytes with
           | O => 0
           | S k => nth (4 * (k / 4) + 3) processed 0
           end in
  firstn (sigBytes - N.to_nat n) processed.

(** [CryptoJS.AES.decrypt({ciphertext}, key, {iv, mode: CBC, padding: Pkcs7})]
    with a WordArray key: every started block is processed. *)
Definition AES_decrypt_CBC_Pkcs7 (ciphertext key iv : bytes) : result bytes :=
  let ks := key_schedule key in
  let out := cbc_decrypt ks (length ciphertext) (block16 iv) ciphertext in
  Ok (pkcs7_unpad out (length ciphertext)).

(** *** [enc-base64.js] and [enc-utf8.js] *)

(** The UTF-16 code units of a string held as UTF-8 bytes, as far as
    Base64 looks at them: an ASCII unit is itself, any other unit is
    [0x80], which stands for a code outside the alphabet. *)
Fixpoint code_units (b : bytes) : list N :=
  match b with
  | [] => []
  | c :: rest =>
    if c <? 0x80 then c :: code_units rest
    else if c <? 0xC0 then code_units rest
    else if c <? 0xF0 then 0x80 :: code_units rest
    else 0x80 :: 0x80 :: code_units rest
  end.

Definition base64_map : string :=
  "ABCDEFGHIJKLMNOPQRSTUVWXYZabcdefghijklmnopqrstuvwxyz0123456789+/".

(** [reverseMap[code]], where [undefined] enters the shifts as zero. *)
Definition reverse_map (code : N) : N :=
  if (65 <=? code) && (code <=? 90) then code - 65
  else if (97 <=? code) && (code <=? 122) then code - 71
  else if (48 <=? code) && (code <=? 57) then code + 4
  else if code =? 43 then 62
  else if code =? 47 then 63
  else 0.

Fixpoint before_padding (units : list N) : list N :=
  match units with
  | [] => []
  | c :: rest => if c =? 61 then [] else c :: before_padding rest
  end.

(** [parseLoop]: position [i] gives a byte unless [i % 4] is zero; [prev]
    is the unit at [i - 1]. *)
Fixpoint parse_loop (i : N) (prev : N) (units : list N) : bytes :=
  match units with
  | [] => []
  | c :: rest =>
    let k := i mod 4 in
    if k =? 0 then parse_loop (i + 1) c rest
    else
      N.land (N.lor (N.shiftl (reverse_map prev) (k * 2))
                    (N.shiftr (reverse_map c) (6 - k * 2))) 255
        :: parse_loop (i + 1) c rest
  end.

Definition is_padding (v : value) : bool :=
  match v with
  | Str s => (s =? "=")%string
  | _ => false
  end.

Fixpoint array_before_padding (items : list value) : nat :=
  match items with
  | [] => 0
  | v :: rest => if is_padding v then 0 else S (array_before_padding rest)
  end.

(** [CryptoJS.enc.Base64.parse(x)].  [undefined.length] throws; a number,
    a boolean or an object has no [indexOf]; an array has one, and fails at
    [charCodeAt] once the loop reaches position one. *)
Definition Base64_parse (x : value) : result bytes :=
  match x with
  | Str s => Ok (parse_loop 0 0 (before_padding (code_units (bytes_of_string s))))
  | Arr items =>
    if Nat.leb 2 (array_before_padding items) then Throw TypeError else Ok []
  | _ => Throw TypeError
  end.

Definition is_cont (c : N) : bool := (0x80 <=? c) && (c <=? 0xBF).

(** Well-formed UTF-8, which is what [decodeURIComponent] accepts. *)
Fixpoint utf8_valid (b : bytes) : bool :=
  match b with
  | [] => true
  | c :: r =>
    if c <? 0x80 then utf8_valid r
    else if c <? 0xC2 then false
    else if c <? 0xE0 then
      match r with
      | c1 :: r1 => is_cont c1 && utf8_valid r1
      | _ => false
      end
    else if c <? 0xF0 then
      match r with
      | c1 :: c2 :: r2 =>
        (if c =? 0xE0 then (0xA0 <=? c1) && (c1 <=? 0xBF)
         else if c =? 0xED then (0x80 <=? c1) && (c1 <=? 0x9F)
         else is_cont c1) && is_cont c2 && utf8_valid r2
      | _ => false
      end
    else if c <? 0xF5 then
      match r with
      | c1 :: c2 :: c3 :: r3 =>
        (if c =? 0xF0 then (0x90 <=? c1) && (c1 <=? 0xBF)
         else if c =? 0xF4 then (0x80 <=? c1) && (c1 <=? 0x8F)
         else is_cont c1) && is_cont c2 && is_cont c3 && utf8_valid r3
      | _ => false
      end
    else false
  end.

(** [Utf8.stringify]: [decodeURIComponent(escape(latin1))], any failure
    rethrown as [Error('Malformed UTF-8 data')]. *)
Definition Utf8_stringify (w : bytes) : result string :=
  if utf8_valid w then Ok (string_of_bytes w)
  else Throw (Error "Malformed UTF-8 data").

End CryptoJS.

(** The engine and CryptoJS together. *)
#[export] Instance browser : Runtime := {|
  WordArray := CryptoJS.bytes;
  ToNumber := CryptoJS.to_number;
  JSON_parse := JSON.parse;
  Base64_parse := CryptoJS.Base64_parse;
  PBKDF2 := CryptoJS.PBKDF2;
  AES_decrypt_CBC_Pkcs7 := CryptoJS.AES_decrypt_CBC_Pkcs7;
  Utf8_stringify := CryptoJS.Utf8_stringify
|}.

(** ** The offline encryptor *)

Module Reference.

Import CryptoJS.
Local Open Scope N_scope.

(** Modelled from the spec: the padding step of [convert_data.py], which
    is not among the sources; section 4.2 asks for standard block padding. *)
Definition pkcs7_pad (p : bytes) : bytes :=
  let n := (16 - length p mod 16)%nat in
  p ++ repeat (N.of_nat n) n.

(** Modelled from the spec: the chained-block mode of [convert_data.py]
    (section 4.2), which is not among the sources. *)
Fixpoint cbc_encrypt (ks : schedule) (fuel : nat) (prev pt : bytes) : bytes :=
  match fuel, pt with
  | S f, _ :: _ =>
    let c := encrypt_block ks (xor_bytes (firstn 16 pt) prev) in
    c ++ cbc_encrypt ks f c (skipn 16 pt)
  | _, _ => []
  end.

Definition base64_char (n : N) : ascii :=
  match String.get (N.to_nat n) base64_map with
  | Some c => c
  | None => "="%char
  end.

(** Modelled from the spec: the base64 form in which [convert_data.py],
    which is not among the sources, stores the three fields (section 6). *)
Fixpoint base64_encode (b : bytes) : string :=
  match b with
  | [] => ""
  | [x] =>
    String (base64_char (x / 4)) (String (base64_char ((x mod 4) * 16)) "==")
  | [x; y] =>
    String (base64_char (x / 4))
      (String (base64_char ((x mod 4) * 16 + y / 16))
         (String (base64_char ((y mod 16) * 4)) "="))
  | x :: y :: z :: rest =>
    String (base64_char (x / 4))
      (String (base64_char ((x mod 4) * 16 + y / 16))
         (String (base64_char ((y mod 16) * 4 + z / 64))
            (String (base64_char (z mod 64)) (base64_encode rest))))
  end.

(** Modelled from the spec: the config file [convert_data.py] writes next
    to the bundle, [{keySize: int (bits), iterations: int, hasher: string}]
    (section 6); the converter is not among the sources. *)
Definition config (keyBits iters : positive) : value :=
  Obj [("keySize", Num (Dec (Zpos keyBits) 0));
       ("iterations", Num (Dec (Zpos iters) 0));
       ("hasher", Str "SHA256")].

(** Modelled from the spec: the key of [convert_data.py], which is not
    among the sources: PBKDF2 with HMAC-SHA-256 over the password and the
    salt, with the iteration count and key size of the config
    (sections 2 and 4.1). *)
Definition derive_key (password : string) (salt : bytes) (keyBits iters : positive) : bytes :=
  pbkdf2_bytes algo_SHA256 (bytes_of_string password) salt
    (Pos.to_nat iters - 1) (Pos.to_nat keyBits / 32).

(** Modelled from the spec: [convert_data.py], the offline converter that
    writes [data/cases.encrypted], is not among the sources.  It derives
    the key from the password, encrypts the UTF-8 plaintext with AES in
    chained-block mode with block padding under a fresh salt and IV, and
    stores ciphertext, IV and salt in base64 (sections 3, 4 and 6). *)
Definition encrypt (plaintext password : string) (salt iv : bytes)
           (keyBits iters : positive) : value :=
  let key := derive_key password salt keyBits iters in
  let padded := pkcs7_pad (bytes_of_string plaintext) in
  let ct := cbc_encrypt (key_schedule key) (length padded) iv padded in
  Obj [("ciphertext", Str (base64_encode ct));
       ("iv", Str (base64_encode iv));
       ("salt", Str (base64_encode salt))].

End Reference.

(** ** PBKDF2 as its standard defines it *)

Module Rfc2898.

Import CryptoJS.

(** Modelled from the spec: section 4.1 describes the key deriver by its
    inputs and its output and the spec names it PBKDF2; the function is
    that of RFC 2898, section 5.2, with HMAC-SHA-256 as the pseudorandom
    function.  It is written here after the RFC, to be compared with what
    [CryptoJS.PBKDF2] computes.  [INT] gives the octets of a block number,
    most significant first. *)
Definition INT (i : nat) : bytes :=
  map (fun k => N.of_nat ((i / 256 ^ k) mod 256)) [3; 2; 1; 0]%nat.

(** [U_1 = PRF (P, S || INT (i))] and [U_j = PRF (P, U_{j-1})]; [U P S i j]
    is [U_(j+1)]. *)
Fixpoint U (P S : bytes) (i j : nat) : bytes :=
  match j with
  | O => HMAC algo_SHA256 P (S ++ INT i)
  | Datatypes.S j' => HMAC algo_SHA256 P (U P S i j')
  end.

(** [F (P, S, c, i) = U_1 xor U_2 xor ... xor U_c]. *)
Definition F (P S : bytes) (c i : nat) : bytes :=
  fold_left xor_bytes (map (U P S i) (seq 1 (c - 1))) (U P S i 0).

(** [DK = T_1 || T_2 || ... || T_l], its first [dkLen] octets, with
    [l = ceiling (dkLen / hLen)] and [hLen = 32]. *)
Definition DK (P S : bytes) (c dkLen : nat) : bytes :=
  let l := ((dkLen + 31) / 32)%nat in
  firstn dkLen (concat (map (F P S c) (seq 1 l))).

End Rfc2898.

(** ** Vocabulary of the properties *)

(** The state an async function leaves behind. *)
Definition run {A : Type} (c : M A) (s : State) : State := snd (c s).

(** One submit attempt, in some world, with some text in the input. *)
Inductive step {RT : Runtime} : State -> State -> Prop :=
| step_submit (W : World) (password : string) (s : State) :
    step s (run (submitPassword W password) s).

Inductive reachable {RT : Runtime} : State -> Prop :=
| reachable_initial : reachable initial
| reachable_step (s s' : State) : reachable s -> step s s' -> reachable s'.

(** The password of the latest [decryptData] call that returned a truthy
    value, [null] when there was none. *)
Definition verify_step (acc : value) (ev : Event) : value :=
  match ev with
  | Decrypted _ p _ r => if truthy r then p else acc
  | _ => acc
  end.

Definition last_verified (tr : list Event) : value := fold_left verify_step tr Null.

Definition is_decrypted (ev : Event) : bool :=
  match ev with
  | Decrypted _ _ _ _ => true
  | _ => false
  end.

(** [needle] occurs in [s]. *)
Definition contains (s needle : string) : Prop :=
  exists pre post : string, s = (pre ++ needle ++ post)%string.

(** The four label patterns that have a chain. *)
Definition chain_pattern (label : string) : Prop :=
  (contains label "External Event" /\ contains label "Contextual Discovery") \/
  (contains label "Author Series Continuation" /\ ~ contains label "Possible") \/
  contains label "Author Self-Promotion" \/
  label = "New User Discovery".

(** The mechanism label of a case record: the string under [mechanism],
    the empty string when the field is missing or holds a falsy value,
    and none when it holds something else. *)
Definition mechanism_label (c : value) : option string :=
  match c with
  | Obj props =>
    match lookup "mechanism" props with
    | None => Some ""
    | Some (Str s) => Some s
    | Some v => if truthy v then None else Some ""
    end
  | _ => None
  end.

(** The hash algorithm a config names in its [hasher] field, read the way
    section 6 of the specification describes the field. *)
Definition spec_hasher (config : value) : option Hasher :=
  match get_prop config "hasher" with
  | Ok (Str "SHA1") => Some algo_SHA1
  | Ok (Str "SHA256") => Some algo_SHA256
  | _ => None
  end.

(** What the viewer makes of a plaintext: the value [JSON.parse] returns,
    and null when it throws. *)
Definition parse_or_null {RT : Runtime} (plaintext : string) : value :=
  match JSON_parse plaintext with
  | Ok v => v
  | Throw _ => Null
  end.

(** Sequences of bytes, and the blocks of AES. *)
Definition byte_list (l : CryptoJS.bytes) : Prop := Forall (fun x => (x < 256)%N) l.

Definition is_block (s : CryptoJS.bytes) : Prop := length s = 16%nat /\ byte_list s.

(** The numbers below [n], for checks that run through all of them. *)
Definition below (n : nat) : list N := map N.of_nat (seq 0 n).

(** The text that holds the one character U+0000. *)
Definition nul : string := String zero EmptyString.

(** The code of the character that stands for a sextet. *)
Definition sextet_char (n : N) : N := N_of_ascii (Reference.base64_char n).

(** The product of the matrix of InvMixColumns with that of MixColumns,
    entry by entry, applied to a byte: the identity matrix. *)
Definition mix_products (x : N) : bool :=
  let g := CryptoJS.gmul in
  let xor4 := CryptoJS.xor4 in
  ((xor4 (g (g x 2) 14) (g x 11) (g x 13) (g (g x 3) 9) =? x) &&
   (xor4 (g (g x 3) 14) (g (g x 2) 11) (g x 13) (g x 9) =? 0) &&
   (xor4 (g x 14) (g (g x 3) 11) (g (g x 2) 13) (g x 9) =? 0) &&
   (xor4 (g x 14) (g x 11) (g (g x 3) 13) (g (g x 2) 9) =? 0) &&
   (xor4 (g (g x 2) 9) (g x 14) (g x 11) (g (g x 3) 13) =? 0) &&
   (xor4 (g (g x 3) 9) (g (g x 2) 14) (g x 11) (g x 13) =? x) &&
   (xor4 (g x 9) (g (g x 3) 14) (g (g x 2) 11) (g x 13) =? 0) &&
   (xor4 (g x 9) (g x 14) (g (g x 3) 11) (g (g x 2) 13) =? 0) &&
   (xor4 (g (g x 2) 13) (g x 9) (g x 14) (g (g x 3) 11) =? 0) &&
   (xor4 (g (g x 3) 13) (g (g x 2) 9) (g x 14) (g x 11) =? 0) &&
   (xor4 (g x 13) (g (g x 3) 9) (g (g x 2) 14) (g x 11) =? x) &&
   (xor4 (g x 13) (g x 9) (g (g x 3) 14) (g (g x 2) 11) =? 0) &&
   (xor4 (g (g x 2) 11) (g x 13) (g x 9) (g (g x 3) 14) =? 0) &&
   (xor4 (g (g x 3) 11) (g (g x 2) 13) (g x 9) (g x 14) =? 0) &&
   (xor4 (g x 11) (g (g x 3) 13) (g (g x 2) 9) (g x 14) =? 0) &&
   (xor4 (g x 11) (g x 13) (g (g x 3) 9) (g (g x 2) 14) =? x))%N.

(** Two states that differ at most in the trace. *)
Definition same_session (a b : State) : Prop :=
  casesData a = casesData b /\ metadata a = metadata b /\
  lateAwakeningData a = lateAwakeningData b /\
  lateAwakeningCases a = lateAwakeningCases b /\
  storedPassword a = storedPassword b /\
  password_error a = password_error b /\
  modal_hidden a = modal_hidden b /\ app_hidden a = app_hidden b.

(** What a rejected attempt leaves: the message, and nothing else. *)
Definition rejected (s : State) : State := run (set_error msg_incorrect) s.

(** The events an attempt added to the trace. *)
Definition events_since (s s' : State) : list Event :=
  skipn (length (trace s)) (trace s').

(** Every [decryptData] call in [evs] comes right after an answered fetch
    of the config and an answered fetch of a bundle, in this order, and is
    given what they answered; [p2] and [p1] are the two events before
    [evs]. *)
Fixpoint decrypts_follow_fetches (p2 p1 : option Event) (evs : list Event) : Prop :=
  match evs with
  | [] => True
  | ev :: rest =>
    match ev with
    | Decrypted e _ c _ =>
      p2 = Some (Fetched url_config (Ok c)) /\
      (p1 = Some (Fetched url_cases (Ok e)) \/
       p1 = Some (Fetched url_late_cases (Ok e)))
    | _ => True
    end /\ decrypts_follow_fetches p1 (Some ev) rest
  end.

(** Every fetch in [evs] carries what the world answered. *)
Definition fetches_answered (W : World) (evs : list Event) : Prop :=
  Forall (fun ev => match ev with
                    | Fetched u r => r = fetch_json W u
                    | _ => True
                    end) evs.

(** The two numbers that the key derivation reads from a config, written
    as [convert_data.py] writes them: whole JSON numbers. *)
Definition key_parameters (config : value) (keyBits iters : positive) : Prop :=
  get_prop config "keySize" = Ok (Num (Dec (Zpos keyBits) 0)) /\
  get_prop config "iterations" = Ok (Num (Dec (Zpos iters) 0)).

(** The URLs fetched, in the order of the trace. *)
Definition fetched (evs : list Event) : list string :=
  flat_map (fun ev => match ev with Fetched u _ => [u] | _ => [] end) evs.

(** The requests of a whole unlock: [submitPassword], then
    [loadLateAwakeningData]. *)
Definition request_order : list string :=
  [url_config; url_cases; url_metadata; url_late_top20; url_config; url_late_cases].

(** ** Scenarios *)

Module Scenario.

Import CryptoJS.

(** A site that serves the listed files and nothing else. *)
Fixpoint serve (files : list (string * value)) (url : string) : result value :=
  match files with
  | [] => Throw NetworkError
  | (u, v) :: rest => if u =? url then Ok v else serve rest url
  end.

Definition site (files : list (string * value)) : World :=
  {| fetch_json := serve files; dom_throws := fun _ => false |}.

Definition salt : bytes := map N.of_nat (seq 1 16).
Definition iv : bytes := map N.of_nat (seq 16 16).

(** The record of section 8 of the specification. *)
Definition plaintext : string := dq "[{'rank':1,'title':'Test'}]".

Definition records : value :=
  Arr [Obj [("rank", Num (Dec 1 0)); ("title", Str "Test")]].

Definition config : value := Reference.config 256 2.

Definition envelope : value := Eval vm_compute in
  Reference.encrypt plaintext "ASTHMAPOSTS" salt iv 256 2.

(** The same bundle made with a single iteration. *)
Definition envelope_1 : value := Eval vm_compute in
  Reference.encrypt plaintext "ASTHMAPOSTS" salt iv 256 1.

(** A bundle whose plaintext is the JSON text [0]. *)
Definition envelope_zero : value := Eval vm_compute in
  Reference.encrypt "0" "ASTHMAPOSTS" salt iv 256 2.

Definition config_sha1 : value :=
  Obj [("keySize", Num (Dec 256 0)); ("iterations", Num (Dec 2 0));
       ("hasher", Str "SHA1")].

Definition config_no_iterations : value :=
  Obj [("keySize", Num (Dec 256 0)); ("hasher", Str "SHA256")].

Definition files (cfg env : value) : list (string * value) :=
  [(url_config, cfg); (url_cases, env); (url_metadata, Arr []);
   (url_late_top20, Arr []); (url_late_cases, env)].

Definition world : World := site (files config envelope).

(** The key 00 01 02 ... and the block 00 11 22 ... of FIPS 197,
    appendix C. *)
Definition fips_key (n : nat) : bytes := map N.of_nat (seq 0 n).
Definition fips_block : bytes := map (fun i => (N.of_nat i * 17)%N) (seq 0 16).

End Scenario.

(** ** The numbers of the engine

    IEEE 754 binary64 with round to nearest, ties to even, as far as the
    rendering code computes with numbers: sums, differences, quotients,
    comparisons, [Math.round], [toFixed(1)] and the conversion to text. *)

Module Double.

Local Open Scope Z_scope.

(** A finite double is a multiple of [2^-1074]: [dFin n] is [n * 2^-1074],
    and [dFin 0] is [+0]. *)
Inductive double : Type :=
| dNaN
| dInf (neg : bool)
| dNegZero
| dFin (n : Z).

(** The number one, in units of [2^-1074]. *)
Definition scale : Z := 2 ^ 1074.

(** The first power of two beyond the doubles, [2^1024], in units. *)
Definition huge : Z := 2 ^ 2098.

(** The integer nearest to [p / q], the even one of two; [0 < q]. *)
Definition rne (p q : Z) : Z :=
  let f := p / q in
  match 2 * (p mod q) ?= q with
  | Lt => f
  | Gt => f + 1
  | Eq => if Z.even f then f else f + 1
  end.

(** The multiple of [2^-1074] with at most 53 significant bits that is
    nearest to [p / q] units; [0 <= p], [0 < q]. *)
Definition nearest (p q : Z) : Z :=
  let bits := Z.log2 (p / q) + 1 in
  let shift := Z.max 0 (bits - 53) in
  rne p (q * 2 ^ shift) * 2 ^ shift.

(** Rounding to nearest, ties to even, of [p / q] units; [0 < q]. *)
Definition round (p q : Z) : double :=
  let n := nearest (Z.abs p) q in
  if huge <=? n then dInf (p <? 0)
  else if (n =? 0) && (p <? 0) then dNegZero
  else dFin (Z.sgn p * n).

Definition of_Z (z : Z) : double := round (z * scale) 1.

(** The double nearest to [m * 10^e]. *)
Definition of_decimal (m e : Z) : double :=
  if 0 <=? e then round (m * 10 ^ e * scale) 1
  else round (m * scale) (10 ^ (- e)).

Definition is_negative (x : double) : bool :=
  match x with
  | dNaN => false
  | dInf neg => neg
  | dNegZero => true
  | dFin n => n <? 0
  end.

Definition zero (neg : bool) : double := if neg then dNegZero else dFin 0.

(** The value of a finite double, in units. *)
Definition units (x : double) : option Z :=
  match x with
  | dFin n => Some n
  | dNegZero => Some 0
  | _ => None
  end.

Definition neg (x : double) : double :=
  match x with
  | dNaN => dNaN
  | dInf b => dInf (negb b)
  | dNegZero => dFin 0
  | dFin 0 => dNegZero
  | dFin n => dFin (- n)
  end.

Definition abs (x : double) : double :=
  match x with
  | dNaN => dNaN
  | dInf _ => dInf false
  | dNegZero => dFin 0
  | dFin n => dFin (Z.abs n)
  end.

Definition add (x y : double) : double :=
  match x, y with
  | dNaN, _ | _, dNaN => dNaN
  | dInf a, dInf b => if Bool.eqb a b then dInf a else dNaN
  | dInf a, _ => dInf a
  | _, dInf b => dInf b
  | dNegZero, dNegZero => dNegZero
  | dNegZero, dFin n => dFin n
  | dFin n, dNegZero => dFin n
  | dFin a, dFin b => round (a + b) 1
  end.

Definition sub (x y : double) : double := add x (neg y).

Definition div (x y : double) : double :=
  match x, y with
  | dNaN, _ | _, dNaN => dNaN
  | dInf _, dInf _ => dNaN
  | dInf a, _ => dInf (xorb a (is_negative y))
  | _, dInf b => zero (xorb (is_negative x) b)
  | _, _ =>
    match units x, units y with
    | Some a, Some b =>
      let s := xorb (is_negative x) (is_negative y) in
      if b =? 0 then (if a =? 0 then dNaN else dInf s)
      else if a =? 0 then zero s
      else round (Z.sgn b * a * scale) (Z.abs b)
    | _, _ => dNaN
    end
  end.

(** The order of the numbers, none for a comparison with [NaN]. *)
Definition compare (x y : double) : option comparison :=
  match x, y with
  | dNaN, _ | _, dNaN => None
  | dInf a, dInf b => Some (if Bool.eqb a b then Eq else if a then Lt else Gt)
  | dInf a, _ => Some (if a then Lt else Gt)
  | _, dInf b => Some (if b then Gt else Lt)
  | _, _ =>
    match units x, units y with
    | Some a, Some b => Some (a ?= b)
    | _, _ => None
    end
  end.

Definition lt (x y : double) : bool :=
  match compare x y with Some Lt => true | _ => false end.
Definition gt (x y : double) : bool := lt y x.
Definition le (x y : double) : bool :=
  match compare x y with Some Lt | Some Eq => true | _ => false end.
Definition ge (x y : double) : bool := le y x.
Definition eq (x y : double) : bool :=
  match compare x y with Some Eq => true | _ => false end.

Definition is_nan (x : double) : bool :=
  match x with dNaN => true | _ => false end.

(** [Math.floor]. *)
Definition floor (x : double) : double :=
  match x with
  | dFin n => dFin (n / scale * scale)
  | _ => x
  end.

(** [Math.round]: the integer nearest to [x], the larger one of two. *)
Definition round_half_up (x : double) : double :=
  match x with
  | dFin n =>
    let r := (2 * n + scale) / (2 * scale) in
    if (r =? 0) && (n <? 0) then dNegZero else dFin (r * scale)
  | _ => x
  end.

(** The integer a double is, if it is one. *)
Definition to_Z (x : double) : option Z :=
  match units x with
  | Some n => if n mod scale =? 0 then Some (n / scale) else None
  | None => None
  end.

(** *** Number::toString *)

Fixpoint digits_rev (fuel : nat) (n : Z) : string :=
  match fuel with
  | O => ""
  | S fuel' =>
    if n <? 10 then String (ascii_of_N (48 + Z.to_N n)) ""
    else String (ascii_of_N (48 + Z.to_N (n mod 10))) (digits_rev fuel' (n / 10))
  end.

Fixpoint rev_string (s acc : string) : string :=
  match s with
  | EmptyString => acc
  | String c rest => rev_string rest (String c acc)
  end.

(** The decimal digits of a natural number. *)
Definition digits (n : Z) : string :=
  rev_string (digits_rev (S (Z.to_nat (Z.log2 n))) n) "".

(** The integer [E] with [10^(E-1) <= p/q < 10^E], for [0 < p], [0 < q]. *)
Definition below_power (p q e : Z) : bool :=
  if 0 <=? e then p <? q * 10 ^ e else p * 10 ^ (- e) <? q.

Fixpoint settle_exponent (fuel : nat) (p q e : Z) : Z :=
  match fuel with
  | O => e
  | S fuel' =>
    if below_power p q (e - 1) then settle_exponent fuel' p q (e - 1)
    else if below_power p q e then e
    else settle_exponent fuel' p q (e + 1)
  end.

Definition decimal_exponent (p q : Z) : Z :=
  settle_exponent 8 p q ((Z.log2 p - Z.log2 q) * 30103 / 100000 + 1).

(** [floor (p/q / 10^t)]. *)
Definition scaled_floor (p q t : Z) : Z :=
  if 0 <=? t then p / (q * 10 ^ t) else (p * 10 ^ (- t)) / q.

(** Which of the decimals [s * 10^t] and [(s+1) * 10^t] read back as the
    double [n] units, and of two the nearer one, the even one on a tie. *)
Definition pick (n s t : Z) : option Z :=
  let back (c : Z) := match of_decimal c t with dFin n' => n' =? n | _ => false end in
  match back s, back (s + 1) with
  | false, false => None
  | true, false => Some s
  | false, true => Some (s + 1)
  | true, true =>
    (* distance of n/scale to s*10^t against the distance to (s+1)*10^t *)
    let twice := if 0 <=? t then 2 * n ?= (2 * s + 1) * 10 ^ t * scale
                 else 2 * n * 10 ^ (- t) ?= (2 * s + 1) * scale in
    match twice with
    | Lt => Some s
    | Gt => Some (s + 1)
    | Eq => Some (if Z.even s then s else s + 1)
    end
  end.

(** The shortest digits [s] and the exponent [t] with [s * 10^t] reading
    back as the double [n] units; [k] counts the digits tried. *)
Fixpoint shortest_from (fuel : nat) (n E k : Z) : Z * Z :=
  match fuel with
  | O => (0, 0)
  | S fuel' =>
    let t := E - k in
    match pick n (scaled_floor n scale t) t with
    | Some s => (s, t)
    | None => shortest_from fuel' n E (k + 1)
    end
  end.

Fixpoint strip_zeros (fuel : nat) (s t : Z) : Z * Z :=
  match fuel with
  | O => (s, t)
  | S fuel' =>
    if (s mod 10 =? 0) && negb (s =? 0) then strip_zeros fuel' (s / 10) (t + 1) else (s, t)
  end.

Definition shortest (n : Z) : Z * Z :=
  let (s, t) := shortest_from 20 n (decimal_exponent n scale) 1 in
  strip_zeros 20 s t.

Fixpoint zeros (k : nat) : string :=
  match k with
  | O => ""
  | S k' => String "0" (zeros k')
  end.

(** The digits [ds] with the decimal point after the first [n] of them. *)
Definition point_after (n : nat) (ds : string) : string :=
  (substring 0 n ds ++ "." ++ substring n (String.length ds - n) ds)%string.

(** Number::toString on a positive finite number of [u] units. *)
Definition positive_to_string (u : Z) : string :=
  let (s, t) := shortest u in
  let ds := digits s in
  let k := Z.of_nat (String.length ds) in
  let n := k + t in
  if (k <=? n) && (n <=? 21) then (ds ++ zeros (Z.to_nat (n - k)))%string
  else if (0 <? n) && (n <=? 21) then point_after (Z.to_nat n) ds
  else if (-6 <? n) && (n <=? 0) then ("0." ++ zeros (Z.to_nat (- n)) ++ ds)%string
  else
    let e := n - 1 in
    let mark : string := if e <? 0 then "e-" else "e+" in
    let exponent := (mark ++ digits (Z.abs e))%string in
    if k =? 1 then (ds ++ exponent)%string
    else (point_after 1 ds ++ exponent)%string.

Definition to_string (x : double) : string :=
  match x with
  | dNaN => "NaN"
  | dInf false => "Infinity"
  | dInf true => "-Infinity"
  | dNegZero => "0"
  | dFin 0 => "0"
  | dFin n =>
    if n <? 0 then ("-" ++ positive_to_string (- n))%string else positive_to_string n
  end.

(** [x.toFixed(1)]. *)
Definition toFixed1 (x : double) : string :=
  match x with
  | dNaN => "NaN"
  | dNegZero => "0.0"
  | dInf _ => to_string x
  | dFin n =>
    if 10 ^ 21 * scale <=? Z.abs n then to_string x
    else
      let tenths := (20 * Z.abs n + scale) / (2 * scale) in
      let ds := digits tenths in
      let ds := if (String.length ds <? 2)%nat then ("0" ++ ds)%string else ds in
      let sign : string := if n <? 0 then "-" else "" in
      (sign ++ point_after (String.length ds - 1) ds)%string
  end.

(** The integer part of a number, towards zero. *)
Definition trunc (x : double) : double :=
  match x with
  | dFin n => dFin (Z.quot n scale * scale)
  | dNegZero => dFin 0
  | _ => x
  end.

Definition of_nat (n : nat) : double := of_Z (Z.of_nat n).

End Double.

(** ** Strings as the engine sees them *)

Module Text.

Definition is_continuation (c : ascii) : bool :=
  let n := N_of_ascii c in ((0x80 <=? n) && (n <? 0xC0))%N.

(** The first byte of a character outside the basic plane, which takes
    two UTF-16 code units. *)
Definition is_astral (c : ascii) : bool := (0xF0 <=? N_of_ascii c)%N.

(** [s.length]: the number of UTF-16 code units. *)
Fixpoint length16 (s : string) : nat :=
  match s with
  | EmptyString => 0
  | String c rest =>
    (if is_continuation c then 0 else if is_astral c then 2 else 1) + length16 rest
  end.

(** The UTF-16 code units of a string held as UTF-8 bytes; a surrogate
    that stands alone is held as the three bytes of its code. *)
Definition low6 (c : ascii) : N := (N_of_ascii c mod 64)%N.

Fixpoint units16 (s : string) : list N :=
  match s with
  | EmptyString => []
  | String c rest =>
    let n := N_of_ascii c in
    if (n <? 0x80)%N then n :: units16 rest
    else if (n <? 0xC0)%N then units16 rest
    else if (n <? 0xE0)%N then
      match rest with
      | String c1 r => ((n mod 32) * 64 + low6 c1)%N :: units16 r
      | EmptyString => []
      end
    else if (n <? 0xF0)%N then
      match rest with
      | String c1 (String c2 r) =>
        ((n mod 16) * 4096 + low6 c1 * 64 + low6 c2)%N :: units16 r
      | _ => []
      end
    else
      match rest with
      | String c1 (String c2 (String c3 r)) =>
        let cp := ((n mod 8) * 262144 + low6 c1 * 4096 + low6 c2 * 64 + low6 c3)%N in
        (0xD800 + (cp - 0x10000) / 1024)%N :: (0xDC00 + (cp - 0x10000) mod 1024)%N
          :: units16 r
      | _ => []
      end
  end.

Definition is_high (u : N) : bool := ((0xD800 <=? u) && (u <=? 0xDBFF))%N.
Definition is_low (u : N) : bool := ((0xDC00 <=? u) && (u <=? 0xDFFF))%N.

(** The string of a sequence of code units. *)
Fixpoint of_units (l : list N) : string :=
  match l with
  | [] => EmptyString
  | u :: rest =>
    match rest with
    | lo :: rest' =>
      if is_high u && is_low lo
      then JSON.utf8_encode (0x10000 + (u - 0xD800) * 1024 + (lo - 0xDC00))%N
           ++ of_units rest'
      else JSON.utf8_encode u ++ of_units rest
    | [] => JSON.utf8_encode u
    end
  end.

(** [s.substring(0, n)]: the first [n] code units. *)
Definition take16 (n : nat) (s : string) : string := of_units (firstn n (units16 s)).

(** [s[i]]: the code unit at a position, as a string of its own. *)
Definition unit_at (i : nat) (s : string) : option string :=
  match nth_error (units16 s) i with
  | Some u => Some (of_units [u])
  | None => None
  end.

(** What stands before the first [sep] in [s], all of [s] when there is
    none: [s.split(sep)[0]] for a separator that is not empty. *)
Fixpoint before (sep s : string) : string :=
  match s with
  | EmptyString => EmptyString
  | String c rest => if String.prefix sep s then EmptyString else String c (before sep rest)
  end.

(** [s.replace(/\n/g, '<br>')]. *)
Fixpoint br (s : string) : string :=
  match s with
  | EmptyString => EmptyString
  | String c rest =>
    if Ascii.eqb c (ascii_of_nat 10) then "<br>" ++ br rest else String c (br rest)
  end.

(** The HTML serialisation of a text node: what [innerHTML] gives for an
    element whose only child is the text [s]. *)
Fixpoint serialize_text (s : string) : string :=
  match s with
  | EmptyString => EmptyString
  | String c rest =>
    if Ascii.eqb c "&" then "&amp;" ++ serialize_text rest
    else if Ascii.eqb c "<" then "&lt;" ++ serialize_text rest
    else if Ascii.eqb c ">" then "&gt;" ++ serialize_text rest
    else
      match rest with
      | String c' rest' =>
        if (Ascii.eqb c (ascii_of_nat 194) && Ascii.eqb c' (ascii_of_nat 160))%bool
        then "&nbsp;" ++ serialize_text rest'
        else String c (serialize_text rest)
      | EmptyString => String c EmptyString
      end
  end.

End Text.

(** ** Conversions between values *)

Module Conv.

Import Double.

(** The double a number of a JSON text is.  A zero written with a minus
    sign is held as [+0]; the program never tells the two zeros apart. *)
Definition of_number (n : number) : double :=
  match n with
  | JS.NaN => dNaN
  | Dec m e => of_decimal m e
  end.

(** ToString.  An array is joined with commas, null and undefined
    elements as empty strings.  An object answers [[object Object]]
    through [Object.prototype.toString], unless a key [toString] of its
    own hides that method: a value read by [JSON.parse] is no function,
    [valueOf] gives back the object, and the conversion is a TypeError. *)
Fixpoint ToString (v : value) : result string :=
  match v with
  | Undefined => Ok "undefined"
  | Null => Ok "null"
  | Bool true => Ok "true"
  | Bool false => Ok "false"
  | Num n => Ok (to_string (of_number n))
  | Str s => Ok s
  | Arr items =>
    (fix join (l : list value) : result string :=
       match l with
       | [] => Ok ""
       | x :: rest =>
         a <- match x with
              | Undefined | Null => Ok ""
              | _ => ToString x
              end ;;
         match rest with
         | [] => Ok a
         | _ => b <- join rest ;; Ok (a ++ "," ++ b)%string
         end
       end) items
  | Obj props =>
    match lookup "toString" props with
    | Some _ => Throw TypeError
    | None => Ok "[object Object]"
    end
  end.

(** The primitive values. *)
Inductive prim : Type :=
| PUndefined
| PNull
| PBool (b : bool)
| PNum (d : double)
| PStr (s : string).

(** ToPrimitive: an array or an object becomes its string. *)
Definition ToPrimitive (v : value) : result prim :=
  match v with
  | Undefined => Ok PUndefined
  | Null => Ok PNull
  | Bool b => Ok (PBool b)
  | Num n => Ok (PNum (of_number n))
  | Str s => Ok (PStr s)
  | Arr _ | Obj _ => s <- ToString v ;; Ok (PStr s)
  end.

(** The code points of a string. *)
Fixpoint code_points (l : list N) : list N :=
  match l with
  | [] => []
  | u :: rest =>
    match rest with
    | lo :: rest' =>
      if Text.is_high u && Text.is_low lo
      then (0x10000 + (u - 0xD800) * 1024 + (lo - 0xDC00))%N :: code_points rest'
      else u :: code_points rest
    | [] => [u]
    end
  end.

(** WhiteSpace and LineTerminator. *)
Definition is_space (cp : N) : bool :=
  ((cp =? 9) || (cp =? 10) || (cp =? 11) || (cp =? 12) || (cp =? 13) || (cp =? 32) ||
   (cp =? 0xA0) || (cp =? 0x1680) || ((0x2000 <=? cp) && (cp <=? 0x200A)) ||
   (cp =? 0x2028) || (cp =? 0x2029) || (cp =? 0x202F) || (cp =? 0x205F) ||
   (cp =? 0x3000) || (cp =? 0xFEFF))%N.

Fixpoint drop_spaces (l : list N) : list N :=
  match l with
  | c :: rest => if is_space c then drop_spaces rest else l
  | [] => []
  end.

Definition trim (l : list N) : list N := rev (drop_spaces (rev (drop_spaces l))).

Definition digit_in (radix : Z) (c : N) : option Z :=
  let n := Z.of_N c in
  let d := (if (48 <=? n) && (n <=? 57) then n - 48
            else if (97 <=? n) && (n <=? 122) then n - 87
            else if (65 <=? n) && (n <=? 90) then n - 55
            else 36)%Z in
  if (d <? radix)%Z then Some d else None.

(** Leading digits in a radix: their value, how many, and the rest. *)
Fixpoint digits_in (radix : Z) (l : list N) (acc count : Z) : Z * Z * list N :=
  match l with
  | c :: rest =>
    match digit_in radix c with
    | Some d => digits_in radix rest (acc * radix + d)%Z (count + 1)%Z
    | None => (acc, count, l)
    end
  | [] => (acc, count, l)
  end.

Definition chars (s : string) : list N := map N_of_ascii (list_ascii_of_string s).

Fixpoint starts_with (p l : list N) : option (list N) :=
  match p, l with
  | [], _ => Some l
  | a :: p', b :: l' => if (a =? b)%N then starts_with p' l' else None
  | _ :: _, [] => None
  end.

(** StrUnsignedDecimalLiteral, all of [l]: mantissa and exponent. *)
Definition unsigned_decimal (l : list N) : option (Z * Z) :=
  let '(ip, ni, r1) := digits_in 10 l 0 0 in
  let '(m, nf, r2) :=
    match r1 with
    | 46%N :: r => let '(v, n, r') := digits_in 10 r ip 0 in (v, n, r')
    | _ => (ip, 0%Z, r1)
    end in
  if ((ni =? 0) && (nf =? 0))%Z then None
  else
    match r2 with
    | [] => Some (m, (- nf)%Z)
    | c :: r =>
      if ((c =? 101) || (c =? 69))%N then
        let '(eneg, r3) := match r with
                           | 45%N :: r' => (true, r')
                           | 43%N :: r' => (false, r')
                           | _ => (false, r)
                           end in
        let '(e, ne, r4) := digits_in 10 r3 0 0 in
        match r4 with
        | [] => if (ne =? 0)%Z then None
                else Some (m, ((if eneg then - e else e) - nf)%Z)
        | _ => None
        end
      else None
    end.

(** StringToNumber. *)
Definition StringToNumber (s : string) : double :=
  let l := trim (code_points (Text.units16 s)) in
  let radix_literal (radix : Z) (r : list N) :=
    let '(v, n, r') := digits_in radix r 0 0 in
    match r' with
    | [] => if (n =? 0)%Z then dNaN else of_Z v
    | _ => dNaN
    end in
  match l with
  | [] => dFin 0
  | 48%N :: 120%N :: r | 48%N :: 88%N :: r => radix_literal 16%Z r
  | 48%N :: 111%N :: r | 48%N :: 79%N :: r => radix_literal 8%Z r
  | 48%N :: 98%N :: r | 48%N :: 66%N :: r => radix_literal 2%Z r
  | _ =>
    let '(negative, body) := match l with
                             | 45%N :: r => (true, r)
                             | 43%N :: r => (false, r)
                             | _ => (false, l)
                             end in
    let magnitude :=
      match starts_with (chars "Infinity") body with
      | Some [] => dInf false
      | Some _ => dNaN
      | None =>
        match unsigned_decimal body with
        | Some (m, e) => of_decimal m e
        | None => dNaN
        end
      end in
    if negative then neg magnitude else magnitude
  end.

Definition prim_to_number (p : prim) : double :=
  match p with
  | PUndefined => dNaN
  | PNull => dFin 0
  | PBool true => of_Z 1
  | PBool false => dFin 0
  | PNum d => d
  | PStr s => StringToNumber s
  end.

Definition prim_to_string (p : prim) : string :=
  match p with
  | PUndefined => "undefined"
  | PNull => "null"
  | PBool true => "true"
  | PBool false => "false"
  | PNum d => to_string d
  | PStr s => s
  end.

(** ToNumber. *)
Definition ToNumber (v : value) : result double :=
  p <- ToPrimitive v ;; Ok (prim_to_number p).

(** [a + b] on primitive values. *)
Definition plus (a b : prim) : prim :=
  match a, b with
  | PStr _, _ | _, PStr _ => PStr (prim_to_string a ++ prim_to_string b)%string
  | _, _ => PNum (add (prim_to_number a) (prim_to_number b))
  end.

(** [parseInt(s)] with no radix given. *)
Definition parseInt (s : string) : double :=
  let l := drop_spaces (code_points (Text.units16 s)) in
  let '(negative, body) := match l with
                           | 45%N :: r => (true, r)
                           | 43%N :: r => (false, r)
                           | _ => (false, l)
                           end in
  let '(radix, ds) := match body with
                      | 48%N :: 120%N :: r | 48%N :: 88%N :: r => (16%Z, r)
                      | _ => (10%Z, body)
                      end in
  let '(v, n, _) := digits_in radix ds 0 0 in
  if (n =? 0)%Z then dNaN
  else if negative then neg (of_Z v) else of_Z v.

(** [v.length]. *)
Definition length_of (v : value) : result value :=
  match v with
  | Undefined | Null => Throw TypeError
  | Arr items => Ok (Num (Dec (Z.of_nat (length items)) 0))
  | Str s => Ok (Num (Dec (Z.of_nat (Text.length16 s)) 0))
  | Obj props => Ok (match lookup "length" props with Some x => x | None => Undefined end)
  | _ => Ok Undefined
  end.

(** [v[i]] for a number [i]: the element of an array, the code unit of a
    string, the property of an object under the string of [i]. *)
Definition at_index (v : value) (i : double) : result value :=
  match v with
  | Undefined | Null => Throw TypeError
  | Arr items =>
    Ok (match to_Z i with
        | Some z => if (0 <=? z)%Z then nth (Z.to_nat z) items Undefined else Undefined
        | None => Undefined
        end)
  | Str s =>
    Ok (match to_Z i with
        | Some z =>
          if (0 <=? z)%Z then
            match Text.unit_at (Z.to_nat z) s with
            | Some u => Str u
            | None => Undefined
            end
          else Undefined
        | None => Undefined
        end)
  | Obj props =>
    Ok (match lookup (to_string i) props with Some x => x | None => Undefined end)
  | _ => Ok Undefined
  end.

(** [x.toFixed(1)]: a method of numbers only. *)
Definition toFixed (v : value) : result string :=
  match v with
  | Num n => Ok (toFixed1 (of_number n))
  | _ => Throw TypeError
  end.

(** The elements of an array, for [forEach], [map], [reduce], [filter]
    and [find], which other values do not have. *)
Definition elements (v : value) : result (list value) :=
  match v with
  | Arr items => Ok items
  | _ => Throw TypeError
  end.

(** [a === b] on values read from JSON texts; two arrays or objects read
    at different places are never the same object. *)
Definition strict_eq (a b : value) : bool :=
  match a, b with
  | Undefined, Undefined => true
  | Null, Null => true
  | Bool x, Bool y => Bool.eqb x y
  | Num x, Num y => Double.eq (of_number x) (of_number y)
  | Str x, Str y => String.eqb x y
  | _, _ => false
  end.

End Conv.

(** ** The pages of the application *)

Module Pages.

Import Double Conv.

(** What the page and the engine answer to the rendering code.  The page
    itself ([index.html]), Chart.js and the engine's tables of letters and
    dates are not part of [app.js].  An element that the code writes into
    the page before it looks it up ([timeline-chart], [.giscus]) is looked
    up at that point only, so one answer per key is enough.  The property
    names that the rendering code reads from the data ([title], [tm],
    [exploration], ...) are on no built-in prototype, so [get_prop] answers
    them as the engine does. *)
Class Dom : Type := {
  (** [document.getElementById(id)] or [document.querySelector(sel)] finds
      an element *)
  present : string -> bool;
  (** [s.toLowerCase()] *)
  toLowerCase : string -> string;
  (** [Date.parse(s)], the time value of [new Date(s)] *)
  Date_parse : string -> double;
  (** the text of a built-in function, as [Function.prototype.toString]
      gives it *)
  native_text : string -> string;
  (** what [new Chart(canvas, config)] throws, if it throws *)
  Chart_throws : string -> option exn
}.

(** The configurations handed to [new Chart]: the type, the labels and the
    data of the one dataset; for the line chart also the peak day and the
    text of its label.  The rest of each literal is constant. *)
Inductive chart_config : Type :=
| Doughnut (labels : list string) (data : list prim)
| Bar (labels : list string) (data : list prim)
| Line (labels data : list value) (peakDay : value) (content : string).

(** What the rendering code does to the page, call by call. *)
Inductive DomEvent : Type :=
| SetText (id text : string)                     (* el.textContent = text *)
| SetHtml (key html : string)                    (* el.innerHTML = html *)
| AppendRow (key html : string)                  (* a new tr with this innerHTML *)
| AppendOption (key value text : string)         (* a new option *)
| SetValue (id value : string)                   (* select.value = value *)
| AddClass (key class : string)
| RemoveClassAll (selector class : string)       (* on every element found *)
| Listen (key event : string)                    (* addEventListener *)
| NewChart (canvas : string) (config : chart_config)
| Alert (msg : string)
| AppendScript (key src : string) (attributes : list (string * string)).

(** The globals of [app.js] and the calls made on the page so far. *)
Record Browser : Type := {
  globals : State;
  currentCaseIndex : double;
  currentCaseSource : string;
  currentLateCaseIndex : double;
  page : list DomEvent             (* oldest first *)
}.

(** The application right after [submitPassword] has unlocked it. *)
Definition opened (s : State) : Browser := {|
  globals := s;
  currentCaseIndex := of_Z (-1);
  currentCaseSource := "main";
  currentLateCaseIndex := of_Z (-1);
  page := []
|}.

(** Rendering code: state passing with exceptions. *)
Definition P (A : Type) : Type := Browser -> result A * Browser.

Definition unit_P {A : Type} (a : A) : P A := fun b => (Ok a, b).

Definition bind_P {A B : Type} (c : P A) (k : A -> P B) : P B :=
  fun b =>
    match c b with
    | (Ok a, b') => k a b'
    | (Throw e, b') => (Throw e, b')
    end.

Definition lift {A : Type} (r : result A) : P A := fun b => (r, b).

Definition read {A : Type} (f : Browser -> A) : P A := fun b => (Ok (f b), b).

Definition log (ev : DomEvent) : P unit :=
  fun b => (Ok tt,
            {| globals := globals b; currentCaseIndex := currentCaseIndex b;
               currentCaseSource := currentCaseSource b;
               currentLateCaseIndex := currentLateCaseIndex b;
               page := page b ++ [ev] |}).

Definition set_currentCaseIndex (i : double) : P unit :=
  fun b => (Ok tt,
            {| globals := globals b; currentCaseIndex := i;
               currentCaseSource := currentCaseSource b;
               currentLateCaseIndex := currentLateCaseIndex b;
               page := page b |}).

Definition set_currentCaseSource (src : string) : P unit :=
  fun b => (Ok tt,
            {| globals := globals b; currentCaseIndex := currentCaseIndex b;
               currentCaseSource := src;
               currentLateCaseIndex := currentLateCaseIndex b;
               page := page b |}).

Definition set_currentLateCaseIndex (i : double) : P unit :=
  fun b => (Ok tt,
            {| globals := globals b; currentCaseIndex := currentCaseIndex b;
               currentCaseSource := currentCaseSource b;
               currentLateCaseIndex := i;
               page := page b |}).

Declare Scope p_scope.
Delimit Scope p_scope with p.
Notation "x <~ c1 ;; c2" := (bind_P c1 (fun x => c2))
  (at level 61, c1 at next level, right associativity) : p_scope.
Notation "c1 ;;; c2" := (bind_P c1 (fun _ => c2))
  (at level 61, right associativity) : p_scope.

(** [l.forEach((x, i) => f)]. *)
Fixpoint forEach {A : Type} (l : list A) (i : nat) (f : A -> nat -> P unit) : P unit :=
  match l with
  | [] => unit_P tt
  | x :: rest => bind_P (f x i) (fun _ => forEach rest (S i) f)
  end.

(** The texts of the source are written with [~] where the source has the
    double quote; [qt] puts the double quotes back. *)
Definition qt_char (c : ascii) : ascii :=
  if Ascii.eqb c "~" then ascii_of_nat 34 else c.

Fixpoint qt (s : string) : string :=
  match s with
  | EmptyString => EmptyString
  | String c rest => String (qt_char c) (qt rest)
  end.

(** A template literal: its texts, and its substitutions, each one turned
    into a string as soon as it is evaluated. *)
Inductive piece : Type :=
| Lit (text : string)
| Val (v : result value)
| Dbl (d : result double)
| Txt (s : result string).

Definition piece_string (p : piece) : result string :=
  match p with
  | Lit t => Ok (qt t)
  | Val v => x <- v ;; ToString x
  | Dbl d => x <- d ;; Ok (to_string x)
  | Txt s => s
  end.

Fixpoint template (ps : list piece) : result string :=
  match ps with
  | [] => Ok ""
  | p :: rest =>
    a <- piece_string p ;;
    b <- template rest ;;
    Ok (a ++ b)%string
  end.

(** [l.map(f)] and the string that a loop of [html += f(x)] adds. *)
Fixpoint map_result {A B : Type} (f : A -> result B) (l : list A) : result (list B) :=
  match l with
  | [] => Ok []
  | x :: rest => y <- f x ;; ys <- map_result f rest ;; Ok (y :: ys)
  end.

Fixpoint concat_map (f : value -> result string) (l : list value) : result string :=
  match l with
  | [] => Ok ""
  | x :: rest => a <- f x ;; b <- concat_map f rest ;; Ok (a ++ b)%string
  end.

Definition get_prop2 (o : value) (k1 k2 : string) : result value :=
  v <- get_prop o k1 ;; get_prop v k2.

(** [x > n], [x < n] and the like for a value and a number. *)
Definition number_of (v : result value) : result double := x <- v ;; ToNumber x.

Section Rendering.

Context {dom : Dom}.

Local Open Scope p_scope.

(** [document.getElementById(id).prop = ...] and the like: a TypeError
    when there is no such element. *)
Definition on (key : string) (ev : DomEvent) : P unit :=
  if present key then log ev else lift (Throw TypeError).

(** [s.toLowerCase()], a method of strings only. *)
Definition lower (v : value) : result string :=
  match v with
  | Str s => Ok (toLowerCase s)
  | _ => Throw TypeError
  end.

(** [s.includes(needle)] for a string [s]. *)
Definition str_includes (v : value) (needle : string) : result bool :=
  includes v needle.

(** *** Utilities, lines 1132-1164 *)

(** [escapeHtml], lines 1132-1137. *)
Definition escapeHtml (text : value) : result string :=
  if negb (truthy text) then Ok ""
  else s <- ToString text ;; Ok (Text.serialize_text s).

(** [escapeHtml(x)] for an expression [x]. *)
Definition escaped (x : result value) : result string :=
  v <- x ;; escapeHtml v.

(** [escapeHtml(x).replace(/\n/g, '<br>')]. *)
Definition body_html (x : result value) : result string :=
  v <- x ;; h <- escapeHtml v ;; Ok (Text.br h).

(** [loadGiscus], lines 1139-1164. *)
Definition loadGiscus (postId : value) : P unit :=
  if negb (present ".giscus") then unit_P tt
  else
    log (SetHtml ".giscus" "") ;;;
    term <~ lift (template [Lit "case-"; Val (Ok postId)]) ;;
    log (AppendScript ".giscus" "https://giscus.app/client.js"
           [("data-repo", "XianchengLI/Sleeping_beauty_viewer");
            ("data-repo-id", "R_kgDOQ5HPHQ");
            ("data-category", "Announcements");
            ("data-category-id", "DIC_kwDOQ5HPHc4C08u4");
            ("data-mapping", "specific");
            ("data-term", term);
            ("data-strict", "0");
            ("data-reactions-enabled", "1");
            ("data-emit-metadata", "0");
            ("data-input-position", "bottom");
            ("data-theme", "preferred_color_scheme");
            ("data-lang", "en");
            ("crossorigin", "anonymous")]).

(** *** [renderTimelineChart], lines 888-931 *)

Definition new_Chart (canvas : string) (config : chart_config) : P unit :=
  log (NewChart canvas config) ;;;
  match Chart_throws canvas with
  | Some e => lift (Throw e)
  | None => unit_P tt
  end.

Definition renderTimelineChart (dailyViews peakDay : value) (canvasId : string) : P unit :=
  if negb (present canvasId) then unit_P tt
  else
    views <~ lift (elements dailyViews) ;;
    labels <~ lift (map_result (fun d => get_prop d "post_age_days") views) ;;
    data <~ lift (map_result (fun d => get_prop d "daily_views") views) ;;
    content <~ lift (template [Lit "Peak (Day "; Val (Ok peakDay); Lit ")"]) ;;
    new_Chart canvasId (Line labels data peakDay content).

(** *** The blocks that [renderCase], [renderCaseFromData] and
    [renderLateCaseInTab] have in common *)

(** [new Date(v)]: its time value. *)
Definition time_clip (t : double) : double :=
  match t with
  | dFin _ | dNegZero =>
    if gt (abs t) (of_Z 8640000000000000) then dNaN else trunc t
  | _ => dNaN
  end.

Definition new_Date (v : value) : result double :=
  p <- ToPrimitive v ;;
  match p with
  | PStr s => Ok (Date_parse s)
  | _ => Ok (time_clip (prim_to_number p))
  end.

(** The peak period of a case: [c.tm - 7], [c.tm + 7] and
    [new Date(c.created_date)], lines 593-595. *)
Record period : Type := {
  peakStart : double;
  peakEnd : prim;
  createdDate : double
}.

Definition peak_period (c : value) : result period :=
  tm <- get_prop c "tm" ;;
  p <- ToPrimitive tm ;;
  created_date <- get_prop c "created_date" ;;
  created <- new_Date created_date ;;
  Ok {| peakStart := sub (prim_to_number p) (of_Z 7);
        peakEnd := plus p (PNum (of_Z 7));
        createdDate := created |}.

(** Lines 625-636. *)
Definition original_post (c : value) : result string :=
  main_post <- get_prop c "main_post" ;;
  if truthy main_post then
    is_superuser <- get_prop main_post "is_superuser" ;;
    let superuserBadge :=
      if truthy is_superuser then qt "<span class=~superuser-badge~>SUPERUSER</span>"
      else "" in
    template
      [Lit "
            <details class=~content-section~ open>
                <summary>Original Post</summary>
                <div class=~post-content~>
                    <div class=~post-meta~>Author: User ";
       Val (get_prop main_post "author_id");
       Lit " ";
       Txt (Ok superuserBadge);
       Lit " | ";
       Val (get_prop main_post "date");
       Lit "</div>
                    <div class=~post-body~>";
       Txt (body_html (get_prop main_post "body"));
       Lit "</div>
                </div>
            </details>
        "]
  else Ok "".

(** One comment of the list, lines 646-661. *)
Definition comment_box (pd : period) (comment : value) : result string :=
  date <- get_prop comment "date" ;;
  commentDate <- new_Date date ;;
  let dayNum := floor (div (sub commentDate (createdDate pd)) (of_Z 86400000)) in
  let isPeak := ge dayNum (peakStart pd) && le dayNum (prim_to_number (peakEnd pd)) in
  let peakClass := if isPeak then "peak-comment" else "" in
  let peakBadge := if isPeak then qt "<span class=~peak-badge~>PEAK</span>" else "" in
  template
    [Lit "
                <div class=~comment-box ";
     Txt (Ok peakClass);
     Lit "~>
                    <div class=~comment-header~>
                        Day ";
     Dbl (Ok dayNum);
     Lit " | User ";
     Val (get_prop comment "user_id");
     Lit " ";
     Txt (Ok peakBadge);
     Lit "
                    </div>
                    <div class=~comment-body~>";
     Txt (body_html (get_prop comment "body"));
     Lit "</div>
                </div>
            "].

(** Lines 638-664. *)
Definition comments_section (pd : period) (c : value) : result string :=
  comments <- get_prop c "comments" ;;
  many <- (if truthy comments
           then n <- number_of (length_of comments) ;; Ok (gt n (dFin 0))
           else Ok false) ;;
  if many then
    opening <-
      template
        [Lit "
            <details class=~content-section~>
                <summary>Comments (";
         Val (length_of comments);
         Lit ")</summary>
                <div class=~comments-list~>
        "] ;;
    items <- elements comments ;;
    boxes <- concat_map (comment_box pd) items ;;
    Ok (opening ++ boxes ++ qt "</div></details>")%string
  else Ok "".

(** *** The late-awakening table, lines 143-179 *)

Definition late_row (cases item : value) (index : nat) : result string :=
  rank_1yr <- get_prop item "rank_1yr" ;;
  over <- (n <- ToNumber rank_1yr ;; Ok (gt n (of_Z 1000))) ;;
  isInvisible <- (if over then Ok true
                  else n <- number_of (get_prop item "B_1yr") ;; Ok (lt n (of_Z 1))) ;;
  rank1yrDisplay <-
    (if truthy rank_1yr then
       if isInvisible then
         s <- template
                [Lit "<span class=~invisible-badge~>";
                 Val (Ok rank_1yr);
                 Lit "</span>"] ;;
         Ok (Str s)
       else Ok rank_1yr
     else Ok (Str "N/A")) ;;
  B_1yr <- get_prop item "B_1yr" ;;
  b1yrDisplay <-
    (if negb (strict_eq B_1yr Null) then
       n <- ToNumber B_1yr ;;
       if lt n (of_Z 1) then
         template
           [Lit "<span class=~invisible-badge~>";
            Txt (toFixed B_1yr);
            Lit "</span>"]
       else toFixed B_1yr
     else Ok "N/A") ;;
  hasDetailedData <- (n <- number_of (length_of cases) ;; Ok (gt n (of_nat index))) ;;
  viewButton <-
    (if hasDetailedData then
       template
         [Lit "<button onclick=~viewLateAwakeningCase(";
          Dbl (Ok (of_nat index));
          Lit ")~>View</button>"]
     else Ok (qt "<span class=~no-data-badge~>Pending</span>")) ;;
  template
    [Lit "
            <td><strong>";
     Val (get_prop item "rank_3yr");
     Lit "</strong></td>
            <td>";
     Val (Ok rank1yrDisplay);
     Lit "</td>
            <td class=~title-cell~>";
     Txt (escaped (get_prop item "title"));
     Lit "</td>
            <td><strong>";
     Txt (v <- get_prop item "B_3yr" ;; toFixed v);
     Lit "</strong></td>
            <td>";
     Txt (Ok b1yrDisplay);
     Lit "</td>
            <td>";
     Val (get_prop item "sleep_duration");
     Lit "</td>
            <td>";
     Val (get_prop item "tm");
     Lit "</td>
            <td><span class=~category-badge ";
     Txt (v <- get_prop item "category" ;; lower v);
     Lit "~>";
     Val (get_prop item "category");
     Lit "</span></td>
            <td>";
     Txt (Ok viewButton);
     Lit "</td>
        "].

Definition renderLateAwakeningTable : P unit :=
  let tbody := "#late-awakening-table tbody" in
  if negb (present tbody) then unit_P tt
  else
    log (SetHtml tbody "") ;;;
    data <~ read (fun b => lateAwakeningData (globals b)) ;;
    items <~ lift (elements data) ;;
    forEach items 0 (fun item index =>
      cases <~ read (fun b => lateAwakeningCases (globals b)) ;;
      html <~ lift (late_row cases item index) ;;
      log (AppendRow tbody html)).

(** *** [renderCaseFromData], lines 199-297 *)

(** The [html] that lines 202-291 build. *)
Definition renderCaseFromData_html (c : value) : result string :=
  pd <- peak_period c ;;
  is_late <- get_prop c "is_late_awakening" ;;
  lateAwakeningBadge <-
    (if truthy is_late then
       template
         [Lit "<span class=~late-awakening-badge~>LATE AWAKENING (";
          Val (get_prop c "sleep_duration");
          Lit "d sleep)</span>"]
     else Ok "") ;;
  header <-
    template
      [Lit "
        <div class=~case-header~>
            <div class=~case-meta~>
                <span class=~rank-badge~>#";
       Val (get_prop c "rank");
       Lit " (3yr)</span>
                <span class=~b-value~>B: ";
       Txt (v <- get_prop c "B" ;; toFixed v);
       Lit "</span>
                <span class=~peak-day~>Peak: Day ";
       Val (get_prop c "tm");
       Lit "</span>
                <span class=~category-tag~>";
       Val (get_prop c "category");
       Lit "</span>
                ";
       Txt (Ok lateAwakeningBadge);
       Lit "
            </div>
            <h2>";
       Txt (escaped (get_prop c "title"));
       Lit "</h2>
        </div>

        <div class=~mechanism-section~>
            <h3>Mechanism Status</h3>
            <div class=~mechanism-card n/a~>
                <div class=~mechanism-name~>";
       Val (get_prop c "mechanism");
       Lit "</div>
                <div class=~mechanism-confidence~>Confidence: ";
       Val (get_prop c "confidence");
       Lit "</div>
                <div class=~mechanism-evidence~>";
       Txt (escaped (get_prop c "evidence"));
       Lit "</div>
            </div>
        </div>

        <div class=~timeline-section~>
            <h3>Daily Views Timeline (3-Year Window)</h3>
            <canvas id=~timeline-chart~></canvas>
        </div>
    "] ;;
  post <- original_post c ;;
  comments <- comments_section pd c ;;
  note <-
    (if truthy is_late then
       template
         [Lit "
            <div class=~info-box~>
                <h4>Note</h4>
                <p>This is a late-awakening Sleeping Beauty from the 3-year window analysis.
                Mechanism analysis is pending. The post remained dormant for ";
          Val (get_prop c "sleep_duration");
          Lit " days
                before awakening at day ";
          Val (get_prop c "tm");
          Lit ".</p>
            </div>
        "]
     else Ok "") ;;
  Ok (header ++ post ++ comments ++ note)%string.

Definition renderCaseFromData (c : value) : P unit :=
  let container := "case-detail" in
  html <~ lift (renderCaseFromData_html c) ;;
  on container (SetHtml container html) ;;;
  daily_views <~ lift (get_prop c "daily_views") ;;
  tm <~ lift (get_prop c "tm") ;;
  renderTimelineChart daily_views tm "timeline-chart".

(** [viewLateAwakeningCase], lines 181-197. *)
Definition viewLateAwakeningCase (index : double) : P unit :=
  cases <~ read (fun b => lateAwakeningCases (globals b)) ;;
  n <~ lift (number_of (length_of cases)) ;;
  if ge index n then log (Alert "Detailed case data not available yet.")
  else
    log (RemoveClassAll ".tab-btn" "active") ;;;
    log (RemoveClassAll ".tab-content" "active") ;;;
    on (qt "[data-tab=~cases~]") (AddClass (qt "[data-tab=~cases~]") "active") ;;;
    on "cases" (AddClass "cases" "active") ;;;
    set_currentCaseSource "late" ;;;
    set_currentCaseIndex index ;;;
    c <~ lift (at_index cases index) ;;
    renderCaseFromData c.

(** *** The 3-year case browser, lines 301-432 *)

(** The [html] that lines 341-426 build. *)
Definition renderLateCaseInTab_html (c : value) : result string :=
  pd <- peak_period c ;;
  lateAwakeningBadge <-
    template
      [Lit "<span class=~late-awakening-badge~>LATE AWAKENING (";
       Val (get_prop c "sleep_duration");
       Lit "d sleep)</span>"] ;;
  header <-
    template
      [Lit "
        <div class=~case-header~>
            <div class=~case-meta~>
                <span class=~rank-badge~>#";
       Val (get_prop c "rank");
       Lit " (3yr)</span>
                <span class=~b-value~>B: ";
       Txt (v <- get_prop c "B" ;; toFixed v);
       Lit "</span>
                <span class=~peak-day~>Peak: Day ";
       Val (get_prop c "tm");
       Lit "</span>
                <span class=~category-tag~>";
       Val (get_prop c "category");
       Lit "</span>
                ";
       Txt (Ok lateAwakeningBadge);
       Lit "
            </div>
            <h2>";
       Txt (escaped (get_prop c "title"));
       Lit "</h2>
        </div>

        <div class=~mechanism-section~>
            <h3>Mechanism Status</h3>
            <div class=~mechanism-card n/a~>
                <div class=~mechanism-name~>";
       Val (get_prop c "mechanism");
       Lit "</div>
                <div class=~mechanism-confidence~>Confidence: ";
       Val (get_prop c "confidence");
       Lit "</div>
                <div class=~mechanism-evidence~>";
       Txt (escaped (get_prop c "evidence"));
       Lit "</div>
            </div>
        </div>

        <div class=~timeline-section~>
            <h3>Daily Views Timeline (3-Year Window)</h3>
            <canvas id=~late-timeline-chart~></canvas>
        </div>
    "] ;;
  post <- original_post c ;;
  comments <- comments_section pd c ;;
  note <-
    template
      [Lit "
        <div class=~info-box~>
            <h4>Note</h4>
            <p>This is a late-awakening Sleeping Beauty from the 3-year window analysis.
            Mechanism analysis is pending. The post remained dormant for ";
       Val (get_prop c "sleep_duration");
       Lit " days
            before awakening at day ";
       Val (get_prop c "tm");
       Lit ".</p>
        </div>
    "] ;;
  Ok (header ++ post ++ comments ++ note)%string.

(** [renderLateCaseInTab], lines 336-432. *)
Definition renderLateCaseInTab (index : double) : P unit :=
  set_currentLateCaseIndex index ;;;
  cases <~ read (fun b => lateAwakeningCases (globals b)) ;;
  c <~ lift (at_index cases index) ;;
  let container := "late-case-detail" in
  html <~ lift (renderLateCaseInTab_html c) ;;
  on container (SetHtml container html) ;;;
  daily_views <~ lift (get_prop c "daily_views") ;;
  tm <~ lift (get_prop c "tm") ;;
  renderTimelineChart daily_views tm "late-timeline-chart".

(** [c.title.substring(0, 50)]. *)
Definition title_start (c : value) : result string :=
  title <- get_prop c "title" ;;
  match title with
  | Str s => Ok (Text.take16 50 s)
  | _ => Throw TypeError
  end.

(** The listener that [populateLateCaseSelector] puts on the selector,
    lines 314-319; [selected] is [selector.value]. *)
Definition late_case_selected (selected : string) : P unit :=
  let idx := parseInt selected in
  if negb (is_nan idx) then renderLateCaseInTab idx else unit_P tt.

(** [populateLateCaseSelector], lines 303-320. *)
Definition populateLateCaseSelector : P unit :=
  let selector := "late-case-selector" in
  if negb (present selector) then unit_P tt
  else
    cases <~ read (fun b => lateAwakeningCases (globals b)) ;;
    items <~ lift (elements cases) ;;
    forEach items 0 (fun c i =>
      text <~ lift (template [Lit "#"; Val (get_prop c "rank"); Lit " (3yr) - ";
                              Txt (title_start c); Lit "..."]) ;;
      log (AppendOption selector (to_string (of_nat i)) text)) ;;;
    log (Listen selector "change").

(** [prevLateCase] and [nextLateCase], lines 322-334. *)
Definition prevLateCase : P unit :=
  i <~ read currentLateCaseIndex ;;
  if gt i (dFin 0) then
    on "late-case-selector" (SetValue "late-case-selector" (to_string (sub i (of_Z 1)))) ;;;
    i' <~ read currentLateCaseIndex ;;
    renderLateCaseInTab (sub i' (of_Z 1))
  else unit_P tt.

Definition nextLateCase : P unit :=
  i <~ read currentLateCaseIndex ;;
  cases <~ read (fun b => lateAwakeningCases (globals b)) ;;
  n <~ lift (number_of (length_of cases)) ;;
  if lt i (sub n (of_Z 1)) then
    on "late-case-selector" (SetValue "late-case-selector" (to_string (add i (of_Z 1)))) ;;;
    i' <~ read currentLateCaseIndex ;;
    renderLateCaseInTab (add i' (of_Z 1))
  else unit_P tt.

(** *** The tabs, lines 434-447 *)

(** The listener that [initializeTabs] puts on every tab button, lines
    437-445; [btn] names the button and [tab] is [btn.dataset.tab]. *)
Definition tab_clicked (btn : string) (tab : option string) : P unit :=
  log (RemoveClassAll ".tab-btn" "active") ;;;
  log (RemoveClassAll ".tab-content" "active") ;;;
  log (AddClass btn "active") ;;;
  let id := match tab with Some t => t | None => "undefined" end in
  on id (AddClass id "active").

Definition initializeTabs : P unit :=
  log (Listen ".tab-btn" "click").

(** *** The overview, lines 451-540 *)

(** [metadata.reduce((sum, c) => sum + c.field, 0)]. *)
Fixpoint sum_of (field : string) (l : list value) (sum : prim) : result prim :=
  match l with
  | [] => Ok sum
  | c :: rest =>
    x <- get_prop c field ;;
    p <- ToPrimitive x ;;
    sum_of field rest (plus sum p)
  end.

(** [metadata.filter(c => c.has_prince).length]. *)
Fixpoint count_with (field : string) (l : list value) : result nat :=
  match l with
  | [] => Ok 0%nat
  | c :: rest =>
    x <- get_prop c field ;;
    n <- count_with field rest ;;
    Ok (if truthy x then S n else n)
  end.

(** The names that every object inherits from [Object.prototype]. *)
Definition inherited : list string :=
  ["constructor"; "__defineGetter__"; "__defineSetter__"; "hasOwnProperty";
   "__lookupGetter__"; "__lookupSetter__"; "isPrototypeOf";
   "propertyIsEnumerable"; "toString"; "valueOf"; "__proto__"; "toLocaleString"].

Definition is_inherited (k : string) : bool :=
  existsb (String.eqb k) inherited.

(** An object used as a table of counts: its own properties, oldest
    first. *)
Definition counts : Type := list (string * prim).

Fixpoint own (k : string) (o : counts) : option prim :=
  match o with
  | [] => None
  | (k', v) :: rest => if String.eqb k' k then Some v else own k rest
  end.

Fixpoint put (k : string) (v : prim) (o : counts) : counts :=
  match o with
  | [] => [(k, v)]
  | (k', v') :: rest => if String.eqb k' k then (k', v) :: rest else (k', v') :: put k v rest
  end.

(** ToBoolean on primitive values. *)
Definition prim_truthy (p : prim) : bool :=
  match p with
  | PUndefined | PNull => false
  | PBool b => b
  | PNum d => negb (eq d (dFin 0) || is_nan d)
  | PStr s => negb (String.eqb s "")
  end.

(** [o[k] = (o[k] || 0) + 1] on an object that started as [{}].  A name
    of [Object.prototype] is found there on the first reading: a
    function, or the prototype itself under [__proto__], whose string
    gets the [1] appended; assigning a string under [__proto__] changes
    nothing. *)
Definition count_up (k : string) (o : counts) : counts :=
  let one := PNum (of_Z 1) in
  match own k o with
  | Some p => put k (plus (if prim_truthy p then p else PNum (dFin 0)) one) o
  | None =>
    if String.eqb k "__proto__" then o
    else if is_inherited k then put k (PStr (native_text k ++ "1")) o
    else put k one o
  end.

(** A key that is an array index: the decimal digits of an integer below
    [2^32 - 1], with no leading zero. *)
Definition array_index (k : string) : option Z :=
  let l := chars k in
  let '(v, n, rest) := digits_in 10 l 0 0 in
  match l, rest with
  | [], _ => None
  | _, _ :: _ => None
  | 48%N :: _ :: _, [] => None
  | _, [] => if (v <? 4294967295)%Z then Some v else None
  end.

(** Insertion of an index key into the sorted index keys. *)
Fixpoint insert_index (k : string) (i : Z) (v : prim) (l : list (Z * (string * prim)))
  : list (Z * (string * prim)) :=
  match l with
  | [] => [(i, (k, v))]
  | (j, e) :: rest =>
    if (i <? j)%Z then (i, (k, v)) :: l else (j, e) :: insert_index k i v rest
  end.

Definition index_entries (o : counts) : list (Z * (string * prim)) :=
  fold_left (fun acc e =>
               match array_index (fst e) with
               | Some i => insert_index (fst e) i (snd e) acc
               | None => acc
               end) o [].

(** The own properties in the order of [Object.keys]: the array indices
    ascending, then the other keys, oldest first. *)
Definition entries (o : counts) : counts :=
  map snd (index_entries o)
  ++ filter (fun e => match array_index (fst e) with Some _ => false | None => true end) o.

(** [metadata.forEach(c => { const k = key(c); o[k] = (o[k] || 0) + 1; })]. *)
Fixpoint count_by (key : value -> result string) (l : list value) (o : counts)
  : result counts :=
  match l with
  | [] => Ok o
  | c :: rest => k <- key c ;; count_by key rest (count_up k o)
  end.

(** [c.mechanism.split(' (')[0]], line 475. *)
Definition mechanism_stem (c : value) : result string :=
  mechanism <- get_prop c "mechanism" ;;
  match mechanism with
  | Str s => Ok (Text.before " (" s)
  | _ => Throw TypeError
  end.

(** The property key that [c.category] is used as, line 503. *)
Definition category_key (c : value) : result string :=
  category <- get_prop c "category" ;; ToString category.

(** [renderMechanismChart], lines 472-498. *)
Definition renderMechanismChart : P unit :=
  m <~ read (fun b => metadata (globals b)) ;;
  items <~ lift (elements m) ;;
  mechanismCounts <~ lift (count_by mechanism_stem items []) ;;
  new_Chart "mechanism-chart"
    (Doughnut (map fst (entries mechanismCounts)) (map snd (entries mechanismCounts))).

(** [renderCategoryChart], lines 500-521. *)
Definition renderCategoryChart : P unit :=
  m <~ read (fun b => metadata (globals b)) ;;
  items <~ lift (elements m) ;;
  categoryCounts <~ lift (count_by category_key items []) ;;
  new_Chart "category-chart"
    (Bar (map fst (entries categoryCounts)) (map snd (entries categoryCounts))).

(** One row of the overview table, lines 529-537. *)
Definition overview_row (c : value) : result string :=
  template
    [Lit "
            <td>";
     Val (get_prop c "rank");
     Lit "</td>
            <td class=~title-cell~>";
     Txt (escaped (get_prop c "title"));
     Lit "</td>
            <td>";
     Txt (v <- get_prop c "B" ;; toFixed v);
     Lit "</td>
            <td>";
     Val (get_prop c "tm");
     Lit "</td>
            <td>";
     Val (get_prop c "category");
     Lit "</td>
            <td><span class=~mechanism-badge~>";
     Val (get_prop c "mechanism");
     Lit "</span></td>
            <td><button onclick=~viewCase(";
     Dbl (n <- number_of (get_prop c "rank") ;; Ok (sub n (of_Z 1)));
     Lit ")~>View</button></td>
        "].

(** [renderOverviewTable], lines 523-540. *)
Definition renderOverviewTable : P unit :=
  let tbody := "#overview-table tbody" in
  on tbody (SetHtml tbody "") ;;;
  m <~ read (fun b => metadata (globals b)) ;;
  items <~ lift (elements m) ;;
  forEach items 0 (fun c _ =>
    html <~ lift (overview_row c) ;;
    log (AppendRow tbody html)).

(** [renderOverview], lines 451-470. *)
Definition renderOverview : P unit :=
  m <~ read (fun b => metadata (globals b)) ;;
  total <~ lift (n <- length_of m ;; ToString n) ;;
  on "total-cases" (SetText "total-cases" total) ;;;
  avgB <~ lift (
    items <- elements m ;;
    sum <- sum_of "B" items (PNum (dFin 0)) ;;
    n <- number_of (length_of m) ;;
    Ok (toFixed1 (div (prim_to_number sum) n))) ;;
  on "avg-beauty" (SetText "avg-beauty" avgB) ;;;
  avgPeak <~ lift (
    items <- elements m ;;
    sum <- sum_of "tm" items (PNum (dFin 0)) ;;
    n <- number_of (length_of m) ;;
    Ok (round_half_up (div (prim_to_number sum) n))) ;;
  on "avg-peak" (SetText "avg-peak" (to_string avgPeak)) ;;;
  withPrince <~ lift (items <- elements m ;; count_with "has_prince" items) ;;
  on "with-prince" (SetText "with-prince" (to_string (of_nat withPrince))) ;;;
  renderMechanismChart ;;;
  renderCategoryChart ;;;
  renderOverviewTable.

(** *** The awakening analysis, lines 732-886 *)

(** [v || []]: the elements of a list that may be missing; the value
    itself when it is truthy. *)
Definition or_empty (v : value) : value := or_else v (Arr []).

(** [body.toLowerCase().includes('healthunlocked.com')]. *)
Definition names_site (body : value) : result bool :=
  low <- lower body ;; Ok (string_includes low "healthunlocked.com").

(** One post of the author, lines 748-757. *)
Definition related_post (p : value) : result string :=
  before_peak <- (n <- number_of (get_prop p "days_from_peak") ;; Ok (lt n (dFin 0))) ;;
  let timing := if before_peak then "before peak" else "after peak" in
  template
    [Lit "
                <div class=~related-post~>
                    <div class=~related-header~>Post ";
     Val (get_prop p "post_id");
     Lit " | ";
     Dbl (n <- number_of (get_prop p "days_from_peak") ;; Ok (abs n));
     Lit " days ";
     Txt (Ok timing);
     Lit " | ";
     Val (get_prop p "responses");
     Lit " responses</div>
                    <div class=~related-title~>";
     Txt (escaped (get_prop p "title"));
     Lit "</div>
                    ";
     Txt (v <- get_prop p "body_preview" ;;
           if truthy v then template [Lit "<div class=~related-preview~>"; Txt (escapeHtml v); Lit "...</div>"]
           else Ok "");
     Lit "
                </div>
            "].

(** One comment of the author elsewhere, lines 772-789. *)
Definition elsewhere_comment (postId c : value) : result string :=
  comment_body <- get_prop c "comment_body" ;;
  let commentBody := or_else comment_body (Str "") in
  site <- names_site commentBody ;;
  hasLink <- (if site then Ok true
              else if truthy postId then
                     needle <- ToString postId ;; str_includes commentBody needle
                   else Ok false) ;;
  let linkBadge := if hasLink then qt "<span class=~link-badge~>CONTAINS LINK</span>" else "" in
  let cardClass := if hasLink then "self-promo-card" else "" in
  before_peak <- (n <- number_of (get_prop c "days_from_peak") ;; Ok (lt n (dFin 0))) ;;
  let timing := if before_peak then "before peak" else "after peak" in
  template
    [Lit "
                <div class=~comment-box ";
     Txt (Ok cardClass);
     Lit "~>
                    <div class=~comment-header~>
                        On: ~";
     Txt (escaped (get_prop c "thread_title"));
     Lit "~ (by User ";
     Val (get_prop c "thread_author");
     Lit ") | ";
     Dbl (n <- number_of (get_prop c "days_from_peak") ;; Ok (abs n));
     Lit " days ";
     Txt (Ok timing);
     Lit " ";
     Txt (Ok linkBadge);
     Lit "
                    </div>
                    <div class=~comment-body~>";
     Txt (body_html (Ok commentBody));
     Lit "</div>
                </div>
            "].

(** One new commenter, lines 807-814. *)
Definition peak_commenter (c : value) : result string :=
  template
    [Lit "
                <div class=~comment-box peak-comment~>
                    <div class=~comment-header~>User ";
     Val (get_prop c "user_id");
     Lit " | Day ";
     Val (get_prop c "comment_day");
     Lit "</div>
                    <div class=~comment-body~>";
     Txt (v <- get_prop c "comment_preview" ;; escapeHtml (or_else v (Str "")));
     Lit "</div>
                </div>
            "].

(** One post a commenter created, lines 838-846. *)
Definition created_post (p : value) : result string :=
  template
    [Lit "
                        <div class=~created-post~>
                            <div class=~created-title~>";
     Txt (escaped (get_prop p "title"));
     Lit "</div>
                            <div class=~created-meta~>";
     Val (get_prop p "days_before_sb_comment");
     Lit " days before commenting on SB</div>
                            ";
     Txt (v <- get_prop p "body_preview" ;;
           if truthy v then template [Lit "<div class=~created-preview~>"; Txt (escapeHtml v); Lit "...</div>"]
           else Ok "");
     Lit "
                        </div>
                    "].

(** One thread a commenter took part in, lines 856-864. *)
Definition participated_thread (t : value) : result string :=
  template
    [Lit "
                        <div class=~participated-thread~>
                            <div class=~thread-title~>";
     Txt (escaped (get_prop t "title"));
     Lit "</div>
                            <div class=~thread-meta~>Thread by User ";
     Val (get_prop t "thread_author");
     Lit "</div>
                            ";
     Txt (v <- get_prop t "comment_preview" ;;
           if truthy v then template [Lit "<div class=~thread-comment~>~"; Txt (escapeHtml v); Lit "~</div>"]
           else Ok "");
     Lit "
                        </div>
                    "].

(** [list?.length || 0]. *)
Definition length_or_zero (list : value) : result value :=
  match list with
  | Undefined | Null => Ok (Num (Dec 0 0))
  | _ => n <- length_of list ;; Ok (or_else n (Num (Dec 0 0)))
  end.

(** [list && list.length > 0]. *)
Definition non_empty (list : value) : result bool :=
  if truthy list then n <- number_of (length_of list) ;; Ok (gt n (dFin 0))
  else Ok false.

(** [!list || list.length === 0]. *)
Definition none_of (list : value) : result bool :=
  if negb (truthy list) then Ok true
  else n <- length_of list ;; Ok (strict_eq n (Num (Dec 0 0))).

(** The activity of one commenter, lines 829-878. *)
Definition user_activity (activity : value) : result string :=
  h5 <- template [Lit "<h5>User "; Val (get_prop activity "user_id"); Lit "</h5>"] ;;
  posts_created <- get_prop activity "posts_created" ;;
  posts_head <-
    template [Lit "<strong>Posts Created ("; Val (length_or_zero posts_created);
              Lit ")</strong>"] ;;
  some_posts <- non_empty posts_created ;;
  posts <- (if some_posts then
              items <- elements posts_created ;; concat_map created_post items
            else Ok (qt "<p class=~no-data~>No posts created</p>")) ;;
  threads_participated <- get_prop activity "threads_participated" ;;
  threads_head <-
    template [Lit "<strong>Threads Participated ("; Val (length_or_zero threads_participated);
              Lit ")</strong>"] ;;
  some_threads <- non_empty threads_participated ;;
  threads <- (if some_threads then
                items <- elements threads_participated ;;
                concat_map participated_thread items
              else Ok (qt "<p class=~no-data~>No thread participation found</p>")) ;;
  no_posts <- none_of posts_created ;;
  nothing <- (if no_posts then none_of threads_participated else Ok false) ;;
  Ok (qt "<div class=~user-activity~>" ++ h5 ++ qt "<div class=~activity-columns~>"
      ++ qt "<div class=~activity-col~>" ++ posts_head ++ posts ++ qt "</div>"
      ++ qt "<div class=~activity-col~>" ++ threads_head ++ threads ++ qt "</div>"
      ++ qt "</div>"
      ++ (if nothing then qt "<p class=~warning-text~>No prior activity found - user likely discovered via search or external link</p>" else "")
      ++ qt "</div>")%string.

Definition renderAwakeningAnalysis (exploration postId : value) : result string :=
  let opening := qt "
        <details class=~content-section~ open>
            <summary>Awakening Analysis</summary>
            <div class=~exploration-content~>
    " in
  (* 1a *)
  author_posts <- get_prop exploration "author_posts" ;;
  let authorPosts := or_empty author_posts in
  head_1a <-
    template
      [Lit "
        <div class=~exploration-section~>
            <h4>1a. Same Author's Posts (";
       Val (length_of authorPosts);
       Lit " found)</h4>
            <p class=~section-desc~>Other posts by the same author around the awakening period</p>
    "] ;;
  some_posts <- (n <- number_of (length_of authorPosts) ;; Ok (gt n (dFin 0))) ;;
  body_1a <- (if some_posts then items <- elements authorPosts ;; concat_map related_post items
              else Ok (qt "<p class=~no-data~>No other posts by this author found</p>")) ;;
  (* 1b *)
  author_comments_elsewhere <- get_prop exploration "author_comments_elsewhere" ;;
  let authorCommentsElsewhere := or_empty author_comments_elsewhere in
  head_1b <-
    template
      [Lit "
        <div class=~exploration-section~>
            <h4>1b. Author's Comments Elsewhere (";
       Val (length_of authorCommentsElsewhere);
       Lit " found)</h4>
            <p class=~section-desc~>Author's comments on OTHER threads around peak - potential self-promotion</p>
    "] ;;
  some_comments <- (n <- number_of (length_of authorCommentsElsewhere) ;; Ok (gt n (dFin 0))) ;;
  body_1b <- (if some_comments then
                items <- elements authorCommentsElsewhere ;;
                shown <- concat_map (elsewhere_comment postId) (firstn 10 items) ;;
                more <- (n <- number_of (length_of authorCommentsElsewhere) ;;
                         if gt n (of_Z 10) then
                           template [Lit "<p class=~more-items~>... and ";
                                     Dbl (Ok (sub n (of_Z 10))); Lit " more comments</p>"]
                         else Ok "") ;;
                Ok (shown ++ more)%string
              else Ok (qt "<p class=~no-data~>No comments on other threads found</p>")) ;;
  (* 2 *)
  peak_commenters <- get_prop exploration "peak_commenters" ;;
  let peakCommenters := or_empty peak_commenters in
  head_2 <-
    template
      [Lit "
        <div class=~exploration-section~>
            <h4>2. New Peak Commenters (";
       Val (length_of peakCommenters);
       Lit " found)</h4>
            <p class=~section-desc~>Users who commented during awakening but NOT in early period</p>
    "] ;;
  some_commenters <- (n <- number_of (length_of peakCommenters) ;; Ok (gt n (dFin 0))) ;;
  body_2 <- (if some_commenters then
               items <- elements peakCommenters ;; concat_map peak_commenter items
             else Ok (qt "<p class=~no-data~>No new peak commenters found</p>")) ;;
  (* 3 *)
  commenter_activity <- get_prop exploration "commenter_activity" ;;
  let commenterActivity := or_empty commenter_activity in
  head_3 <-
    template
      [Lit "
        <div class=~exploration-section~>
            <h4>3. Where Did They Come From? (";
       Val (length_of commenterActivity);
       Lit " traced)</h4>
            <p class=~section-desc~>Activity of new commenters in 14 days BEFORE commenting on SB</p>
    "] ;;
  some_activity <- (n <- number_of (length_of commenterActivity) ;; Ok (gt n (dFin 0))) ;;
  body_3 <- (if some_activity then
               items <- elements commenterActivity ;; concat_map user_activity items
             else Ok (qt "<p class=~no-data~>No commenter activity traced</p>")) ;;
  Ok (opening
      ++ head_1a ++ body_1a ++ qt "</div>"
      ++ head_1b ++ body_1b ++ qt "</div>"
      ++ head_2 ++ body_2 ++ qt "</div>"
      ++ head_3 ++ body_3 ++ qt "</div>"
      ++ qt "</div></details>")%string.

(** *** The case browser, lines 544-730 *)

(** The test of [find] in the prince post block, lines 674-680. *)
Definition relates (c princePostId comment : value) : result bool :=
  thread_id <- get_prop comment "thread_id" ;;
  if strict_eq thread_id princePostId then Ok true
  else
    comment_body <- get_prop comment "comment_body" ;;
    if truthy comment_body then
      site <- names_site comment_body ;;
      if site then Ok true
      else
        post_id <- get_prop c "post_id" ;;
        needle <- ToString post_id ;;
        str_includes comment_body needle
    else Ok false.

(** [list.find(test)]. *)
Fixpoint find_first (test : value -> result bool) (l : list value) : result value :=
  match l with
  | [] => Ok Undefined
  | x :: rest =>
    found <- test x ;;
    if found then Ok x else find_first test rest
  end.

(** The prince post block, lines 666-709. *)
Definition prince_section (c : value) : result string :=
  prince_post <- get_prop c "prince_post" ;;
  if truthy prince_post then
    mechanism <- get_prop c "mechanism" ;;
    isAuthorSelfPromo <- (if truthy mechanism
                          then includes mechanism "Author Self-Promotion"
                          else Ok false) ;;
    princePostId <- get_prop prince_post "post_id" ;;
    exploration <- get_prop c "exploration" ;;
    elsewhere <- (match exploration with
                  | Undefined | Null => Ok Undefined
                  | _ => get_prop exploration "author_comments_elsewhere"
                  end) ;;
    let authorCommentsElsewhere := or_empty elsewhere in
    items <- elements authorCommentsElsewhere ;;
    relatedComment <- find_first (relates c princePostId) items ;;
    is_superuser <- get_prop prince_post "is_superuser" ;;
    let princeSuperuserBadge :=
      if truthy is_superuser then qt "<span class=~superuser-badge~>SUPERUSER</span>"
      else "" in
    post <-
      template
        [Lit "
            <details class=~content-section~ open>
                <summary>Prince Post (Awakening Trigger)</summary>
                <div class=~prince-post~>
                    <div class=~prince-meta~>Author: User ";
         Val (get_prop prince_post "author_id");
         Lit " ";
         Txt (Ok princeSuperuserBadge);
         Lit " | ";
         Val (d <- get_prop prince_post "date" ;; Ok (or_else d (Str "")));
         Lit "</div>
                    <div class=~prince-title~>";
         Txt (escaped (get_prop prince_post "title"));
         Lit "</div>
                    <div class=~prince-body~>";
         Txt (body_html (get_prop prince_post "body"));
         Lit "</div>
                </div>
        "] ;;
    evidence <- (if truthy relatedComment then
                   comment_body <- get_prop relatedComment "comment_body" ;;
                   let commentBody := or_else comment_body (Str "") in
                   site <- names_site commentBody ;;
                   hasLink <- (if site then Ok true
                               else
                                 post_id <- get_prop c "post_id" ;;
                                 needle <- ToString post_id ;;
                                 str_includes commentBody needle) ;;
                   template
                     [Lit "
                <div class=~self-promo-evidence~>
                    <h4>Author's Comment on This Thread ";
                      Txt (Ok (if hasLink then qt "<span class=~link-badge~>CONTAINS LINK TO SB POST</span>" else ""));
                      Lit "</h4>
                    <div class=~comment-box self-promo-card~>
                        <div class=~comment-body~>";
                      Txt (body_html (Ok commentBody));
                      Lit "</div>
                    </div>
                </div>
            "]
                 else Ok "") ;;
    Ok (post ++ evidence ++ qt "</details>")%string
  else Ok "".

(** The [html] that lines 592-721 build. *)
Definition renderCase_html (c : value) : result string :=
  pd <- peak_period c ;;
  header <-
    template
      [Lit "
        <div class=~case-header~>
            <div class=~case-meta~>
                <span class=~rank-badge~>#";
       Val (get_prop c "rank");
       Lit "</span>
                <span class=~b-value~>B: ";
       Txt (v <- get_prop c "B" ;; toFixed v);
       Lit "</span>
                <span class=~peak-day~>Peak: Day ";
       Val (get_prop c "tm");
       Lit "</span>
                <span class=~category-tag~>";
       Val (get_prop c "category");
       Lit "</span>
            </div>
            <h2>";
       Txt (escaped (get_prop c "title"));
       Lit "</h2>
        </div>

        <div class=~mechanism-section~>
            <h3>AI-Inferred Mechanism</h3>
            <div class=~mechanism-card ";
       Txt (v <- get_prop c "confidence" ;; lower v);
       Lit "~>
                <div class=~mechanism-name~>";
       Val (get_prop c "mechanism");
       Lit "</div>
                <div class=~mechanism-confidence~>Confidence: ";
       Val (get_prop c "confidence");
       Lit "</div>
                <div class=~mechanism-evidence~>";
       Txt (escaped (get_prop c "evidence"));
       Lit "</div>
            </div>
            ";
       Txt (renderMechanismChain c);
       Lit "
        </div>

        <div class=~timeline-section~>
            <h3>Daily Views Timeline</h3>
            <canvas id=~timeline-chart~></canvas>
        </div>
    "] ;;
  post <- original_post c ;;
  comments <- comments_section pd c ;;
  prince <- prince_section c ;;
  exploration <- get_prop c "exploration" ;;
  post_id <- get_prop c "post_id" ;;
  analysis <- renderAwakeningAnalysis exploration post_id ;;
  Ok (header ++ post ++ comments ++ prince ++ analysis
      ++ qt "
        <div class=~giscus-section~>
            <h3>Research Notes & Discussion</h3>
            <p class=~giscus-desc~>Share your observations about this case with colleagues</p>
            <div class=~giscus~></div>
        </div>
    ")%string.

(** [renderCase], lines 587-730. *)
Definition renderCase (index : double) : P unit :=
  set_currentCaseIndex index ;;;
  cases <~ read (fun b => casesData (globals b)) ;;
  c <~ lift (at_index cases index) ;;
  let container := "case-detail" in
  html <~ lift (renderCase_html c) ;;
  on container (SetHtml container html) ;;;
  daily_views <~ lift (get_prop c "daily_views") ;;
  tm <~ lift (get_prop c "tm") ;;
  renderTimelineChart daily_views tm "timeline-chart" ;;;
  post_id <~ lift (get_prop c "post_id") ;;
  loadGiscus post_id.

(** The listener that [populateCaseSelector] puts on the selector, lines
    553-558; [selected] is [selector.value]. *)
Definition case_selected (selected : string) : P unit :=
  let idx := parseInt selected in
  if negb (is_nan idx) then renderCase idx else unit_P tt.

(** [populateCaseSelector], lines 544-559. *)
Definition populateCaseSelector : P unit :=
  let selector := "case-selector" in
  cases <~ read (fun b => casesData (globals b)) ;;
  items <~ lift (elements cases) ;;
  forEach items 0 (fun c i =>
    text <~ lift (template [Lit "#"; Val (get_prop c "rank"); Lit " - ";
                            Txt (title_start c); Lit "..."]) ;;
    on selector (AppendOption selector (to_string (of_nat i)) text)) ;;;
  on selector (Listen selector "change").

(** [viewCase], lines 561-571. *)
Definition viewCase (index : double) : P unit :=
  log (RemoveClassAll ".tab-btn" "active") ;;;
  log (RemoveClassAll ".tab-content" "active") ;;;
  on (qt "[data-tab=~cases~]") (AddClass (qt "[data-tab=~cases~]") "active") ;;;
  on "cases" (AddClass "cases" "active") ;;;
  on "case-selector" (SetValue "case-selector" (to_string index)) ;;;
  renderCase index.

(** [prevCase] and [nextCase], lines 573-585. *)
Definition prevCase : P unit :=
  i <~ read currentCaseIndex ;;
  if gt i (dFin 0) then
    on "case-selector" (SetValue "case-selector" (to_string (sub i (of_Z 1)))) ;;;
    i' <~ read currentCaseIndex ;;
    renderCase (sub i' (of_Z 1))
  else unit_P tt.

Definition nextCase : P unit :=
  i <~ read currentCaseIndex ;;
  cases <~ read (fun b => casesData (globals b)) ;;
  n <~ lift (number_of (length_of cases)) ;;
  if lt i (sub n (of_Z 1)) then
    on "case-selector" (SetValue "case-selector" (to_string (add i (of_Z 1)))) ;;;
    i' <~ read currentCaseIndex ;;
    renderCase (add i' (of_Z 1))
  else unit_P tt.

End Rendering.

(** *** Vocabulary of the properties *)

Definition is_alert (ev : DomEvent) : bool :=
  match ev with
  | Alert _ => true
  | _ => false
  end.

(** A computation that leaves the globals and the indices alone and only
    adds to the page, and no alert. *)
Definition renders {A : Type} (c : P A) : Prop :=
  forall b, let b' := snd (c b) in
    globals b' = globals b /\
    currentCaseIndex b' = currentCaseIndex b /\
    currentCaseSource b' = currentCaseSource b /\
    currentLateCaseIndex b' = currentLateCaseIndex b /\
    exists evs, page b' = page b ++ evs /\ existsb is_alert evs = false.

(** The case browser shows one of [items], or nothing yet. *)
Definition browsing (items : list value) (b : Browser) : Prop :=
  casesData (globals b) = Arr items /\
  exists i : Z, currentCaseIndex b = of_Z i /\ (-1 <= i < Z.of_nat (length items))%Z.

(** What the user can do in the case browser: the two arrows, and a View
    button of the overview table whose number, the rank of its row less
    one, is an index of the list. *)
Inductive click : Browser -> Browser -> Prop :=
| click_prev (dom : Dom) (b : Browser) : click b (snd (prevCase b))
| click_next (dom : Dom) (b : Browser) : click b (snd (nextCase b))
| click_view (dom : Dom) (b : Browser) (items : list value) (k : nat) :
    casesData (globals b) = Arr items -> (k < length items)%nat ->
    click b (snd (viewCase (of_nat k) b)).

(** The same for the browser of the 3-year cases and its two arrows. *)
Definition late_browsing (items : list value) (b : Browser) : Prop :=
  lateAwakeningCases (globals b) = Arr items /\
  exists i : Z, currentLateCaseIndex b = of_Z i /\ (-1 <= i < Z.of_nat (length items))%Z.

Inductive late_click : Browser -> Browser -> Prop :=
| click_prev_late (dom : Dom) (b : Browser) : late_click b (snd (prevLateCase b))
| click_next_late (dom : Dom) (b : Browser) : late_click b (snd (nextLateCase b)).

(** How often a character occurs in a string. *)
Fixpoint count_char (c : ascii) (s : string) : nat :=
  match s with
  | EmptyString => 0
  | String a rest => (if Ascii.eqb a c then 1 else 0) + count_char c rest
  end.

(** The text that an HTML parser reads from a fragment without tags: the
    four character references of [serialize_text] put back. *)
Fixpoint unescape (s : string) : string :=
  match s with
  | String "&" (String "a" (String "m" (String "p" (String ";" rest)))) =>
    String "&" (unescape rest)
  | String "&" (String "l" (String "t" (String ";" rest))) => String "<" (unescape rest)
  | String "&" (String "g" (String "t" (String ";" rest))) => String ">" (unescape rest)
  | String "&" (String "n" (String "b" (String "s" (String "p" (String ";" rest))))) =>
    String (ascii_of_nat 194) (String (ascii_of_nat 160) (unescape rest))
  | String c rest => String c (unescape rest)
  | EmptyString => EmptyString
  end.

Definition newline : ascii := ascii_of_nat 10.

(** How many of the keys [ks] are [k]. *)
Definition tally (ks : list string) (k : string) : nat := count_occ string_dec ks k.

(** The table of counts after the keys [ks] have been counted. *)
Definition counted (ks : list string) (o : counts) : Prop :=
  NoDup (map fst o) /\
  (forall k, In k (map fst o) <-> In k ks) /\
  (forall k, In k ks -> own k o = Some (PNum (of_nat (tally ks k)))).

(** The two contents of the last cell of a row of the 3-year table. *)
Definition view_button (index : nat) : string :=
  (qt "<button onclick=~viewLateAwakeningCase(" ++ to_string (of_nat index)
   ++ qt ")~>View</button>")%string.

Definition pending_badge : string := qt "<span class=~no-data-badge~>Pending</span>".

(** [s] ends with [tail]. *)
Definition ends_with (s tail : string) : Prop := exists pre, s = (pre ++ tail)%string.

Definition alert_text : string := "Detailed case data not available yet.".

(** The browser after an alert with [alert_text]. *)
Definition alerted (b : Browser) : Browser :=
  {| globals := globals b; currentCaseIndex := currentCaseIndex b;
     currentCaseSource := currentCaseSource b;
     currentLateCaseIndex := currentLateCaseIndex b;
     page := page b ++ [Alert alert_text] |}.

Definition cases_tab : string := qt "[data-tab=~cases~]".

(** The last cell of a row of the overview table. *)
Definition view_case_button (index : Z) : string :=
  (qt "<button onclick=~viewCase(" ++ to_string (of_Z index)
   ++ qt ")~>View</button>")%string.

(** Two browsers that differ in [currentCaseSource] at most. *)
Definition same_but_source (b1 b2 : Browser) : Prop :=
  globals b1 = globals b2 /\ currentCaseIndex b1 = currentCaseIndex b2 /\
  currentLateCaseIndex b1 = currentLateCaseIndex b2 /\ page b1 = page b2.

(** A computation that does not look at [currentCaseSource]. *)
Definition blind {A : Type} (c : P A) : Prop :=
  forall b1 b2, same_but_source b1 b2 ->
    fst (c b1) = fst (c b2) /\ same_but_source (snd (c b1)) (snd (c b2)).

(** What [initializeApp] calls on the page and what the page calls back:
    the listeners and the [onclick] handlers, with their arguments. *)
Definition handlers {dom : Dom} (index : double) (selected btn : string)
           (tab : option string) : list (P unit) :=
  [initializeTabs; tab_clicked btn tab; renderOverview; populateCaseSelector;
   case_selected selected; viewCase index; prevCase; nextCase;
   renderLateAwakeningTable; viewLateAwakeningCase index;
   populateLateCaseSelector; late_case_selected selected; prevLateCase; nextLateCase].

(** The functions that draw and do nothing else. *)
Definition drawing {dom : Dom} (c postId dailyViews peakDay : value) (canvasId btn : string)
           (tab : option string) : list (P unit) :=
  [initializeTabs; tab_clicked btn tab; renderOverview; renderMechanismChart;
   renderCategoryChart; renderOverviewTable; populateCaseSelector;
   populateLateCaseSelector; renderLateAwakeningTable; renderCaseFromData c;
   renderTimelineChart dailyViews peakDay canvasId; loadGiscus postId].

End Pages.

(** ** A page and data to run the rendering code on *)

Module Sample.

Import Double Conv Pages.

Definition ascii_lower (c : ascii) : ascii :=
  let n := N_of_ascii c in
  if ((65 <=? n) && (n <=? 90))%N then ascii_of_N (n + 32) else c.

Fixpoint lower_ascii (s : string) : string :=
  match s with
  | EmptyString => EmptyString
  | String c rest => String (ascii_lower c) (lower_ascii rest)
  end.

(** A page that has every element the code looks for, with an engine that
    knows the letters of ASCII and no date. *)
Definition page0 : Dom := {|
  present := fun _ => true;
  toLowerCase := lower_ascii;
  Date_parse := fun _ => dNaN;
  native_text := fun name => ("function " ++ name ++ "() { [native code] }")%string;
  Chart_throws := fun _ => None
|}.

(** A page without any of the elements. *)
Definition empty_page : Dom := {|
  present := fun _ => false;
  toLowerCase := lower_ascii;
  Date_parse := fun _ => dNaN;
  native_text := fun name => ("function " ++ name ++ "() { [native code] }")%string;
  Chart_throws := fun _ => None
|}.

(** The globals after an unlock that loaded these values. *)
Definition loaded (cases meta late : value) : State := {|
  casesData := cases;
  metadata := meta;
  lateAwakeningData := Arr [];
  lateAwakeningCases := late;
  storedPassword := Str "ASTHMAPOSTS";
  password_error := msg_decrypting;
  modal_hidden := true;
  app_hidden := false;
  trace := []
|}.

Definition entry (mechanism category : string) : value :=
  Obj [("mechanism", Str mechanism); ("category", Str category)].

Definition entries3 : list value :=
  [entry "Prince (Possible)" "Asthma"; entry "Spontaneous" "COPD";
   entry "Prince" "Asthma"].

(** A case without an exploration, and one whose exploration is empty. *)
Definition bare_case : value := Obj [("rank", Num (Dec 1 0)); ("title", Str "Test")].

Definition comment (n : Z) : value := Obj [("thread_id", Num (Dec n 0))].

(** Two explorations that differ in the eleventh comment elsewhere only. *)
Definition exploration (last : Z) : value :=
  Obj [("author_comments_elsewhere", Arr (repeat (comment 1) 10 ++ [comment last]))].

(** A row of the 3-year table. *)
Definition late_item : value :=
  Obj [("rank_3yr", Num (Dec 1 0)); ("rank_1yr", Num (Dec 1500 0));
       ("title", Str "A & B"); ("B_3yr", Num (Dec 125 (-1)));
       ("B_1yr", Num (Dec 5 (-1))); ("sleep_duration", Num (Dec 400 0));
       ("tm", Num (Dec 420 0)); ("category", Str "Asthma")].

Definition late_item_row : string := Eval vm_compute in
  match late_row (dom := page0) (Arr [bare_case]) late_item 0 with
  | Ok html => html
  | Throw _ => ""%string
  end.

(** A row of the overview table. *)
Definition overview_entry : value :=
  Obj [("rank", Num (Dec 3 0)); ("title", Str "T"); ("B", Num (Dec 15 (-1)));
       ("tm", Num (Dec 9 0)); ("category", Str "Asthma"); ("mechanism", Str "Prince")].

Definition overview_entry_row : string := Eval vm_compute in
  match overview_row overview_entry with
  | Ok html => html
  | Throw _ => ""%string
  end.

(** A site whose overview cannot be drawn. *)
Definition broken_overview : World :=
  {| fetch_json := Scenario.serve (Scenario.files Scenario.config Scenario.envelope);
     dom_throws := fun routine => routine =? "renderOverview" |}.

End Sample.

(** * Properties *)

(** ** Test vectors *)

Module Vectors.

Import CryptoJS.
Local Open Scope N_scope.

(** FIPS 180-4, the one-block message. *)
Example sha256_abc :
  words_of_bytes (SHA256 (bytes_of_string "abc"))
  = [0xba7816bf; 0x8f01cfea; 0x414140de; 0x5dae2223;
     0xb00361a3; 0x96177a9c; 0xb410ff61; 0xf20015ad].
Proof. vm_compute. reflexivity. Qed.

Example sha1_abc :
  words_of_bytes (SHA1 (bytes_of_string "abc"))
  = [0xa9993e36; 0x4706816a; 0xba3e2571; 0x7850c26c; 0x9cd0d89d].
Proof. vm_compute. reflexivity. Qed.

Example hmac_sha256_fox :
  words_of_bytes (HMAC algo_SHA256 (bytes_of_string "key")
                       (bytes_of_string "The quick brown fox jumps over the lazy dog"))
  = [0xf7bc83f4; 0x30538424; 0xb13298e6; 0xaa6fb143;
     0xef4d59a1; 0x49461759; 0x97479dbc; 0x2d1a3cd8].
Proof. vm_compute. reflexivity. Qed.

(** PBKDF2 with HMAC-SHA-256, one and two iterations, 32 bytes. *)
Example pbkdf2_password_salt_1 :
  words_of_bytes (pbkdf2_bytes algo_SHA256 (bytes_of_string "password")
                               (bytes_of_string "salt") 0 8)
  = [0x120fb6cf; 0xfcf8b32c; 0x43e72252; 0x56c4f837;
     0xa86548c9; 0x2ccc3548; 0x0805987c; 0xb70be17b].
Proof. vm_compute. reflexivity. Qed.

Example pbkdf2_password_salt_2 :
  words_of_bytes (pbkdf2_bytes algo_SHA256 (bytes_of_string "password")
                               (bytes_of_string "salt") 1 8)
  = [0xae4d0c95; 0xaf6b46d3; 0x2d0adff9; 0x28f06dd0;
     0x2a303f8e; 0xf3c251df; 0xd6e2d85a; 0x95474c43].
Proof. vm_compute. reflexivity. Qed.

(** FIPS 197, appendix C. *)
Example aes_128 :
  words_of_bytes (encrypt_block (key_schedule (Scenario.fips_key 16)) Scenario.fips_block)
  = [0x69c4e0d8; 0x6a7b0430; 0xd8cdb780; 0x70b4c55a].
Proof. vm_compute. reflexivity. Qed.

Example aes_192 :
  words_of_bytes (encrypt_block (key_schedule (Scenario.fips_key 24)) Scenario.fips_block)
  = [0xdda97ca4; 0x864cdfe0; 0x6eaf70a0; 0xec0d7191].
Proof. vm_compute. reflexivity. Qed.

Example aes_256 :
  words_of_bytes (encrypt_block (key_schedule (Scenario.fips_key 32)) Scenario.fips_block)
  = [0x8ea2b7ca; 0x516745bf; 0xeafc4990; 0x4b496089].
Proof. vm_compute. reflexivity. Qed.

Example aes_256_decrypt :
  decrypt_block (key_schedule (Scenario.fips_key 32))
                (bytes_of_words [0x8ea2b7ca; 0x516745bf; 0xeafc4990; 0x4b496089])
  = Scenario.fips_block.
Proof. vm_compute. reflexivity. Qed.

Example base64_Man :
  Base64_parse (Str "TWFu") = Ok (bytes_of_string "Man") /\
  Base64_parse (Str "TWE=") = Ok (bytes_of_string "Ma") /\
  Base64_parse (Str "TQ==") = Ok (bytes_of_string "M") /\
  Base64_parse Undefined = Throw TypeError.
Proof. repeat split. Qed.

Example utf8_strict :
  Utf8_stringify [0xC3; 0xA9] = Ok (string_of_bytes [0xC3; 0xA9]) /\
  Utf8_stringify [0xC0; 0x80] = Throw (Error "Malformed UTF-8 data") /\
  Utf8_stringify [0xED; 0xA0; 0x80] = Throw (Error "Malformed UTF-8 data") /\
  Utf8_stringify [0xFF] = Throw (Error "Malformed UTF-8 data").
Proof. repeat split. Qed.

(** Nothing is checked when the padding is removed: the last byte is
    taken as a count, whatever it is. *)
Example unpad_unchecked :
  pkcs7_unpad [54; 1; 2; 3; 4; 5; 6; 7; 8; 9; 10; 11; 12; 13; 14; 15] 16 = [54] /\
  pkcs7_unpad [54; 1; 2; 3; 4; 5; 6; 7; 8; 9; 10; 11; 12; 13; 14; 200] 16 = [].
Proof. split; reflexivity. Qed.

Example json_records : JSON.parse Scenario.plaintext = Ok Scenario.records.
Proof. reflexivity. Qed.

Example json_texts :
  JSON.parse "6" = Ok (Num (Dec 6 0)) /\
  JSON.parse " -2.50e+3 " = Ok (Num (Dec (-250) 1)) /\
  JSON.parse "" = Throw SyntaxError /\
  JSON.parse "01" = Throw SyntaxError /\
  JSON.parse "[1,]" = Throw SyntaxError /\
  JSON.parse "nul" = Throw SyntaxError.
Proof. repeat split. Qed.

Example falsy_numbers :
  truthy (Num (Dec 0 0)) = false /\ truthy (Num (Dec 0 (-1))) = false /\
  truthy (Num (Dec 1 (-400))) = false /\ truthy (Num (Dec 5 (-324))) = true /\
  truthy (Num NaN) = false /\ truthy (Str "0") = true /\ truthy (Arr []) = true.
Proof. repeat split. Qed.

End Vectors.

(** ** Strings *)

Lemma prefix_spec (p s : string) :
  String.prefix p s = true <-> exists post, s = (p ++ post)%string.
Proof.
  revert s; induction p as [|c p IH]; intros s.
  - split; [intros _; exists s; reflexivity | intros _; destruct s; reflexivity].
  - destruct s as [|d s]; simpl.
    + split; [discriminate | intros [post H]; discriminate].
    + destruct (ascii_dec c d) as [->|Hne].
      * rewrite IH. split; intros [post H]; exists post.
        -- now rewrite H.
        -- now injection H.
      * split; [discriminate | intros [post H]; injection H; congruence].
Qed.

Lemma string_includes_spec (s needle : string) :
  string_includes s needle = true <-> contains s needle.
Proof.
  unfold contains. induction s as [|c s IH].
  - change (string_includes "" needle) with (String.prefix needle "" || false).
    rewrite orb_false_r, prefix_spec. split.
    + intros [post H]. exists ""%string, post. exact H.
    + intros [pre [post H]]. destruct pre; simpl in H.
      * exists post; exact H.
      * discriminate.
  - change (string_includes (String c s) needle)
      with (String.prefix needle (String c s) || string_includes s needle).
    rewrite orb_true_iff, prefix_spec, IH. split.
    + intros [[post H] | [pre [post H]]].
      * exists ""%string, post. exact H.
      * exists (String c pre), post. simpl. now rewrite H.
    + intros [pre [post H]]. destruct pre as [|d pre]; simpl in H.
      * left. exists post. exact H.
      * right. injection H as _ H. exists pre, post. exact H.
Qed.

Lemma string_includes_false (s needle : string) :
  string_includes s needle = false <-> ~ contains s needle.
Proof.
  rewrite <- string_includes_spec. destruct (string_includes s needle); split;
    congruence.
Qed.

Lemma dq_nonempty (c : ascii) (s : string) : dq (String c s) <> ""%string.
Proof. simpl. discriminate. Qed.

Lemma chains_nonempty :
  chain_external_event <> ""%string /\ chain_author_series <> ""%string /\
  chain_author_self_promotion <> ""%string /\ chain_new_user_discovery <> ""%string.
Proof. repeat split; apply dq_nonempty. Qed.

Section Chain.

Context {RT : Runtime}.

Lemma mechanism_label_or_else (c : value) (label : string) :
  mechanism_label c = Some label ->
  exists m, get_prop c "mechanism" = Ok m /\ or_else m (Str "") = Str label.
Proof.
  destruct c as [| | | | |items|props]; simpl; try discriminate.
  destruct (lookup "mechanism" props) as [v|] eqn:Hl; intros H.
  - exists v. split; [reflexivity|]. unfold or_else.
    destruct v as [| |b|n|t|items|ps]; simpl in *; try discriminate;
      try (injection H as <-; reflexivity).
    + destruct b; [discriminate | injection H as <-; reflexivity].
    + destruct n as [|m e]; [injection H as <-; reflexivity|].
      destruct (rounds_to_zero (Dec m e)); simpl in *;
        [injection H as <-; reflexivity | discriminate].
    + injection H as <-. destruct t; reflexivity.
  - injection H as <-. exists Undefined. split; reflexivity.
Qed.

(** C10.  For a case whose mechanism label is a string, or is missing,
    [renderMechanismChain] returns a template, and the template is
    non-empty exactly when the label contains both 'External Event' and
    'Contextual Discovery', or contains 'Author Series Continuation'
    without 'Possible', or contains 'Author Self-Promotion', or is exactly
    'New User Discovery'; for every other label it returns the empty
    string. *)
Theorem chain_only_for_matching_labels (c : value) (label : string) :
  mechanism_label c = Some label ->
  exists html,
    renderMechanismChain c = Ok html /\
    (html <> ""%string <-> chain_pattern label) /\
    (~ chain_pattern label -> html = ""%string).
Proof.
  intros Hl. destruct (mechanism_label_or_else c label Hl) as [m [Hm Hor]].
  unfold renderMechanismChain. rewrite Hm. simpl. rewrite Hor. simpl.
  destruct chains_nonempty as [N1 [N2 [N3 N4]]].
  unfold chain_pattern.
  destruct (string_includes label "External Event") eqn:E1;
  destruct (string_includes label "Contextual Discovery") eqn:E2;
  destruct (string_includes label "Author Series Continuation") eqn:E3;
  destruct (string_includes label "Possible") eqn:E4;
  destruct (string_includes label "Author Self-Promotion") eqn:E5;
  destruct (label =? "New User Discovery")%string eqn:E6; simpl;
  try rewrite E6;
  repeat match goal with
         | H : string_includes _ _ = true |- _ => apply string_includes_spec in H
         | H : string_includes _ _ = false |- _ => apply string_includes_false in H
         | H : (_ =? _)%string = true |- _ => apply String.eqb_eq in H
         | H : (_ =? _)%string = false |- _ => apply String.eqb_neq in H
         end;
  eexists; (split; [reflexivity|]);
  (split; [split; [intros _; tauto | intros _; assumption] | tauto])
  || (split; [split; [congruence | tauto] | reflexivity]).
Qed.

End Chain.

(** A case with the label of the first template, and one without a label. *)
Lemma chain_only_for_matching_labels_witness :
  let c := Obj [("rank", Num (Dec 5 0));
                ("mechanism", Str "External Event + Contextual Discovery")] in
  mechanism_label c = Some "External Event + Contextual Discovery"%string /\
  exists html,
    renderMechanismChain c = Ok html /\
    (html <> ""%string <-> chain_pattern "External Event + Contextual Discovery") /\
    (~ chain_pattern "External Event + Contextual Discovery" -> html = ""%string).
Proof.
  split; [reflexivity|].
  apply (chain_only_for_matching_labels
           (Obj [("rank", Num (Dec 5 0));
                 ("mechanism", Str "External Event + Contextual Discovery")])).
  reflexivity.
Defined.

Example chain_missing_label :
  renderMechanismChain (Obj [("rank", Num (Dec 5 0))]) = Ok ""%string.
Proof. reflexivity. Qed.

Example chain_possible_series :
  renderMechanismChain (Obj [("mechanism", Str "Possible Author Series Continuation")])
  = Ok ""%string.
Proof. reflexivity. Qed.

Example chain_new_user :
  renderMechanismChain (Obj [("mechanism", Str "New User Discovery")])
  = Ok chain_new_user_discovery.
Proof. reflexivity. Qed.

Example chain_new_user_longer :
  renderMechanismChain (Obj [("mechanism", Str "New User Discovery (likely)")])
  = Ok ""%string.
Proof. reflexivity. Qed.

(** ** The unlock path, for any runtime *)

Section Unlock.

Context {RT : Runtime}.

Lemma nonempty_truthy (password : string) :
  password <> ""%string -> negb (truthy (Str password)) = false.
Proof. intros H. destruct password; [congruence | reflexivity]. Qed.

Lemma decryptData_throw (encrypted password config : value) (e : exn) :
  decryptData_try encrypted password config = Throw e ->
  decryptData encrypted password config = Null.
Proof. unfold decryptData. now intros ->. Qed.

Lemma truthy_not_null (v : value) : truthy v = true -> v <> Null.
Proof. intros H ->. discriminate. Qed.

Lemma falsy_values (v : value) :
  truthy v = false <->
  v = Undefined \/ v = Null \/ v = Bool false \/ v = Str "" \/
  (exists n, v = Num n /\ (n = NaN \/ rounds_to_zero n = true)).
Proof.
  split.
  - destruct v as [| |b|n|s|items|props]; simpl; intros H; try discriminate; auto.
    + destruct b; [discriminate | auto].
    + do 4 right. exists n. split; [reflexivity|]. destruct n; [now left|].
      right. now apply negb_false_iff.
    + destruct s; [auto | discriminate].
  - intros [->|[->|[->|[->|[n [-> [->|H]]]]]]]; try reflexivity.
    simpl. destruct n; [reflexivity | now rewrite H].
Qed.

Ltac unfold_async :=
  unfold run, submitPassword, initializeApp, loadLateAwakeningData,
    call_decryptData, emit_all, fetch, dom, console_error, console_log, emit,
    set_casesData, set_metadata,
    set_lateAwakeningData, set_lateAwakeningCases, set_storedPassword,
    set_error, show_app, not_awaited, try_catch, mbind, modify, get, ret.

(** Follow an async function through every outcome of its fetches,
    rendering routines and truthiness tests. *)
Ltac crunch W :=
  repeat (simpl;
    match goal with
    | H : fetch_json W ?u = _ |- context [fetch_json W ?u] => rewrite H
    | H : truthy ?v = _ |- context [truthy ?v] => rewrite H
    | |- context [fetch_json W ?u] => destruct (fetch_json W u) eqn:?
    | |- context [dom_throws W ?r] => destruct (dom_throws W r) eqn:?
    | |- context [truthy (decryptData ?e ?p ?c)] =>
      destruct (truthy (decryptData e p c)) eqn:?
    | |- context [decryptData_log ?e ?p ?c] => unfold decryptData_log
    | H : decryptData_try ?e ?p ?c = _ |- context [decryptData_try ?e ?p ?c] =>
      rewrite H
    | |- context [decryptData_try ?e ?p ?c] =>
      destruct (decryptData_try e p c) eqn:?
    end);
  simpl.

(** What a successful attempt leaves in the fields that the start-up of
    the application does not write. *)
Lemma submit_accepted (W : World) (s : State) (password : string)
      (config encrypted m : value) :
  password <> ""%string ->
  fetch_json W url_config = Ok config ->
  fetch_json W url_cases = Ok encrypted ->
  truthy (decryptData encrypted (Str password) config) = true ->
  fetch_json W url_metadata = Ok m ->
  let s' := run (submitPassword W password) s in
  casesData s' = decryptData encrypted (Str password) config /\
  storedPassword s' = Str password /\
  metadata s' = m /\
  password_error s' = msg_decrypting /\
  modal_hidden s' = true /\ app_hidden s' = false.
Proof.
  intros Hp Hc He Ht Hm. destruct password as [|a password]; [congruence|].
  unfold_async. crunch W; repeat split; reflexivity.
Qed.

Lemma same_session_refl (s : State) : same_session s s.
Proof. repeat split. Qed.

(** What a rejected attempt leaves. *)
Lemma submit_rejected (W : World) (s : State) (password : string)
      (config encrypted : value) :
  password <> ""%string ->
  fetch_json W url_config = Ok config ->
  fetch_json W url_cases = Ok encrypted ->
  truthy (decryptData encrypted (Str password) config) = false ->
  let s' := run (submitPassword W password) s in
  same_session s' (rejected s).
Proof.
  intros Hp Hc He Ht. destruct password as [|a password]; [congruence|].
  unfold rejected. unfold_async. crunch W; repeat split.
Qed.

(** C3.  In a submit attempt, a failure to fetch the config, the bundle
    or (after a successful decryption) the metadata is reported as
    'Error loading data. Please check the console.'; and whatever is
    thrown inside [decryptData], a decrypt, decode or parse failure alike,
    ends in one and the same state, with the message 'Incorrect password.
    Please try again.' and nothing else changed. *)
Theorem error_taxonomy (W : World) (s : State) (password : string) :
  password <> ""%string ->
  let s' := run (submitPassword W password) s in
  (forall e, fetch_json W url_config = Throw e -> password_error s' = msg_loading) /\
  (forall config e,
      fetch_json W url_config = Ok config ->
      fetch_json W url_cases = Throw e ->
      password_error s' = msg_loading) /\
  (forall config encrypted e,
      fetch_json W url_config = Ok config ->
      fetch_json W url_cases = Ok encrypted ->
      truthy (decryptData encrypted (Str password) config) = true ->
      fetch_json W url_metadata = Throw e ->
      password_error s' = msg_loading) /\
  (forall config encrypted e,
      fetch_json W url_config = Ok config ->
      fetch_json W url_cases = Ok encrypted ->
      decryptData_try encrypted (Str password) config = Throw e ->
      password_error s' = msg_incorrect /\ same_session s' (rejected s)).
Proof.
  intros Hp s'. split; [|split; [|split]].
  - intros e Hc. subst s'. unfold_async.
    destruct password as [|a password]; [congruence|]. crunch W. reflexivity.
  - intros config e Hc He. subst s'. unfold_async.
    destruct password as [|a password]; [congruence|]. crunch W. reflexivity.
  - intros config encrypted e Hc He Ht Hm. subst s'. unfold_async.
    destruct password as [|a password]; [congruence|]. crunch W. reflexivity.
  - intros config encrypted e Hc He Ht.
    assert (Hf : truthy (decryptData encrypted (Str password) config) = false)
      by now rewrite (decryptData_throw _ _ _ _ Ht).
    pose proof (submit_rejected W s password config encrypted Hp Hc He Hf) as Hs.
    split; [apply Hs | exact Hs].
Qed.

(** C9.  When decryption and UTF-8 decoding succeed and the plaintext
    parses to a falsy value, [submitPassword] shows 'Incorrect password.
    Please try again.' and leaves [casesData], [storedPassword] and every
    other global as they were: the state is the one a failed decryption
    leaves. *)
Theorem falsy_plaintext_rejected (W : World) (s : State) (password text : string)
        (config encrypted v : value) :
  password <> ""%string ->
  fetch_json W url_config = Ok config ->
  fetch_json W url_cases = Ok encrypted ->
  decrypt_to_string encrypted (Str password) config = Ok text ->
  JSON_parse text = Ok v ->
  truthy v = false ->
  let s' := run (submitPassword W password) s in
  password_error s' = msg_incorrect /\
  casesData s' = casesData s /\
  storedPassword s' = storedPassword s /\
  same_session s' (rejected s).
Proof.
  intros Hp Hc He Hd Hj Hv.
  assert (Hr : decryptData encrypted (Str password) config = v).
  { unfold decryptData, decryptData_try. rewrite Hd. simpl. now rewrite Hj. }
  assert (Hf : truthy (decryptData encrypted (Str password) config) = false)
    by now rewrite Hr.
  pose proof (submit_rejected W s password config encrypted Hp Hc He Hf) as Hs.
  simpl. repeat split; try apply Hs.
Qed.

(** An accepted attempt assigns the data and the password, whatever the
    metadata fetch does afterwards. *)
Lemma submit_assigns (W : World) (s : State) (password : string)
      (config encrypted : value) :
  password <> ""%string ->
  fetch_json W url_config = Ok config ->
  fetch_json W url_cases = Ok encrypted ->
  truthy (decryptData encrypted (Str password) config) = true ->
  let s' := run (submitPassword W password) s in
  casesData s' = decryptData encrypted (Str password) config /\
  storedPassword s' = Str password /\
  password_error s' <> msg_incorrect.
Proof.
  intros Hp Hc He Ht. destruct password as [|a password]; [congruence|].
  unfold_async. crunch W; (split; [reflexivity | split; [reflexivity | discriminate]]).
Qed.

(** C1, as the code has it.  An attempt is rejected exactly when
    [decryptData] returns null or another falsy value, which is what
    happens whenever a decode or JSON-parse error occurs: the message is
    'Incorrect password. Please try again.' and [casesData],
    [storedPassword] and the modal are untouched.  Nothing else is checked:
    an attempt whose decrypted bytes parse to a truthy value is accepted,
    whatever the password. *)
Theorem accepted_iff_truthy (W : World) (s : State) (password : string)
        (config encrypted : value) :
  password <> ""%string ->
  fetch_json W url_config = Ok config ->
  fetch_json W url_cases = Ok encrypted ->
  let s' := run (submitPassword W password) s in
  let d := decryptData encrypted (Str password) config in
  (forall e, decryptData_try encrypted (Str password) config = Throw e -> d = Null) /\
  (truthy d = false -> same_session s' (rejected s)) /\
  (truthy d = true -> casesData s' = d /\ storedPassword s' = Str password) /\
  (truthy d = true -> forall m, fetch_json W url_metadata = Ok m ->
                                modal_hidden s' = true /\ app_hidden s' = false).
Proof.
  intros Hp Hc He s' d. split; [|split; [|split]].
  - intros e Ht. exact (decryptData_throw _ _ _ _ Ht).
  - intros Ht. exact (submit_rejected W s password config encrypted Hp Hc He Ht).
  - intros Ht.
    destruct (submit_assigns W s password config encrypted Hp Hc He Ht) as (A1 & A2 & _).
    split; assumption.
  - intros Ht m Hm.
    destruct (submit_accepted W s password config encrypted m Hp Hc He Ht Hm)
      as (_ & _ & _ & _ & H1 & H2).
    split; assumption.
Qed.

Lemma options_throw (encrypted password config : value) (e : exn) :
  pbkdf2_options config = Throw e ->
  exists e', decryptData_try encrypted password config = Throw e'.
Proof.
  intros H. unfold decryptData_try, decrypt_to_string, derive_key. rewrite H.
  destruct (get_prop encrypted "ciphertext") as [c|]; simpl; eauto.
  destruct (Base64_parse c); simpl; eauto.
  destruct (get_prop encrypted "iv") as [i|]; simpl; eauto.
  destruct (Base64_parse i); simpl; eauto.
  destruct (get_prop encrypted "salt") as [t|]; simpl; eauto.
  destruct (Base64_parse t); simpl; eauto.
Qed.

(** C6, as the code has it.  A config with a missing field is no error
    for the key derivation: the missing value is handed on as [undefined],
    or as [NaN] after the division.  Whatever does fail while the options
    are read or the key is derived is caught inside [decryptData] and ends
    in the state of a wrong password, with the message 'Incorrect password.
    Please try again.'; once config and bundle are fetched, the message
    'Error loading data' can only come from the metadata fetch after an
    accepted decryption. *)
Theorem malformed_config_not_distinguished (W : World) (s : State)
        (password : string) (config encrypted : value) :
  password <> ""%string ->
  fetch_json W url_config = Ok config ->
  fetch_json W url_cases = Ok encrypted ->
  let s' := run (submitPassword W password) s in
  (forall props, config = Obj props ->
     pbkdf2_options config =
     Ok {| keySize := div32 (ToNumber (match lookup "keySize" props with
                                       | Some v => v
                                       | None => Undefined
                                       end));
           iterations := match lookup "iterations" props with
                         | Some v => v
                         | None => Undefined
                         end;
           hasher := algo_SHA256 |}) /\
  (forall e, pbkdf2_options config = Throw e ->
             password_error s' = msg_incorrect /\ same_session s' (rejected s)) /\
  (forall e, decryptData_try encrypted (Str password) config = Throw e ->
             password_error s' = msg_incorrect /\ same_session s' (rejected s)) /\
  (password_error s' = msg_loading ->
   truthy (decryptData encrypted (Str password) config) = true /\
   exists e, fetch_json W url_metadata = Throw e).
Proof.
  intros Hp Hc He s'.
  assert (Hthrow : forall e, decryptData_try encrypted (Str password) config = Throw e ->
                             password_error s' = msg_incorrect /\ same_session s' (rejected s)).
  { intros e Ht.
    assert (Hf : truthy (decryptData encrypted (Str password) config) = false)
      by now rewrite (decryptData_throw _ _ _ _ Ht).
    pose proof (submit_rejected W s password config encrypted Hp Hc He Hf) as Hs.
    split; [apply Hs | exact Hs]. }
  split; [|split; [|split]].
  - intros props ->. reflexivity.
  - intros e Ho. destruct (options_throw encrypted (Str password) config e Ho) as [e' Ht].
    exact (Hthrow e' Ht).
  - exact Hthrow.
  - destruct (truthy (decryptData encrypted (Str password) config)) eqn:Ht.
    + destruct (fetch_json W url_metadata) as [m|e] eqn:Hm.
      * destruct (submit_accepted W s password config encrypted m Hp Hc He Ht Hm)
          as (_ & _ & _ & Hmsg & _).
        fold s' in Hmsg. rewrite Hmsg. discriminate.
      * intros _. split; [reflexivity | now exists e].
    + pose proof (submit_rejected W s password config encrypted Hp Hc He Ht) as Hs.
      destruct Hs as (_ & _ & _ & _ & _ & Hmsg & _). fold s' in Hmsg.
      rewrite Hmsg. discriminate.
Qed.

(** C2, as the code has it.  The key derivation reads the key size and
    the iteration count from the config and nothing else: the hash
    algorithm handed to PBKDF2 is always SHA-256, and two configs that
    agree on [keySize] and [iterations] derive the same key and decrypt
    alike, whatever their [hasher] fields say. *)
Theorem key_derivation_ignores_hasher (config config' : value) :
  get_prop config "keySize" = get_prop config' "keySize" ->
  get_prop config "iterations" = get_prop config' "iterations" ->
  (forall opts, pbkdf2_options config = Ok opts -> hasher opts = algo_SHA256) /\
  pbkdf2_options config = pbkdf2_options config' /\
  (forall password salt,
      derive_key password salt config = derive_key password salt config') /\
  (forall encrypted password,
      decryptData encrypted password config = decryptData encrypted password config').
Proof.
  intros Hk Hi.
  assert (Ho : pbkdf2_options config = pbkdf2_options config').
  { unfold pbkdf2_options. now rewrite Hk, Hi. }
  split; [|split; [|split]].
  - unfold pbkdf2_options. intros opts.
    destruct (get_prop config "keySize"); simpl; [|discriminate].
    destruct (get_prop config "iterations"); simpl; [|discriminate].
    intros H; injection H as <-. reflexivity.
  - exact Ho.
  - intros password salt. unfold derive_key. now rewrite Ho.
  - intros encrypted password.
    unfold decryptData, decryptData_try, decrypt_to_string, derive_key.
    now rewrite Ho.
Qed.

(** *** What an attempt adds to the trace *)

Lemma skipn_app_exact {A : Type} (l new : list A) : skipn (length l) (l ++ new) = new.
Proof. induction l; simpl; auto. Qed.

Lemma events_since_app (s s' : State) (new : list Event) :
  trace s' = trace s ++ new -> events_since s s' = new.
Proof. unfold events_since. intros ->. apply skipn_app_exact. Qed.

Ltac trace_shape :=
  first [ exists []; split; [now rewrite app_nil_r|]
        | eexists; split; [rewrite <- ?app_assoc; reflexivity|] ].

Lemma submit_events (W : World) (s : State) (password : string) :
  exists new,
    trace (run (submitPassword W password) s) = trace s ++ new /\
    decrypts_follow_fetches None None new /\
    fetches_answered W new.
Proof.
  unfold_async. destruct password as [|a password].
  - simpl. trace_shape. split; [exact I | constructor].
  - crunch W; trace_shape;
      (split; [simpl; intuition (auto; congruence)
              | repeat constructor; auto; congruence ]).
Qed.

Lemma follows_spec (hist evs : list Event) :
  decrypts_follow_fetches (nth_error (rev hist) 1) (nth_error (rev hist) 0) evs ->
  forall pre post e p c r,
    evs = pre ++ Decrypted e p c r :: post ->
    exists pre' u,
      hist ++ pre = pre' ++ [Fetched url_config (Ok c); Fetched u (Ok e)] /\
      (u = url_cases \/ u = url_late_cases).
Proof.
  revert hist. induction evs as [|ev evs IH]; intros hist Hf pre post e p c r Heq.
  - destruct pre; discriminate.
  - destruct pre as [|x pre]; simpl in Heq; injection Heq as -> Hrest.
    + destruct Hf as [[H2 H1] _]. rewrite app_nil_r.
      destruct (rev hist) as [|f2 [|f1 tl]] eqn:Hr; simpl in *;
        try (destruct H1; discriminate); try discriminate.
      injection H2 as ->.
      assert (Hh : hist = rev tl ++ [Fetched url_config (Ok c); f2]).
      { rewrite <- (rev_involutive hist), Hr. simpl. now rewrite <- app_assoc. }
      destruct H1 as [H1|H1]; injection H1 as ->; rewrite Hh; eauto.
    + destruct Hf as [_ Hf].
      destruct (IH (hist ++ [x])) with (pre := pre) (post := post)
                                        (e := e) (p := p) (c := c) (r := r)
        as [pre' [u [Hh Hu]]].
      * rewrite rev_app_distr. simpl. exact Hf.
      * exact Hrest.
      * exists pre', u. split; [|exact Hu]. now rewrite <- Hh, <- app_assoc.
Qed.

(** C8.  In a submit attempt every [decryptData] call comes right after
    the fetch of the config and the fetch of the bundle, both of them
    completed, and is given exactly what the two fetches answered. *)
Theorem decrypt_after_both_fetches (W : World) (s : State) (password : string) :
  let s' := run (submitPassword W password) s in
  trace s' = trace s ++ events_since s s' /\
  forall pre post e p c r,
    events_since s s' = pre ++ Decrypted e p c r :: post ->
    exists pre' u,
      pre = pre' ++ [Fetched url_config (Ok c); Fetched u (Ok e)] /\
      (u = url_cases \/ u = url_late_cases) /\
      fetch_json W url_config = Ok c /\
      fetch_json W u = Ok e.
Proof.
  intros s'. destruct (submit_events W s password) as [new [Ht [Hf Ha]]].
  fold s' in Ht. rewrite (events_since_app _ _ _ Ht). split; [exact Ht|].
  intros pre post e p c r Heq.
  destruct (follows_spec [] new Hf pre post e p c r Heq) as [pre' [u [Hh Hu]]].
  simpl in Hh. exists pre', u. split; [exact Hh|]. split; [exact Hu|].
  unfold fetches_answered in Ha. rewrite Forall_forall in Ha.
  assert (Hin : forall ev, In ev (pre' ++ [Fetched url_config (Ok c); Fetched u (Ok e)]) ->
                           In ev new).
  { intros ev Hev. rewrite Heq. apply in_or_app. left. now rewrite Hh. }
  split.
  - symmetry. apply (Ha (Fetched url_config (Ok c))). apply Hin.
    apply in_or_app. right. now left.
  - symmetry. apply (Ha (Fetched u (Ok e))). apply Hin.
    apply in_or_app. right. right. now left.
Qed.

(** *** The stored password *)

Lemma last_verified_app (tr new : list Event) :
  last_verified (tr ++ new) = fold_left verify_step new (last_verified tr).
Proof. unfold last_verified. now rewrite fold_left_app. Qed.

Lemma unverified_stays (tr : list Event) (acc : value) :
  (forall e p c r, In (Decrypted e p c r) tr -> r = Null) ->
  fold_left verify_step tr acc = acc.
Proof.
  revert acc. induction tr as [|ev tr IH]; intros acc H; simpl; [reflexivity|].
  rewrite IH.
  - destruct ev as [| e p c r | |]; simpl; try reflexivity.
    rewrite (H e p c r); [reflexivity | now left].
  - intros e p c r Hin. apply (H e p c r). now right.
Qed.

Ltac use_truthy :=
  repeat match goal with
         | H : truthy _ = _ |- _ => rewrite H
         end.

Lemma submit_keeps_verified (W : World) (s : State) (password : string) :
  exists new,
    trace (run (submitPassword W password) s) = trace s ++ new /\
    storedPassword (run (submitPassword W password) s)
    = fold_left verify_step new (storedPassword s).
Proof.
  unfold_async. destruct password as [|a password].
  - simpl. trace_shape. reflexivity.
  - crunch W; trace_shape; simpl; use_truthy; reflexivity.
Qed.

(** Walk a hypothesis [L = pre ++ x :: y :: post] down a list [L] that is
    known element by element. *)
Ltac probe H pre :=
  repeat (destruct pre as [|? pre]; simpl in H;
          [ try discriminate H | injection H as ? H; subst ]).

Lemma late_call_password (W : World) (s : State) (password : string) :
  let s' := run (submitPassword W password) s in
  forall pre post e p c r,
    events_since s s'
    = pre ++ Fetched url_late_cases (Ok e) :: Decrypted e p c r :: post ->
    p = Str password /\ storedPassword s' = Str password /\
    fold_left verify_step pre (storedPassword s) = Str password.
Proof.
  intros s' pre post e p c r.
  assert (Hn : exists new, trace s' = trace s ++ new /\
    (new = pre ++ Fetched url_late_cases (Ok e) :: Decrypted e p c r :: post ->
     p = Str password /\ storedPassword s' = Str password /\
     fold_left verify_step pre (storedPassword s) = Str password)).
  { subst s'. unfold_async. destruct password as [|a password].
    - simpl. trace_shape. intros H. destruct pre; discriminate.
    - crunch W; trace_shape; intros H;
        unfold url_config, url_cases, url_metadata, url_late_top20,
          url_late_cases in H;
        probe H pre; try (destruct pre; discriminate H);
        inversion H; subst; simpl; use_truthy; auto. }
  destruct Hn as [new [Ht Hn]]. rewrite (events_since_app _ _ _ Ht). exact Hn.
Qed.

(** After an unlock whose start-up draws the page, the late bundle is
    decrypted, and with the password just stored. *)
Lemma late_call_made (W : World) (s : State) (password : string)
      (config encrypted m top late : value) :
  password <> ""%string ->
  fetch_json W url_config = Ok config ->
  fetch_json W url_cases = Ok encrypted ->
  truthy (decryptData encrypted (Str password) config) = true ->
  fetch_json W url_metadata = Ok m ->
  dom_throws W "initializeTabs" = false ->
  dom_throws W "renderOverview" = false ->
  dom_throws W "populateCaseSelector" = false ->
  fetch_json W url_late_top20 = Ok top ->
  fetch_json W url_late_cases = Ok late ->
  let s' := run (submitPassword W password) s in
  storedPassword s' = Str password /\
  exists post,
    events_since s s'
    = [Fetched url_config (Ok config); Fetched url_cases (Ok encrypted);
       Decrypted encrypted (Str password) config
                 (decryptData encrypted (Str password) config);
       Fetched url_metadata (Ok m); Fetched url_late_top20 (Ok top);
       Fetched url_config (Ok config)]
      ++ Fetched url_late_cases (Ok late)
      :: Decrypted late (storedPassword s') config
                   (decryptData late (Str password) config)
      :: post.
Proof.
  intros Hp Hc He Ht Hm D1 D2 D3 Htop Hl s'.
  assert (H : exists new, trace s' = trace s ++ new /\
    storedPassword s' = Str password /\
    exists post,
      new = [Fetched url_config (Ok config); Fetched url_cases (Ok encrypted);
             Decrypted encrypted (Str password) config
                       (decryptData encrypted (Str password) config);
             Fetched url_metadata (Ok m); Fetched url_late_top20 (Ok top);
             Fetched url_config (Ok config)]
            ++ Fetched url_late_cases (Ok late)
            :: Decrypted late (storedPassword s') config
                         (decryptData late (Str password) config)
            :: post).
  { subst s'. unfold_async. destruct password as [|a password]; [congruence|].
    assert (Hok : exists v, decryptData_try encrypted (Str (String a password)) config = Ok v).
    { unfold decryptData in Ht.
      destruct (decryptData_try encrypted (Str (String a password)) config) as [v|e];
        [eauto | discriminate]. }
    destruct Hok as [v Hv].
    unfold decryptData_log.
    simpl. rewrite Hc. simpl. rewrite He. simpl. rewrite Hv. simpl. rewrite Ht. simpl.
    rewrite Hm. simpl. rewrite D1. simpl. rewrite D2. simpl. rewrite D3. simpl.
    rewrite Htop. simpl. rewrite Hl. simpl.
    crunch W; trace_shape; (split; [reflexivity|]); eexists; reflexivity. }
  destruct H as [new [Htr [Hs Hn]]]. rewrite (events_since_app _ _ _ Htr). split; assumption.
Qed.

(** C7.  In every reachable state [storedPassword] is the password of the
    latest [decryptData] call that returned a truthy value, and null when
    there was none; in particular it is null as long as every call
    returned null.  A call on the late-awakening bundle is given that
    stored, verified password, and such a call is made: after an unlock
    whose start-up draws the page and whose late files arrive, the trace
    holds the request for the late bundle followed by the [decryptData]
    call on it with the password just stored. *)
Theorem stored_password_is_verified (s : State) :
  reachable s ->
  storedPassword s = last_verified (trace s) /\
  ((forall e p c r, In (Decrypted e p c r) (trace s) -> r = Null) ->
   storedPassword s = Null) /\
  (forall W password pre post e p c r,
      let s' := run (submitPassword W password) s in
      events_since s s'
      = pre ++ Fetched url_late_cases (Ok e) :: Decrypted e p c r :: post ->
      p = storedPassword s' /\ p = last_verified (trace s ++ pre) /\
      p = Str password) /\
  (forall W password config encrypted m top late,
      password <> ""%string ->
      fetch_json W url_config = Ok config ->
      fetch_json W url_cases = Ok encrypted ->
      truthy (decryptData encrypted (Str password) config) = true ->
      fetch_json W url_metadata = Ok m ->
      dom_throws W "initializeTabs" = false ->
      dom_throws W "renderOverview" = false ->
      dom_throws W "populateCaseSelector" = false ->
      fetch_json W url_late_top20 = Ok top ->
      fetch_json W url_late_cases = Ok late ->
      let s' := run (submitPassword W password) s in
      storedPassword s' = Str password /\
      exists post,
        events_since s s'
        = [Fetched url_config (Ok config); Fetched url_cases (Ok encrypted);
           Decrypted encrypted (Str password) config
                     (decryptData encrypted (Str password) config);
           Fetched url_metadata (Ok m); Fetched url_late_top20 (Ok top);
           Fetched url_config (Ok config)]
          ++ Fetched url_late_cases (Ok late)
          :: Decrypted late (storedPassword s') config
                       (decryptData late (Str password) config)
          :: post).
Proof.
  intros Hr.
  assert (Hinv : storedPassword s = last_verified (trace s)).
  { induction Hr as [|s s' Hr IH Hstep]; [reflexivity|].
    destruct Hstep as [W password s].
    destruct (submit_keeps_verified W s password) as [new [Ht Hs]].
    rewrite Ht, last_verified_app, <- IH. exact Hs. }
  split; [exact Hinv|]. split; [|split].
  - intros Hall. rewrite Hinv. unfold last_verified.
    exact (unverified_stays (trace s) Null Hall).
  - intros W password pre post e p c r s' Heq.
    destruct (late_call_password W s password pre post e p c r Heq)
      as (Hp & Hs & Hf).
    fold s' in Hs. rewrite last_verified_app, <- Hinv, Hf, Hs. auto.
  - intros W password config encrypted m top late Hp Hc He Ht Hm D1 D2 D3 Htop Hl.
    exact (late_call_made W s password config encrypted m top late
             Hp Hc He Ht Hm D1 D2 D3 Htop Hl).
Qed.

(** *** Repeated runs *)

Lemma first_decrypt (W : World) (s : State) (password : string)
      (config encrypted : value) :
  password <> ""%string ->
  fetch_json W url_config = Ok config ->
  fetch_json W url_cases = Ok encrypted ->
  find is_decrypted (events_since s (run (submitPassword W password) s))
  = Some (Decrypted encrypted (Str password) config
            (decryptData encrypted (Str password) config)).
Proof.
  intros Hp Hc He.
  assert (Hn : exists new,
             trace (run (submitPassword W password) s) = trace s ++ new /\
             find is_decrypted new
             = Some (Decrypted encrypted (Str password) config
                       (decryptData encrypted (Str password) config))).
  { destruct password as [|a password]; [congruence|].
    unfold_async. crunch W; trace_shape; reflexivity. }
  destruct Hn as [new [Ht Hn]]. now rewrite (events_since_app _ _ _ Ht).
Qed.

(** *** The requests of an unlock, and failures after it *)

Ltac pick_prefix :=
  first [ exists 0%nat; reflexivity | exists 1%nat; reflexivity | exists 2%nat; reflexivity
        | exists 3%nat; reflexivity | exists 4%nat; reflexivity | exists 5%nat; reflexivity
        | exists 6%nat; reflexivity ].

(** X1. One attempt makes its requests in one fixed order: the URLs it
    fetches are a beginning of [request_order] (the parameters, the cases,
    the metadata, then the three requests of [loadLateAwakeningData]).
    With an empty password nothing is fetched or logged at all, and the
    metadata and the two late files are requested only in a run that has
    stored the password and has truthy decrypted cases. *)
Theorem requests_in_order (W : World) (s : State) (password : string) :
  let s' := run (submitPassword W password) s in
  let urls := fetched (events_since s s') in
  (password = ""%string -> events_since s s' = []) /\
  (exists n, urls = firstn n request_order) /\
  (forall u, In u urls ->
     u = url_metadata \/ u = url_late_top20 \/ u = url_late_cases ->
     storedPassword s' = Str password /\ truthy (casesData s') = true).
Proof.
  intros s' urls.
  assert (H : exists new, trace s' = trace s ++ new /\
    (password = ""%string -> new = []) /\
    (exists n, fetched new = firstn n request_order) /\
    (forall u, In u (fetched new) ->
       u = url_metadata \/ u = url_late_top20 \/ u = url_late_cases ->
       storedPassword s' = Str password /\ truthy (casesData s') = true)).
  { subst s' urls. unfold_async. destruct password as [|a password].
    - simpl. trace_shape. split; [reflexivity|]. split; [exists 0%nat; reflexivity|].
      intros u [].
    - crunch W; trace_shape;
        (split; [discriminate|]); (split; [pick_prefix|]);
        intros u Hin Hu; simpl in Hin;
        try (split; [reflexivity | assumption]);
        unfold url_config, url_cases, url_metadata, url_late_top20, url_late_cases in *;
        intuition (subst; try discriminate). }
  destruct H as [new [Ht [H0 [H1 H2]]]].
  subst urls. rewrite (events_since_app _ _ _ Ht). auto.
Qed.

(** A start-up that throws in one of its first three calls ends there:
    its promise is rejected with the TypeError and the state is as it was. *)
Lemma initializeApp_rejects (W : World) (s : State) :
  dom_throws W "initializeTabs" = true \/ dom_throws W "renderOverview" = true \/
  dom_throws W "populateCaseSelector" = true ->
  initializeApp W s = (Throw TypeError, s).
Proof.
  intros Hd. unfold initializeApp, dom, mbind.
  destruct (dom_throws W "initializeTabs"); [reflexivity|].
  destruct (dom_throws W "renderOverview"); [reflexivity|].
  destruct (dom_throws W "populateCaseSelector"); [reflexivity|].
  destruct Hd as [Hd|[Hd|Hd]]; discriminate.
Qed.

(** X2. When the password is right and the metadata arrives, but one of
    the three rendering calls at the start of [initializeApp] throws, the
    promise of [initializeApp] is rejected with that TypeError and
    [app.js] has no handler for it: the call is not awaited, so the
    [catch] of [submitPassword] does not run and its own promise is
    fulfilled.  The modal is hidden and the application shown, the message
    under the password field still reads [Decrypting...], [app.js] makes
    no call of [console.error] or [console.log], and
    [loadLateAwakeningData] is never started, so the late data stays as it
    was and the run makes exactly three requests.  What the browser does
    with a rejection that nobody handles is not part of the program. *)
Theorem startup_failure_is_unhandled (W : World) (s : State) (password : string)
        (config encrypted m : value) :
  password <> ""%string ->
  fetch_json W url_config = Ok config ->
  fetch_json W url_cases = Ok encrypted ->
  truthy (decryptData encrypted (Str password) config) = true ->
  fetch_json W url_metadata = Ok m ->
  dom_throws W "initializeTabs" = true \/ dom_throws W "renderOverview" = true \/
  dom_throws W "populateCaseSelector" = true ->
  let r := submitPassword W password s in
  let s' := snd r in
  (forall s1, initializeApp W s1 = (Throw TypeError, s1)) /\
  fst r = Ok tt /\
  modal_hidden s' = true /\ app_hidden s' = false /\
  password_error s' = msg_decrypting /\
  lateAwakeningData s' = lateAwakeningData s /\
  lateAwakeningCases s' = lateAwakeningCases s /\
  events_since s s' =
    [Fetched url_config (Ok config); Fetched url_cases (Ok encrypted);
     Decrypted encrypted (Str password) config
               (decryptData encrypted (Str password) config);
     Fetched url_metadata (Ok m)].
Proof.
  intros Hp Hc He Ht Hm Hd r s'.
  split; [intros s1; exact (initializeApp_rejects W s1 Hd)|].
  assert (Hok : exists v, decryptData_try encrypted (Str password) config = Ok v).
  { unfold decryptData in Ht.
    destruct (decryptData_try encrypted (Str password) config) as [v|e]; [eauto|discriminate]. }
  destruct Hok as [v Hv].
  assert (H : exists new, trace s' = trace s ++ new /\
    fst r = Ok tt /\
    modal_hidden s' = true /\ app_hidden s' = false /\
    password_error s' = msg_decrypting /\
    lateAwakeningData s' = lateAwakeningData s /\
    lateAwakeningCases s' = lateAwakeningCases s /\
    new = [Fetched url_config (Ok config); Fetched url_cases (Ok encrypted);
           Decrypted encrypted (Str password) config
                     (decryptData encrypted (Str password) config);
           Fetched url_metadata (Ok m)]).
  { subst s' r. unfold submitPassword.
    destruct password as [|a password]; [congruence|].
    unfold call_decryptData, decryptData_log, emit_all, fetch, console_error, console_log,
      emit, set_casesData, set_metadata, set_storedPassword, set_error, show_app,
      not_awaited, try_catch, mbind, modify, get, ret.
    simpl. rewrite Hc. simpl. rewrite He. simpl. rewrite Hv. simpl. rewrite Ht. simpl.
    rewrite Hm. simpl. rewrite (initializeApp_rejects W _ Hd). simpl.
    trace_shape. repeat (split; [reflexivity|]). reflexivity. }
  destruct H as [new [Htr H]]. rewrite (events_since_app _ _ _ Htr). tauto.
Qed.

(** X3. [loadLateAwakeningData] keeps its failures to itself: whatever the
    three requests answer and whether or not the two rendering calls
    throw, its promise is fulfilled, and the cases, the metadata, the
    stored password and the unlock screen are as before.  The late cases
    change only to a truthy result of [decryptData] under the stored
    password, and the late table data only to what the first request
    answered. *)
Theorem late_data_failures_stay_inside (W : World) (s : State) :
  let r := loadLateAwakeningData W s in
  let s' := snd r in
  fst r = Ok tt /\
  casesData s' = casesData s /\ metadata s' = metadata s /\
  storedPassword s' = storedPassword s /\
  password_error s' = password_error s /\
  modal_hidden s' = modal_hidden s /\ app_hidden s' = app_hidden s /\
  (lateAwakeningCases s' = lateAwakeningCases s \/
   exists config encrypted,
     fetch_json W url_config = Ok config /\
     fetch_json W url_late_cases = Ok encrypted /\
     truthy (decryptData encrypted (storedPassword s) config) = true /\
     lateAwakeningCases s' = decryptData encrypted (storedPassword s) config) /\
  (lateAwakeningData s' = lateAwakeningData s \/
   fetch_json W url_late_top20 = Ok (lateAwakeningData s')).
Proof.
  unfold_async. crunch W; repeat (split; [reflexivity|]); split; eauto 10.
Qed.

End Unlock.

(** ** The unlock path in the browser *)

Module Runs.

Import CryptoJS Scenario.

Lemma config_is_reference : config = Reference.config 256 2.
Proof. reflexivity. Qed.

Lemma envelope_is_reference :
  envelope = Reference.encrypt plaintext "ASTHMAPOSTS" salt iv 256 2.
Proof. vm_compute. reflexivity. Qed.

Lemma envelope_1_is_reference :
  envelope_1 = Reference.encrypt plaintext "ASTHMAPOSTS" salt iv 256 1.
Proof. vm_compute. reflexivity. Qed.

Lemma envelope_zero_is_reference :
  envelope_zero = Reference.encrypt "0" "ASTHMAPOSTS" salt iv 256 2.
Proof. vm_compute. reflexivity. Qed.

(** Section 8 of the specification, with two iterations. *)
Lemma decrypt_right_password :
  decryptData envelope (Str "ASTHMAPOSTS") config = records.
Proof. vm_compute. reflexivity. Qed.

Lemma decrypt_wrong_password_fails :
  decryptData_try envelope (Str "ASTHMAPOSTs") config = Throw SyntaxError.
Proof. vm_compute. reflexivity. Qed.

Lemma decrypt_wrong_password_parses :
  decrypt_to_string envelope (Str "ASTHMA88") config = Ok "6"%string /\
  decryptData envelope (Str "ASTHMA88") config = Num (Dec 6 0).
Proof. split; vm_compute; reflexivity. Qed.

Lemma decrypt_zero :
  decrypt_to_string envelope_zero (Str "ASTHMAPOSTS") config = Ok "0"%string.
Proof. vm_compute. reflexivity. Qed.

Lemma decrypt_without_iterations :
  decryptData envelope (Str "ASTHMAPOSTS") config_no_iterations = Null /\
  decryptData envelope_1 (Str "ASTHMAPOSTS") config_no_iterations = records.
Proof. split; vm_compute; reflexivity. Qed.

Lemma decrypt_with_sha1_named :
  decryptData envelope (Str "ASTHMAPOSTS") config_sha1 = records.
Proof. vm_compute. reflexivity. Qed.

Lemma not_empty (a : ascii) (s : string) : String a s <> ""%string.
Proof. discriminate. Qed.

(** *** The general statements at work *)

Lemma error_taxonomy_witness :
  "ASTHMAPOSTs"%string <> ""%string /\
  password_error (run (submitPassword (site []) "ASTHMAPOSTs") initial)
  = msg_loading /\
  password_error (run (submitPassword (site [(url_config, config)]) "ASTHMAPOSTs") initial)
  = msg_loading /\
  password_error
    (run (submitPassword (site [(url_config, config); (url_cases, envelope)])
                         "ASTHMAPOSTS") initial)
  = msg_loading /\
  password_error (run (submitPassword world "ASTHMAPOSTs") initial) = msg_incorrect /\
  same_session (run (submitPassword world "ASTHMAPOSTs") initial) (rejected initial).
Proof.
  split; [apply not_empty|]. split; [|split; [|split]].
  - apply (proj1 (error_taxonomy (site []) initial "ASTHMAPOSTs" (not_empty _ _))
                 NetworkError).
    reflexivity.
  - apply (proj1 (proj2 (error_taxonomy (site [(url_config, config)]) initial
                                        "ASTHMAPOSTs" (not_empty _ _)))
                 config NetworkError); reflexivity.
  - apply (proj1 (proj2 (proj2
             (error_taxonomy (site [(url_config, config); (url_cases, envelope)])
                             initial "ASTHMAPOSTS" (not_empty _ _))))
                 config envelope NetworkError);
      [reflexivity | reflexivity | vm_compute; reflexivity | reflexivity].
  - apply (proj2 (proj2 (proj2 (error_taxonomy world initial "ASTHMAPOSTs"
                                               (not_empty _ _))))
                 config envelope SyntaxError);
      [reflexivity | reflexivity | vm_compute; reflexivity].
Defined.

Lemma falsy_plaintext_rejected_witness :
  let W := site (files config envelope_zero) in
  let s' := run (submitPassword W "ASTHMAPOSTS") initial in
  decrypt_to_string envelope_zero (Str "ASTHMAPOSTS") config = Ok "0"%string /\
  JSON_parse "0" = Ok (Num (Dec 0 0)) /\
  truthy (Num (Dec 0 0)) = false /\
  password_error s' = msg_incorrect /\
  casesData s' = casesData initial /\
  storedPassword s' = storedPassword initial /\
  same_session s' (rejected initial).
Proof.
  split; [vm_compute; reflexivity|]. split; [reflexivity|]. split; [reflexivity|].
  apply (falsy_plaintext_rejected (site (files config envelope_zero)) initial
           "ASTHMAPOSTS" "0" config envelope_zero (Num (Dec 0 0)));
    [apply not_empty | reflexivity | reflexivity | vm_compute; reflexivity
     | reflexivity | reflexivity].
Defined.

(** C1 fails for the bundle of section 8.  It is a bundle for the
    password ASTHMAPOSTS, under which it decrypts to the records; under
    the password ASTHMA88 its bytes decrypt to the text [6], which parses:
    the attempt is accepted, [casesData] and [storedPassword] are assigned
    and the application is shown. *)
Lemma wrong_password_accepted :
  let s' := run (submitPassword world "ASTHMA88") initial in
  fetch_json world url_config = Ok config /\
  fetch_json world url_cases = Ok envelope /\
  decryptData envelope (Str "ASTHMAPOSTS") config = records /\
  "ASTHMA88"%string <> "ASTHMAPOSTS"%string /\
  decryptData envelope (Str "ASTHMA88") config = Num (Dec 6 0) /\
  decryptData envelope (Str "ASTHMA88") config <> Null /\
  casesData s' = Num (Dec 6 0) /\
  storedPassword s' = Str "ASTHMA88" /\
  modal_hidden s' = true /\ app_hidden s' = false.
Proof.
  split; [reflexivity|]. split; [reflexivity|].
  split; [exact decrypt_right_password|].
  split; [discriminate|].
  split; [exact (proj2 decrypt_wrong_password_parses)|].
  split; [rewrite (proj2 decrypt_wrong_password_parses); discriminate|].
  vm_compute. repeat split.
Qed.

Lemma accepted_iff_truthy_witness :
  let s' := run (submitPassword world "ASTHMAPOSTs") initial in
  let d := decryptData envelope (Str "ASTHMAPOSTs") config in
  "ASTHMAPOSTs"%string <> ""%string /\
  fetch_json world url_config = Ok config /\
  fetch_json world url_cases = Ok envelope /\
  d = Null /\ same_session s' (rejected initial).
Proof.
  split; [apply not_empty|]. split; [reflexivity|]. split; [reflexivity|].
  pose proof (accepted_iff_truthy world initial "ASTHMAPOSTs" config envelope
                (not_empty _ _) eq_refl eq_refl) as (H1 & H2 & _).
  split.
  - apply (H1 SyntaxError). vm_compute. reflexivity.
  - apply H2. vm_compute. reflexivity.
Defined.

(** C6 fails for a config without [iterations]: the key derivation does
    not fail, it runs a single iteration.  On the bundle of section 8 the
    attempt ends in the very state of a wrong password; on the same
    bundle made with one iteration it is accepted without any error. *)
Lemma missing_iterations_no_configuration_error :
  let W := site (files config_no_iterations envelope) in
  let W1 := site (files config_no_iterations envelope_1) in
  get_prop config_no_iterations "iterations" = Ok Undefined /\
  (exists key, derive_key (Str "ASTHMAPOSTS") salt config_no_iterations = Ok key) /\
  password_error (run (submitPassword W "ASTHMAPOSTS") initial) = msg_incorrect /\
  same_session (run (submitPassword W "ASTHMAPOSTS") initial)
               (run (submitPassword world "ASTHMAPOSTs") initial) /\
  casesData (run (submitPassword W1 "ASTHMAPOSTS") initial) = records /\
  storedPassword (run (submitPassword W1 "ASTHMAPOSTS") initial) = Str "ASTHMAPOSTS" /\
  modal_hidden (run (submitPassword W1 "ASTHMAPOSTS") initial) = true.
Proof.
  split; [reflexivity|]. split; [eexists; vm_compute; reflexivity|].
  vm_compute. repeat split.
Qed.

Lemma malformed_config_not_distinguished_witness :
  let W := site (files config_no_iterations envelope) in
  let s' := run (submitPassword W "ASTHMAPOSTS") initial in
  "ASTHMAPOSTS"%string <> ""%string /\
  fetch_json W url_config = Ok config_no_iterations /\
  fetch_json W url_cases = Ok envelope /\
  (exists opts, pbkdf2_options config_no_iterations = Ok opts /\
                iterations opts = Undefined) /\
  password_error s' = msg_incorrect /\ same_session s' (rejected initial).
Proof.
  split; [apply not_empty|]. split; [reflexivity|]. split; [reflexivity|].
  pose proof (malformed_config_not_distinguished
                (site (files config_no_iterations envelope)) initial "ASTHMAPOSTS"
                config_no_iterations envelope (not_empty _ _) eq_refl eq_refl)
    as (H1 & _ & H3 & _).
  split.
  - eexists. split; [apply (H1 _ eq_refl) | reflexivity].
  - apply (H3 SyntaxError). vm_compute. reflexivity.
Defined.

(** C2 fails for a config that names SHA1: the options handed to PBKDF2
    still carry SHA-256, the key is not the one PBKDF2 derives with SHA-1,
    and the bundle of section 8, made with SHA-256, still decrypts. *)
Lemma hasher_field_not_used :
  let code_key := derive_key (Str "ASTHMAPOSTS") salt config_sha1 in
  let sha1_key := PBKDF2 (Str "ASTHMAPOSTS") salt
                         {| keySize := div32 (Dec 256 0);
                            iterations := Num (Dec 2 0);
                            hasher := algo_SHA1 |} in
  spec_hasher config_sha1 = Some algo_SHA1 /\
  (exists opts, pbkdf2_options config_sha1 = Ok opts /\ hasher opts = algo_SHA256) /\
  (exists k1 k2, code_key = Ok k1 /\ sha1_key = Ok k2 /\ k1 <> k2) /\
  decryptData envelope (Str "ASTHMAPOSTS") config_sha1 = records.
Proof.
  split; [reflexivity|]. split; [eexists; split; reflexivity|].
  split; [|exact decrypt_with_sha1_named].
  eexists. eexists. split; [vm_compute; reflexivity|].
  split; [vm_compute; reflexivity|]. discriminate.
Qed.

Lemma key_derivation_ignores_hasher_witness :
  get_prop config_sha1 "keySize" = get_prop config "keySize" /\
  get_prop config_sha1 "iterations" = get_prop config "iterations" /\
  get_prop config_sha1 "hasher" <> get_prop config "hasher" /\
  pbkdf2_options config_sha1 = pbkdf2_options config /\
  (forall encrypted password,
      decryptData encrypted password config_sha1 = decryptData encrypted password config).
Proof.
  split; [reflexivity|]. split; [reflexivity|]. split; [discriminate|].
  pose proof (key_derivation_ignores_hasher config_sha1 config eq_refl eq_refl)
    as (_ & H2 & _ & H4).
  split; [exact H2 | exact H4].
Defined.

Lemma stored_password_is_verified_witness :
  let s := run (submitPassword world "ASTHMAPOSTS") initial in
  reachable s /\
  storedPassword s = last_verified (trace s) /\
  storedPassword s = Str "ASTHMAPOSTS" /\
  exists post,
    events_since initial s
    = [Fetched url_config (Ok config); Fetched url_cases (Ok envelope);
       Decrypted envelope (Str "ASTHMAPOSTS") config
                 (decryptData envelope (Str "ASTHMAPOSTS") config);
       Fetched url_metadata (Ok (Arr [])); Fetched url_late_top20 (Ok (Arr []));
       Fetched url_config (Ok config)]
      ++ Fetched url_late_cases (Ok envelope)
      :: Decrypted envelope (storedPassword s) config
                   (decryptData envelope (Str "ASTHMAPOSTS") config)
      :: post.
Proof.
  assert (R : reachable (run (submitPassword world "ASTHMAPOSTS") initial)).
  { apply (reachable_step initial); constructor. }
  split; [exact R|].
  split; [exact (proj1 (stored_password_is_verified _ R))|].
  apply (proj2 (proj2 (proj2 (stored_password_is_verified initial reachable_initial)))
           world "ASTHMAPOSTS" config envelope (Arr []) (Arr []) envelope);
    [apply not_empty | reflexivity | reflexivity | vm_compute; reflexivity | reflexivity
     | reflexivity | reflexivity | reflexivity | reflexivity | reflexivity].
Defined.

End Runs.

(** ** Round trip with the offline encryptor *)

(** The calls of the browser runtime are the functions of [CryptoJS]. *)
Lemma browser_calls :
  @Base64_parse browser = CryptoJS.Base64_parse /\
  @PBKDF2 browser = CryptoJS.PBKDF2 /\
  @AES_decrypt_CBC_Pkcs7 browser = CryptoJS.AES_decrypt_CBC_Pkcs7 /\
  @Utf8_stringify browser = CryptoJS.Utf8_stringify.
Proof. repeat split. Qed.

Module RoundTrip.

Import CryptoJS.
Local Open Scope N_scope.

(** *** Checks that run through all bytes *)

Lemma in_below (n : nat) (b : N) : b < N.of_nat n -> In b (below n).
Proof.
  intros H. unfold below. apply in_map_iff. exists (N.to_nat b).
  split; [apply N2Nat.id|]. apply in_seq. lia.
Qed.

Lemma forall_below (n : nat) (P : N -> bool) :
  forallb P (below n) = true -> forall b, b < N.of_nat n -> P b = true.
Proof.
  intros H b Hb. rewrite forallb_forall in H. apply H, in_below, Hb.
Qed.

Lemma forall_below2 (n m : nat) (P : N -> N -> bool) :
  forallb (fun a => forallb (P a) (below m)) (below n) = true ->
  forall a b, a < N.of_nat n -> b < N.of_nat m -> P a b = true.
Proof.
  intros H a b Ha Hb.
  apply (forall_below m (P a)); [|exact Hb].
  apply (forall_below n (fun a => forallb (P a) (below m))); assumption.
Qed.

(** *** Base64 *)

Lemma sextet_1 (x a : N) : x < 256 -> a < 16 ->
  N.land (N.lor (N.shiftl (x / 4) 2) (N.shiftr ((x mod 4) * 16 + a) 4)) 255 = x.
Proof.
  intros Hx Ha. apply N.eqb_eq.
  apply (forall_below2 256 16
           (fun x a => N.land (N.lor (N.shiftl (x / 4) 2)
                                     (N.shiftr ((x mod 4) * 16 + a) 4)) 255 =? x));
    [vm_compute; reflexivity | exact Hx | exact Ha].
Qed.

Lemma forall_below3 (n m k : nat) (P : N -> N -> N -> bool) :
  forallb (fun a => forallb (fun b => forallb (P a b) (below k)) (below m)) (below n)
  = true ->
  forall a b c, a < N.of_nat n -> b < N.of_nat m -> c < N.of_nat k -> P a b c = true.
Proof.
  intros H a b c Ha Hb Hc.
  apply (forall_below k (P a b)); [|exact Hc].
  apply (forall_below2 n m (fun a b => forallb (P a b) (below k))); assumption.
Qed.

Lemma sextet_2 (a y c : N) : a < 4 -> y < 256 -> c < 4 ->
  N.land (N.lor (N.shiftl (a * 16 + y / 16) 4) (N.shiftr ((y mod 16) * 4 + c) 2)) 255 = y.
Proof.
  intros Ha Hy Hc. apply N.eqb_eq.
  apply (forall_below3 4 256 4
           (fun a y c =>
              N.land (N.lor (N.shiftl (a * 16 + y / 16) 4)
                            (N.shiftr ((y mod 16) * 4 + c) 2)) 255 =? y));
    [vm_compute; reflexivity | exact Ha | exact Hy | exact Hc].
Qed.

Lemma sextet_3 (a z : N) : a < 16 -> z < 256 ->
  N.land (N.lor (N.shiftl (a * 4 + z / 64) 6) (N.shiftr (z mod 64) 0)) 255 = z.
Proof.
  intros Ha Hz. apply N.eqb_eq.
  apply (forall_below2 16 256
           (fun a z => N.land (N.lor (N.shiftl (a * 4 + z / 64) 6)
                                     (N.shiftr (z mod 64) 0)) 255 =? z));
    [vm_compute; reflexivity | exact Ha | exact Hz].
Qed.

Lemma sextet_char_spec (n : N) : n < 64 ->
  sextet_char n < 128 /\ sextet_char n <> 61 /\ reverse_map (sextet_char n) = n.
Proof.
  intros Hn.
  assert (H : ((sextet_char n <? 128) && negb (sextet_char n =? 61)
               && (reverse_map (sextet_char n) =? n))%bool = true).
  { apply (forall_below 64 (fun n => ((sextet_char n <? 128) && negb (sextet_char n =? 61)
               && (reverse_map (sextet_char n) =? n))%bool)); [vm_compute; reflexivity|exact Hn]. }
  apply andb_true_iff in H. destruct H as [H H3].
  apply andb_true_iff in H. destruct H as [H1 H2].
  split; [now apply N.ltb_lt|]. split; [|now apply N.eqb_eq].
  apply negb_true_iff in H2. now apply N.eqb_neq.
Qed.

Lemma units_cons (c : ascii) (s : string) :
  N_of_ascii c < 128 ->
  code_units (bytes_of_string (String c s))
  = N_of_ascii c :: code_units (bytes_of_string s).
Proof.
  intros H. unfold bytes_of_string. simpl.
  apply N.ltb_lt in H. now rewrite H.
Qed.

Lemma before_padding_cons (c : N) (u : list N) :
  c <> 61 -> before_padding (c :: u) = c :: before_padding u.
Proof. intros H. simpl. apply N.eqb_neq in H. now rewrite H. Qed.

Lemma list_ind3 {A : Type} (P : list A -> Prop) :
  P [] -> (forall x, P [x]) -> (forall x y, P [x; y]) ->
  (forall x y z l, P l -> P (x :: y :: z :: l)) ->
  forall l, P l.
Proof.
  intros H0 H1 H2 H3.
  fix IH 1. intros [|x [|y [|z l]]].
  - exact H0.
  - apply H1.
  - apply H2.
  - apply H3. apply IH.
Qed.

Lemma parse_loop_quad (i prev c1 c2 c3 c4 : N) (u : list N) :
  i mod 4 = 0 ->
  parse_loop i prev (c1 :: c2 :: c3 :: c4 :: u)
  = N.land (N.lor (N.shiftl (reverse_map c1) 2) (N.shiftr (reverse_map c2) 4)) 255
    :: N.land (N.lor (N.shiftl (reverse_map c2) 4) (N.shiftr (reverse_map c3) 2)) 255
    :: N.land (N.lor (N.shiftl (reverse_map c3) 6) (N.shiftr (reverse_map c4) 0)) 255
    :: parse_loop (i + 4) c4 u.
Proof.
  intros Hi.
  assert (H1 : (i + 1) mod 4 = 1) by (rewrite N.Div0.add_mod, Hi; reflexivity).
  assert (H2 : (i + 1 + 1) mod 4 = 2) by (rewrite N.Div0.add_mod, H1; reflexivity).
  assert (H3 : (i + 1 + 1 + 1) mod 4 = 3) by (rewrite N.Div0.add_mod, H2; reflexivity).
  cbn [parse_loop]. rewrite Hi, H1, H2, H3. cbn [N.eqb].
  replace (i + 1 + 1 + 1 + 1) with (i + 4) by lia. reflexivity.
Qed.

Lemma parse_loop_pair (i prev c1 c2 : N) :
  i mod 4 = 0 ->
  parse_loop i prev [c1; c2]
  = [N.land (N.lor (N.shiftl (reverse_map c1) 2) (N.shiftr (reverse_map c2) 4)) 255].
Proof.
  intros Hi.
  assert (H1 : (i + 1) mod 4 = 1) by (rewrite N.Div0.add_mod, Hi; reflexivity).
  cbn [parse_loop]. rewrite Hi, H1. reflexivity.
Qed.

Lemma parse_loop_triple (i prev c1 c2 c3 : N) :
  i mod 4 = 0 ->
  parse_loop i prev [c1; c2; c3]
  = [N.land (N.lor (N.shiftl (reverse_map c1) 2) (N.shiftr (reverse_map c2) 4)) 255;
     N.land (N.lor (N.shiftl (reverse_map c2) 4) (N.shiftr (reverse_map c3) 2)) 255].
Proof.
  intros Hi.
  assert (H1 : (i + 1) mod 4 = 1) by (rewrite N.Div0.add_mod, Hi; reflexivity).
  assert (H2 : (i + 1 + 1) mod 4 = 2) by (rewrite N.Div0.add_mod, H1; reflexivity).
  cbn [parse_loop]. rewrite Hi, H1, H2. reflexivity.
Qed.

Lemma div_bounds (x : N) : x < 256 ->
  x / 4 < 64 /\ x mod 4 < 4 /\ x / 16 < 16 /\ x mod 16 < 16 /\ x / 64 < 4 /\ x mod 64 < 64.
Proof.
  intros H. repeat split; try (apply N.mod_lt; discriminate);
    apply N.Div0.div_lt_upper_bound; lia.
Qed.

Lemma parse_loop_encode (b : bytes) :
  Forall (fun x => x < 256) b ->
  forall i prev, i mod 4 = 0 ->
  parse_loop i prev
    (before_padding (code_units (bytes_of_string (Reference.base64_encode b)))) = b.
Proof.
  induction b as [|x|x y|x y z b IH] using list_ind3; intros Hb i prev Hi.
  - reflexivity.
  - inversion Hb as [|? ? Hx _]; subst.
    destruct (div_bounds x Hx) as (X4 & Xm4 & _).
    cbn [Reference.base64_encode].
    destruct (sextet_char_spec (x / 4)) as (A1 & A2 & A3); [assumption|].
    destruct (sextet_char_spec (x mod 4 * 16)) as (B1 & B2 & B3); [lia|].
    rewrite units_cons by exact A1. rewrite units_cons by exact B1.
    change (code_units (bytes_of_string "==")) with [61; 61].
    rewrite !before_padding_cons by assumption.
    change (before_padding [61; 61]) with (@nil N).
    fold (sextet_char (x / 4)). fold (sextet_char (x mod 4 * 16)).
    rewrite parse_loop_pair by exact Hi. rewrite A3, B3.
    f_equal. replace (x mod 4 * 16) with (x mod 4 * 16 + 0) by lia.
    apply sextet_1; [assumption | lia].
  - inversion Hb as [|? ? Hx Hb']; subst. inversion Hb' as [|? ? Hy _]; subst.
    destruct (div_bounds x Hx) as (X4 & Xm4 & _).
    destruct (div_bounds y Hy) as (_ & _ & Y16 & Ym16 & _).
    cbn [Reference.base64_encode].
    destruct (sextet_char_spec (x / 4)) as (A1 & A2 & A3); [assumption|].
    destruct (sextet_char_spec (x mod 4 * 16 + y / 16)) as (B1 & B2 & B3); [lia|].
    destruct (sextet_char_spec (y mod 16 * 4)) as (C1 & C2 & C3); [lia|].
    rewrite units_cons by exact A1. rewrite units_cons by exact B1.
    rewrite units_cons by exact C1.
    change (code_units (bytes_of_string "=")) with [61].
    rewrite !before_padding_cons by assumption.
    change (before_padding [61]) with (@nil N).
    fold (sextet_char (x / 4)). fold (sextet_char (x mod 4 * 16 + y / 16)).
    fold (sextet_char (y mod 16 * 4)).
    rewrite parse_loop_triple by exact Hi. rewrite A3, B3, C3.
    f_equal; [apply sextet_1; assumption|]. f_equal.
    replace (y mod 16 * 4) with (y mod 16 * 4 + 0) by lia.
    apply sextet_2; [assumption | assumption | lia].
  - inversion Hb as [|? ? Hx Hb1]; subst. inversion Hb1 as [|? ? Hy Hb2]; subst.
    inversion Hb2 as [|? ? Hz Hb3]; subst.
    destruct (div_bounds x Hx) as (X4 & Xm4 & _).
    destruct (div_bounds y Hy) as (_ & _ & Y16 & Ym16 & _).
    destruct (div_bounds z Hz) as (_ & _ & _ & _ & Z64 & Zm64).
    cbn [Reference.base64_encode].
    destruct (sextet_char_spec (x / 4)) as (A1 & A2 & A3); [assumption|].
    destruct (sextet_char_spec (x mod 4 * 16 + y / 16)) as (B1 & B2 & B3); [lia|].
    destruct (sextet_char_spec (y mod 16 * 4 + z / 64)) as (C1 & C2 & C3); [lia|].
    destruct (sextet_char_spec (z mod 64)) as (D1 & D2 & D3); [assumption|].
    rewrite units_cons by exact A1. rewrite units_cons by exact B1.
    rewrite units_cons by exact C1. rewrite units_cons by exact D1.
    rewrite !before_padding_cons by assumption.
    fold (sextet_char (x / 4)). fold (sextet_char (x mod 4 * 16 + y / 16)).
    fold (sextet_char (y mod 16 * 4 + z / 64)). fold (sextet_char (z mod 64)).
    rewrite parse_loop_quad by exact Hi. rewrite A3, B3, C3, D3.
    rewrite IH; [| assumption | rewrite N.Div0.add_mod, Hi; reflexivity].
    f_equal; [apply sextet_1; assumption|].
    f_equal; [apply sextet_2; assumption|].
    f_equal. apply sextet_3; assumption.
Qed.

Lemma base64_roundtrip (b : bytes) :
  Forall (fun x => x < 256) b ->
  Base64_parse (Str (Reference.base64_encode b)) = Ok b.
Proof.
  intros Hb. unfold Base64_parse. f_equal. now apply parse_loop_encode.
Qed.

(** *** The field of AES *)

Lemma land_255_lt (x : N) : N.land x 255 < 256.
Proof.
  assert (H := N.land_le_r x 255). lia.
Qed.

Lemma lxor_lt (a b : N) : a < 256 -> b < 256 -> N.lxor a b < 256.
Proof.
  intros Ha Hb. apply N.ltb_lt.
  apply (forall_below2 256 256 (fun a b => N.lxor a b <? 256));
    [vm_compute; reflexivity | exact Ha | exact Hb].
Qed.

Lemma sub_byte_spec (b : N) : b < 256 ->
  sub_byte b < 256 /\ inv_sub_byte (sub_byte b) = b.
Proof.
  intros Hb.
  assert (H : ((sub_byte b <? 256) && (inv_sub_byte (sub_byte b) =? b))%bool = true).
  { apply (forall_below 256
             (fun b => ((sub_byte b <? 256) && (inv_sub_byte (sub_byte b) =? b))%bool));
      [vm_compute; reflexivity | exact Hb]. }
  apply andb_true_iff in H. destruct H as [H1 H2].
  split; [now apply N.ltb_lt | now apply N.eqb_eq].
Qed.

Lemma xtime_spec (a b : N) : a < 256 -> b < 256 ->
  xtime a < 256 /\ xtime (N.lxor a b) = N.lxor (xtime a) (xtime b).
Proof.
  intros Ha Hb.
  assert (H : ((xtime a <? 256) && (xtime (N.lxor a b) =? N.lxor (xtime a) (xtime b)))%bool
              = true).
  { apply (forall_below2 256 256
             (fun a b => ((xtime a <? 256)
                          && (xtime (N.lxor a b) =? N.lxor (xtime a) (xtime b)))%bool));
      [vm_compute; reflexivity | exact Ha | exact Hb]. }
  apply andb_true_iff in H. destruct H as [H1 H2].
  split; [now apply N.ltb_lt | now apply N.eqb_eq].
Qed.

Lemma lxor_swap (a b c d : N) :
  N.lxor (N.lxor a b) (N.lxor c d) = N.lxor (N.lxor a c) (N.lxor b d).
Proof.
  apply N.bits_inj. intros n. rewrite !N.lxor_spec. btauto.
Qed.

Lemma gmul_bits_lt (n : nat) (a b : N) : a < 256 -> gmul_bits n a b < 256.
Proof.
  revert a b. induction n as [|n IH]; intros a b Ha; simpl; [lia|].
  apply lxor_lt.
  - destruct (N.odd b); [exact Ha | lia].
  - apply IH. apply (xtime_spec a a Ha Ha).
Qed.

Lemma gmul_bits_lxor (n : nat) (a a' b : N) : a < 256 -> a' < 256 ->
  gmul_bits n (N.lxor a a') b = N.lxor (gmul_bits n a b) (gmul_bits n a' b).
Proof.
  revert a a' b. induction n as [|n IH]; intros a a' b Ha Ha'; simpl; [reflexivity|].
  destruct (xtime_spec a a' Ha Ha') as [X1 X2].
  destruct (xtime_spec a' a Ha' Ha) as [X3 _].
  rewrite X2, IH by assumption.
  destruct (N.odd b).
  - apply lxor_swap.
  - now rewrite !N.lxor_0_l.
Qed.

Lemma gmul_lt (a k : N) : a < 256 -> gmul a k < 256.
Proof. apply gmul_bits_lt. Qed.

Lemma gmul_lxor (a a' k : N) : a < 256 -> a' < 256 ->
  gmul (N.lxor a a') k = N.lxor (gmul a k) (gmul a' k).
Proof. apply gmul_bits_lxor. Qed.

Lemma xor4_lt (a b c d : N) : a < 256 -> b < 256 -> c < 256 -> d < 256 ->
  xor4 a b c d < 256.
Proof. intros. unfold xor4. auto using lxor_lt. Qed.

Lemma gmul_xor4 (a b c d k : N) : a < 256 -> b < 256 -> c < 256 -> d < 256 ->
  gmul (xor4 a b c d) k = xor4 (gmul a k) (gmul b k) (gmul c k) (gmul d k).
Proof.
  intros. unfold xor4. rewrite !gmul_lxor; auto using lxor_lt.
Qed.

Lemma xor4_transpose (a1 a2 a3 a4 b1 b2 b3 b4 c1 c2 c3 c4 d1 d2 d3 d4 : N) :
  xor4 (xor4 a1 b1 c1 d1) (xor4 a2 b2 c2 d2) (xor4 a3 b3 c3 d3) (xor4 a4 b4 c4 d4)
  = xor4 (xor4 a1 a2 a3 a4) (xor4 b1 b2 b3 b4) (xor4 c1 c2 c3 c4) (xor4 d1 d2 d3 d4).
Proof.
  unfold xor4. apply N.bits_inj. intros n. rewrite !N.lxor_spec. btauto.
Qed.

Lemma xor4_unit (a : N) :
  xor4 a 0 0 0 = a /\ xor4 0 a 0 0 = a /\ xor4 0 0 a 0 = a /\ xor4 0 0 0 a = a.
Proof.
  unfold xor4. rewrite !N.lxor_0_l, !N.lxor_0_r. auto.
Qed.

Lemma mix_products_ok (x : N) : x < 256 -> mix_products x = true.
Proof.
  intros Hx. apply (forall_below 256 mix_products); [vm_compute; reflexivity | exact Hx].
Qed.

Lemma inv_mix_column (a b c d : N) :
  a < 256 -> b < 256 -> c < 256 -> d < 256 ->
  inv_mix_columns (mix_columns [a; b; c; d]) = [a; b; c; d].
Proof.
  intros Ha Hb Hc Hd. cbn [mix_columns inv_mix_columns].
  pose proof (mix_products_ok a Ha) as Pa. pose proof (mix_products_ok b Hb) as Pb.
  pose proof (mix_products_ok c Hc) as Pc. pose proof (mix_products_ok d Hd) as Pd.
  unfold mix_products in Pa, Pb, Pc, Pd. cbv zeta in Pa, Pb, Pc, Pd.
  repeat match goal with
         | H : (_ && _)%bool = true |- _ => apply andb_true_iff in H; destruct H
         | H : (_ =? _) = true |- _ => apply N.eqb_eq in H
         end.
  rewrite !gmul_xor4 by auto using gmul_lt.
  destruct (xor4_unit a) as (Ua & _). destruct (xor4_unit b) as (_ & Ub & _).
  destruct (xor4_unit c) as (_ & _ & Uc & _). destruct (xor4_unit d) as (_ & _ & _ & Ud).
  assert (E : forall x y z w x' y' z' w' : N,
             x = x' -> y = y' -> z = z' -> w = w' -> [x; y; z; w] = [x'; y'; z'; w'])
    by (intros; subst; reflexivity).
  apply E; rewrite xor4_transpose;
    repeat match goal with
           | H : xor4 _ _ _ _ = _ |- _ => rewrite H; clear H
           end; reflexivity.
Qed.

Lemma byte_list_app (a b : bytes) : byte_list a -> byte_list b -> byte_list (a ++ b).
Proof. unfold byte_list. intros. apply Forall_app. now split. Qed.

Lemma byte_list_firstn (n : nat) (l : bytes) : byte_list l -> byte_list (firstn n l).
Proof.
  unfold byte_list. intros H. rewrite <- (firstn_skipn n l) in H.
  now apply Forall_app in H.
Qed.

Lemma byte_list_skipn (n : nat) (l : bytes) : byte_list l -> byte_list (skipn n l).
Proof.
  unfold byte_list. intros H. rewrite <- (firstn_skipn n l) in H.
  now apply Forall_app in H.
Qed.

Lemma bytes_of_string_bytes (s : string) : byte_list (bytes_of_string s).
Proof.
  unfold byte_list, bytes_of_string. apply Forall_forall. intros x Hx.
  apply in_map_iff in Hx. destruct Hx as [c [<- _]]. apply N_ascii_bounded.
Qed.

Lemma string_of_bytes_of_string (s : string) : string_of_bytes (bytes_of_string s) = s.
Proof.
  unfold string_of_bytes, bytes_of_string. rewrite map_map.
  rewrite (map_ext _ (fun c => c)) by (intros; apply ascii_N_embedding).
  rewrite map_id. apply string_of_list_ascii_of_string.
Qed.

(** *** One block *)

Lemma xor_bytes_length (a b : bytes) :
  length a = length b -> length (xor_bytes a b) = length a.
Proof.
  intros H. unfold xor_bytes. rewrite length_map, length_combine. lia.
Qed.

Lemma xor_bytes_bytes (a b : bytes) : byte_list a -> byte_list b -> byte_list (xor_bytes a b).
Proof.
  unfold byte_list, xor_bytes. revert b. induction a as [|x a IH]; intros b Ha Hb.
  - constructor.
  - destruct b as [|y b]; [constructor|]. inversion Ha; inversion Hb; subst.
    simpl. constructor; [now apply lxor_lt | now apply IH].
Qed.

Lemma xor_bytes_cancel (a k : bytes) :
  length a = length k -> xor_bytes (xor_bytes a k) k = a.
Proof.
  unfold xor_bytes. revert k. induction a as [|x a IH]; intros [|y k] H;
    try discriminate; simpl; [reflexivity|].
  injection H as H. rewrite IH by exact H.
  now rewrite N.lxor_assoc, N.lxor_nilpotent, N.lxor_0_r.
Qed.

Lemma xor_block (a k : bytes) : is_block a -> is_block k -> is_block (xor_bytes a k).
Proof.
  intros [La Ba] [Lk Bk]. split.
  - rewrite xor_bytes_length; congruence.
  - now apply xor_bytes_bytes.
Qed.

Lemma bytes_of_words_spec (ws : list N) :
  length (bytes_of_words ws) = (4 * length ws)%nat /\ byte_list (bytes_of_words ws).
Proof.
  unfold bytes_of_words, byte_list. induction ws as [|w ws [IHl IHb]].
  - split; [reflexivity | constructor].
  - cbn [flat_map]. split.
    + rewrite length_app, IHl. cbn [bytes_of_word length]. lia.
    + apply Forall_app. split; [|exact IHb].
      unfold bytes_of_word. repeat constructor; apply land_255_lt.
Qed.

Lemma round_key_block (ks : schedule) (r : nat) : is_block (round_key ks r).
Proof.
  unfold round_key, is_block.
  destruct (bytes_of_words_spec
              (map (fun j => nth (4 * r + j) (sched_words ks) 0) (seq 0 4))) as [L B].
  split; [|exact B]. rewrite L, length_map, length_seq. reflexivity.
Qed.

Ltac block_elems s H :=
  destruct H as [?L ?B];
  do 16 (destruct s as [|? s]; [discriminate|]);
  destruct s; [|discriminate];
  unfold byte_list in *;
  repeat match goal with
         | H : Forall _ (_ :: _) |- _ => inversion H; subst; clear H
         end.

Lemma shift_rows_block (s : bytes) : is_block s -> is_block (shift_rows s).
Proof.
  intros H. block_elems s H. split; [reflexivity|].
  unfold byte_list. simpl. repeat constructor; assumption.
Qed.

Lemma inv_shift_rows_shift_rows (s : bytes) :
  length s = 16%nat -> inv_shift_rows (shift_rows s) = s.
Proof.
  intros H. do 16 (destruct s as [|? s]; [discriminate|]).
  destruct s; [reflexivity | discriminate].
Qed.

Lemma sub_bytes_block (s : bytes) : is_block s -> is_block (map sub_byte s).
Proof.
  intros [L B]. split; [now rewrite length_map|].
  unfold byte_list in *. rewrite Forall_forall in *. intros x Hx.
  apply in_map_iff in Hx. destruct Hx as [y [<- Hy]]. apply sub_byte_spec, B, Hy.
Qed.

Lemma inv_sub_bytes_sub_bytes (s : bytes) :
  byte_list s -> map inv_sub_byte (map sub_byte s) = s.
Proof.
  unfold byte_list. induction 1 as [|x s Hx _ IH]; simpl; [reflexivity|].
  rewrite IH. f_equal. apply sub_byte_spec, Hx.
Qed.

Lemma mix_columns_block (s : bytes) : is_block s -> is_block (mix_columns s).
Proof.
  intros H. block_elems s H. split; [reflexivity|].
  unfold byte_list. cbn [mix_columns].
  repeat constructor; apply xor4_lt; auto using gmul_lt.
Qed.

Lemma inv_mix_columns_mix_columns (s : bytes) :
  is_block s -> inv_mix_columns (mix_columns s) = s.
Proof.
  intros H. block_elems s H.
  assert (C : forall a b c d rest,
             a < 256 -> b < 256 -> c < 256 -> d < 256 ->
             inv_mix_columns (mix_columns (a :: b :: c :: d :: rest))
             = a :: b :: c :: d :: inv_mix_columns (mix_columns rest)).
  { intros a b c d rest Ha Hb Hc Hd.
    pose proof (inv_mix_column a b c d Ha Hb Hc Hd) as E.
    cbn [mix_columns inv_mix_columns] in E |- *.
    injection E as E0 E1 E2 E3. now rewrite E0, E1, E2, E3. }
  rewrite !C by assumption. reflexivity.
Qed.

Lemma enc_round_block (ks : schedule) (r : nat) (s : bytes) :
  is_block s -> is_block (enc_round ks r s).
Proof.
  intros H. unfold enc_round. apply xor_block; [|apply round_key_block].
  apply mix_columns_block, shift_rows_block, sub_bytes_block, H.
Qed.

Lemma enc_rounds_block (ks : schedule) (n from : nat) (s : bytes) :
  is_block s -> is_block (enc_rounds ks n from s).
Proof.
  revert from s. induction n as [|n IH]; intros from s H; simpl; [exact H|].
  apply IH, enc_round_block, H.
Qed.

Lemma enc_rounds_last (ks : schedule) (n from : nat) (s : bytes) :
  enc_rounds ks (S n) from s = enc_round ks (from + n) (enc_rounds ks n from s).
Proof.
  revert from s. induction n as [|n IH]; intros from s.
  - simpl. now rewrite Nat.add_0_r.
  - change (enc_rounds ks (S (S n)) from s)
      with (enc_rounds ks (S n) (S from) (enc_round ks from s)).
    rewrite IH. simpl. now rewrite Nat.add_succ_r.
Qed.

Lemma final_undo (s : bytes) :
  is_block s -> map inv_sub_byte (inv_shift_rows (shift_rows (map sub_byte s))) = s.
Proof.
  intros [L B]. rewrite inv_shift_rows_shift_rows by now rewrite length_map.
  now apply inv_sub_bytes_sub_bytes.
Qed.

Lemma inv_round_enc_round (ks : schedule) (r : nat) (s : bytes) :
  is_block s ->
  inv_round ks r (shift_rows (map sub_byte (enc_round ks r s)))
  = shift_rows (map sub_byte s).
Proof.
  intros H. unfold inv_round.
  rewrite final_undo by now apply enc_round_block.
  unfold enc_round.
  assert (M : is_block (mix_columns (shift_rows (map sub_byte s)))).
  { apply mix_columns_block, shift_rows_block, sub_bytes_block, H. }
  rewrite xor_bytes_cancel.
  - apply inv_mix_columns_mix_columns, shift_rows_block, sub_bytes_block, H.
  - destruct M as [-> _]. symmetry. apply round_key_block.
Qed.

Lemma inv_rounds_enc_rounds (ks : schedule) (n : nat) (s : bytes) :
  is_block s ->
  inv_rounds ks n (shift_rows (map sub_byte (enc_rounds ks n 1 s)))
  = shift_rows (map sub_byte s).
Proof.
  induction n as [|n IH]; intros H; [reflexivity|].
  rewrite enc_rounds_last. cbn [inv_rounds]. change (1 + n)%nat with (S n).
  rewrite inv_round_enc_round by now apply enc_rounds_block.
  apply IH, H.
Qed.

Lemma encrypt_block_block (ks : schedule) (p : bytes) :
  is_block p -> is_block (encrypt_block ks p).
Proof.
  intros H. unfold encrypt_block.
  apply xor_block; [|apply round_key_block].
  apply shift_rows_block, sub_bytes_block, enc_rounds_block, xor_block;
    [exact H | apply round_key_block].
Qed.

Lemma decrypt_encrypt_block (ks : schedule) (p : bytes) :
  is_block p -> decrypt_block ks (encrypt_block ks p) = p.
Proof.
  intros H. unfold decrypt_block, encrypt_block.
  assert (H0 : is_block (xor_bytes p (round_key ks 0))).
  { apply xor_block; [exact H | apply round_key_block]. }
  assert (H1 : is_block (shift_rows (map sub_byte
             (enc_rounds ks (sched_rounds ks - 1) 1 (xor_bytes p (round_key ks 0)))))).
  { apply shift_rows_block, sub_bytes_block, enc_rounds_block, H0. }
  rewrite xor_bytes_cancel.
  - rewrite inv_rounds_enc_rounds by exact H0.
    rewrite final_undo by exact H0.
    apply xor_bytes_cancel. destruct H as [-> _]. symmetry. apply round_key_block.
  - destruct H1 as [-> _]. symmetry. apply round_key_block.
Qed.

(** *** Chained blocks *)

Lemma firstn_block (c rest : bytes) : length c = 16%nat -> firstn 16 (c ++ rest) = c.
Proof.
  intros H. rewrite firstn_app, H, Nat.sub_diag, firstn_O, app_nil_r.
  rewrite <- H. apply firstn_all.
Qed.

Lemma skipn_block (c rest : bytes) : length c = 16%nat -> skipn 16 (c ++ rest) = rest.
Proof.
  intros H. rewrite skipn_app, H, Nat.sub_diag. rewrite <- H, skipn_all. reflexivity.
Qed.

Lemma block16_block (c rest : bytes) : length c = 16%nat -> block16 (c ++ rest) = c.
Proof. intros H. unfold block16. rewrite <- app_assoc. now apply firstn_block. Qed.

Lemma block16_id (c : bytes) : length c = 16%nat -> block16 c = c.
Proof. intros H. unfold block16. now apply firstn_block. Qed.

Lemma cbc_decrypt_block (ks : schedule) (f : nat) (prev c rest : bytes) :
  length c = 16%nat ->
  cbc_decrypt ks (S f) prev (c ++ rest)
  = xor_bytes (decrypt_block ks c) prev ++ cbc_decrypt ks f c rest.
Proof.
  intros H. destruct c as [|x c]; [discriminate|].
  change (cbc_decrypt ks (S f) prev ((x :: c) ++ rest))
    with (xor_bytes (decrypt_block ks (block16 ((x :: c) ++ rest))) prev
            ++ cbc_decrypt ks f (block16 ((x :: c) ++ rest)) (skipn 16 ((x :: c) ++ rest))).
  now rewrite block16_block, skipn_block.
Qed.

Lemma cbc_encrypt_block (ks : schedule) (f : nat) (prev b rest : bytes) :
  length b = 16%nat ->
  Reference.cbc_encrypt ks (S f) prev (b ++ rest)
  = encrypt_block ks (xor_bytes b prev)
      ++ Reference.cbc_encrypt ks f (encrypt_block ks (xor_bytes b prev)) rest.
Proof.
  intros H. destruct b as [|x b]; [discriminate|].
  change (Reference.cbc_encrypt ks (S f) prev ((x :: b) ++ rest))
    with (encrypt_block ks (xor_bytes (firstn 16 ((x :: b) ++ rest)) prev)
            ++ Reference.cbc_encrypt ks f
                 (encrypt_block ks (xor_bytes (firstn 16 ((x :: b) ++ rest)) prev))
                 (skipn 16 ((x :: b) ++ rest))).
  now rewrite firstn_block, skipn_block.
Qed.

Lemma split_block (m : nat) (pt : bytes) :
  length pt = (16 * S m)%nat ->
  exists b rest, pt = b ++ rest /\ length b = 16%nat /\ length rest = (16 * m)%nat.
Proof.
  intros H. exists (firstn 16 pt), (skipn 16 pt). split; [|split].
  - symmetry. apply firstn_skipn.
  - rewrite length_firstn. lia.
  - rewrite length_skipn. lia.
Qed.

Lemma cbc_encrypt_spec (ks : schedule) (m : nat) :
  forall (pt prev : bytes) (f : nat),
    length pt = (16 * m)%nat -> byte_list pt -> is_block prev -> (m <= f)%nat ->
    length (Reference.cbc_encrypt ks f prev pt) = (16 * m)%nat /\
    byte_list (Reference.cbc_encrypt ks f prev pt).
Proof.
  induction m as [|m IH]; intros pt prev f L B P F.
  - destruct pt; [|discriminate]. destruct f; split; try reflexivity; constructor.
  - destruct (split_block m pt L) as (b & rest & -> & Lb & Lr).
    destruct f as [|f]; [lia|]. rewrite cbc_encrypt_block by exact Lb.
    apply Forall_app in B. destruct B as [Bb Br].
    assert (E : is_block (encrypt_block ks (xor_bytes b prev))).
    { apply encrypt_block_block, xor_block; [now split | exact P]. }
    destruct (IH rest (encrypt_block ks (xor_bytes b prev)) f Lr Br E) as [IL IB]; [lia|].
    split.
    + rewrite length_app, IL. destruct E as [-> _]. lia.
    + apply byte_list_app; [apply E | exact IB].
Qed.

Lemma cbc_roundtrip (ks : schedule) (m : nat) :
  forall (pt prev : bytes) (f f' : nat),
    length pt = (16 * m)%nat -> byte_list pt -> is_block prev ->
    (m <= f)%nat -> (m <= f')%nat ->
    cbc_decrypt ks f' prev (Reference.cbc_encrypt ks f prev pt) = pt.
Proof.
  induction m as [|m IH]; intros pt prev f f' L B P F F'.
  - destruct pt; [|discriminate]. destruct f, f'; reflexivity.
  - destruct (split_block m pt L) as (b & rest & -> & Lb & Lr).
    destruct f as [|f]; [lia|]. destruct f' as [|f']; [lia|].
    rewrite cbc_encrypt_block by exact Lb.
    apply Forall_app in B. destruct B as [Bb Br].
    assert (X : is_block (xor_bytes b prev)).
    { apply xor_block; [now split | exact P]. }
    assert (E : is_block (encrypt_block ks (xor_bytes b prev))).
    { now apply encrypt_block_block. }
    rewrite cbc_decrypt_block by apply E.
    rewrite decrypt_encrypt_block by exact X.
    rewrite xor_bytes_cancel by (destruct P as [-> _]; exact Lb).
    f_equal. apply IH; try assumption; lia.
Qed.

(** *** Padding *)

Lemma pad_shape (p : bytes) :
  exists q r : nat,
    length p = (16 * q + r)%nat /\ (r < 16)%nat /\
    Reference.pkcs7_pad p = p ++ repeat (N.of_nat (16 - r)) (16 - r).
Proof.
  exists (length p / 16)%nat, (length p mod 16)%nat. split; [|split].
  - apply Nat.div_mod_eq.
  - apply Nat.mod_upper_bound. discriminate.
  - reflexivity.
Qed.

Lemma pad_spec (p : bytes) :
  byte_list p ->
  exists m, length (Reference.pkcs7_pad p) = (16 * m)%nat /\
            byte_list (Reference.pkcs7_pad p).
Proof.
  intros B. destruct (pad_shape p) as (q & r & L & R & ->).
  exists (S q). split.
  - rewrite length_app, repeat_length. lia.
  - apply byte_list_app; [exact B|]. unfold byte_list.
    apply Forall_forall. intros x Hx. apply repeat_spec in Hx. subst x. lia.
Qed.

Lemma unpad_pad (p : bytes) :
  pkcs7_unpad (Reference.pkcs7_pad p) (length (Reference.pkcs7_pad p)) = p.
Proof.
  destruct (pad_shape p) as (q & r & L & R & ->).
  rewrite length_app, repeat_length. unfold pkcs7_unpad.
  replace (length p + (16 - r))%nat with (S (16 * q + 15)) by lia.
  assert (D : ((16 * q + 15) / 4 = 4 * q + 3)%nat).
  { symmetry. apply (Nat.div_unique _ 4 _ 3); lia. }
  rewrite D. replace (4 * (4 * q + 3) + 3)%nat with (length p + (15 - r))%nat by lia.
  rewrite app_nth2_plus, nth_repeat_lt by lia.
  rewrite Nnat.Nat2N.id.
  replace (S (16 * q + 15) - (16 - r))%nat with (length p + 0)%nat by lia.
  rewrite firstn_app_2. simpl. apply app_nil_r.
Qed.

(** *** Passwords *)

Lemma has_surrogate_skip (c : N) (rest : bytes) :
  c <> 0xED -> has_surrogate (c :: rest) = has_surrogate rest.
Proof.
  intros H. apply N.eqb_neq in H. cbn [has_surrogate]. rewrite H.
  destruct rest; reflexivity.
Qed.

Lemma has_surrogate_low (c c1 : N) (rest : bytes) :
  c1 < 0xA0 -> has_surrogate (c :: c1 :: rest) = has_surrogate (c1 :: rest).
Proof.
  intros H. apply N.leb_gt in H.
  change (has_surrogate (c :: c1 :: rest))
    with (((c =? 0xED) && (0xA0 <=? c1)) || has_surrogate (c1 :: rest))%bool.
  now rewrite H, andb_false_r.
Qed.

Ltac bounds :=
  repeat match goal with
         | H : (_ && _)%bool = true |- _ => apply andb_true_iff in H; destruct H
         | H : is_cont _ = true |- _ => unfold is_cont in H
         | H : (_ <? _) = true |- _ => apply N.ltb_lt in H
         | H : (_ <? _) = false |- _ => apply N.ltb_ge in H
         | H : (_ <=? _) = true |- _ => apply N.leb_le in H
         | H : (_ =? _) = true |- _ => apply N.eqb_eq in H
         | H : (_ =? _) = false |- _ => apply N.eqb_neq in H
         end.

Lemma utf8_valid_no_surrogate (n : nat) :
  forall l : bytes, (length l <= n)%nat -> utf8_valid l = true -> has_surrogate l = false.
Proof.
  induction n as [|n IH]; intros l L V.
  - destruct l; [reflexivity | simpl in L; lia].
  - destruct l as [|c r]; [reflexivity|]. cbn [utf8_valid] in V. simpl in L.
    destruct (c <? 0x80) eqn:E1.
    { bounds. rewrite has_surrogate_skip by lia. apply IH; [lia | exact V]. }
    destruct (c <? 0xC2) eqn:E2; [discriminate|].
    destruct (c <? 0xE0) eqn:E3.
    { destruct r as [|c1 r1]; [discriminate|]. simpl in L. bounds.
      rewrite !has_surrogate_skip by lia. apply IH; [lia | assumption]. }
    destruct (c <? 0xF0) eqn:E4.
    { destruct r as [|c1 [|c2 r2]]; try discriminate. simpl in L.
      destruct (c =? 0xE0) eqn:E5; [|destruct (c =? 0xED) eqn:E6]; bounds.
      - rewrite !has_surrogate_skip by lia. apply IH; [lia | assumption].
      - rewrite has_surrogate_low by lia.
        rewrite !has_surrogate_skip by lia. apply IH; [lia | assumption].
      - rewrite !has_surrogate_skip by lia. apply IH; [lia | assumption]. }
    destruct (c <? 0xF5) eqn:E7; [|discriminate].
    destruct r as [|c1 [|c2 [|c3 r3]]]; try discriminate. simpl in L.
    destruct (c =? 0xF0) eqn:E5; [|destruct (c =? 0xF4) eqn:E6]; bounds;
      rewrite !has_surrogate_skip by lia; (apply IH; [lia | assumption]).
Qed.

(** *** The whole path *)

Lemma extra_iterations_config (iters : positive) :
  extra_iterations (Num (Dec (Zpos iters) 0)) = (Pos.to_nat iters - 1)%nat.
Proof.
  unfold extra_iterations, to_number, ceiling.
  change (0 <=? 0)%Z with true. cbv iota. rewrite Z.pow_0_r, Z.mul_1_r. lia.
Qed.

Lemma key_words_config (keyBits : positive) :
  keyBits = 128%positive \/ keyBits = 192%positive \/ keyBits = 256%positive ->
  key_words (div32 (to_number (Num (Dec (Zpos keyBits) 0)))) = (Pos.to_nat keyBits / 32)%nat.
Proof. intros [-> | [-> | ->]]; reflexivity. Qed.

Lemma derive_key_reference (password : string) (salt : bytes) (keyBits iters : positive) :
  has_surrogate (bytes_of_string password) = false ->
  keyBits = 128%positive \/ keyBits = 192%positive \/ keyBits = 256%positive ->
  derive_key (Str password) salt (Reference.config keyBits iters)
  = Ok (Reference.derive_key password salt keyBits iters).
Proof.
  intros Hs Hk. unfold derive_key, Reference.derive_key.
  change (pbkdf2_options (Reference.config keyBits iters))
    with (Ok {| keySize := div32 (to_number (Num (Dec (Zpos keyBits) 0)));
                iterations := Num (Dec (Zpos iters) 0);
                hasher := algo_SHA256 |}).
  cbn [JS.bind]. rewrite (proj1 (proj2 browser_calls)).
  unfold PBKDF2, Utf8_parse. rewrite Hs. cbn [JS.bind keySize iterations hasher].
  now rewrite extra_iterations_config, key_words_config.
Qed.

(** C5.  For every UTF-8 plaintext, the empty one included, and every
    UTF-8 password, the viewer recovers from the bundle that the reference
    encryptor makes of them, under any salt and IV and with a key of 128,
    192 or 256 bits, exactly that plaintext; and [decryptData] returns
    what the plaintext parses to, which is null when it is no JSON text. *)
Theorem decrypt_recovers_plaintext (plaintext password : string) (salt iv : bytes)
        (keyBits iters : positive) :
  utf8_valid (bytes_of_string plaintext) = true ->
  utf8_valid (bytes_of_string password) = true ->
  byte_list salt -> is_block iv ->
  keyBits = 128%positive \/ keyBits = 192%positive \/ keyBits = 256%positive ->
  let envelope := Reference.encrypt plaintext password salt iv keyBits iters in
  let config := Reference.config keyBits iters in
  decrypt_to_string envelope (Str password) config = Ok plaintext /\
  decryptData envelope (Str password) config = parse_or_null plaintext.
Proof.
  intros Hu Hp Bs Biv Hk envelope config.
  assert (Hs : has_surrogate (bytes_of_string password) = false).
  { exact (utf8_valid_no_surrogate _ _ (Nat.le_refl _) Hp). }
  assert (D : decrypt_to_string envelope (Str password) config = Ok plaintext).
  { subst envelope config. unfold decrypt_to_string, Reference.encrypt.
    set (key := Reference.derive_key password salt keyBits iters).
    set (padded := Reference.pkcs7_pad (bytes_of_string plaintext)).
    set (ct := Reference.cbc_encrypt (key_schedule key) (length padded) iv padded).
    destruct (pad_spec (bytes_of_string plaintext) (bytes_of_string_bytes _))
      as (m & Lp & Bp). fold padded in Lp, Bp.
    assert (Fm : (m <= length padded)%nat) by lia.
    destruct (cbc_encrypt_spec (key_schedule key) m padded iv (length padded)
                               Lp Bp Biv Fm) as [Lc Bc].
    fold ct in Lc, Bc.
    change (get_prop (Obj [("ciphertext", Str (Reference.base64_encode ct));
                           ("iv", Str (Reference.base64_encode iv));
                           ("salt", Str (Reference.base64_encode salt))]) "ciphertext")
      with (Ok (Str (Reference.base64_encode ct))).
    change (get_prop (Obj [("ciphertext", Str (Reference.base64_encode ct));
                           ("iv", Str (Reference.base64_encode iv));
                           ("salt", Str (Reference.base64_encode salt))]) "iv")
      with (Ok (Str (Reference.base64_encode iv))).
    change (get_prop (Obj [("ciphertext", Str (Reference.base64_encode ct));
                           ("iv", Str (Reference.base64_encode iv));
                           ("salt", Str (Reference.base64_encode salt))]) "salt")
      with (Ok (Str (Reference.base64_encode salt))).
    cbn [JS.bind]. rewrite (proj1 browser_calls).
    rewrite !base64_roundtrip by (assumption || apply Biv). cbn [JS.bind].
    rewrite derive_key_reference by assumption. fold key. cbn [JS.bind].
    rewrite (proj1 (proj2 (proj2 browser_calls))).
    unfold AES_decrypt_CBC_Pkcs7. cbn [JS.bind].
    rewrite block16_id by apply Biv. unfold ct at 2.
    rewrite (cbc_roundtrip (key_schedule key) m) by (assumption || lia).
    rewrite Lc, <- Lp. unfold padded. rewrite unpad_pad.
    rewrite (proj2 (proj2 (proj2 browser_calls))).
    unfold Utf8_stringify. rewrite Hu. now rewrite string_of_bytes_of_string. }
  split; [exact D|].
  unfold decryptData, decryptData_try, parse_or_null. rewrite D. reflexivity.
Qed.

Lemma decrypt_recovers_plaintext_witness :
  let envelope := Reference.encrypt Scenario.plaintext "ASTHMAPOSTS"
                                     Scenario.salt Scenario.iv 256 2 in
  let empty := Reference.encrypt "" "ASTHMAPOSTS" Scenario.salt Scenario.iv 256 2 in
  utf8_valid (bytes_of_string Scenario.plaintext) = true /\
  utf8_valid (bytes_of_string "ASTHMAPOSTS") = true /\
  byte_list Scenario.salt /\ is_block Scenario.iv /\
  decrypt_to_string envelope (Str "ASTHMAPOSTS") Scenario.config = Ok Scenario.plaintext /\
  decryptData envelope (Str "ASTHMAPOSTS") Scenario.config = Scenario.records /\
  decrypt_to_string empty (Str "ASTHMAPOSTS") Scenario.config = Ok ""%string /\
  decryptData empty (Str "ASTHMAPOSTS") Scenario.config = Null.
Proof.
  assert (Bs : byte_list Scenario.salt) by (repeat constructor).
  assert (Bi : is_block Scenario.iv) by (split; [reflexivity | repeat constructor]).
  split; [reflexivity|]. split; [reflexivity|]. split; [exact Bs|]. split; [exact Bi|].
  pose proof (decrypt_recovers_plaintext Scenario.plaintext "ASTHMAPOSTS"
                Scenario.salt Scenario.iv 256 2 eq_refl eq_refl Bs Bi
                (or_intror (or_intror eq_refl))) as [H1 H2].
  pose proof (decrypt_recovers_plaintext "" "ASTHMAPOSTS"
                Scenario.salt Scenario.iv 256 2 eq_refl eq_refl Bs Bi
                (or_intror (or_intror eq_refl))) as [H3 H4].
  split; [exact H1|]. split; [exact H2|]. split; [exact H3 | exact H4].
Defined.

End RoundTrip.

(** ** Passwords that derive the same key *)

(** [HMAC.init] fills a key shorter than the hash block with zero bytes, so
    a password and the same password followed by U+0000 characters give
    the same key to every call of PBKDF2. *)
Module KeyPadding.

Import CryptoJS.
Local Open Scope N_scope.

Lemma hmac_key_nul (h : Hasher) (key : bytes) :
  (length key < 64)%nat -> hmac_key h (key ++ [0]) = hmac_key h key.
Proof.
  intros H. unfold hmac_key. rewrite length_app. cbn [length].
  assert (E1 : (64 <? N.of_nat (length key + 1)) = false) by (apply N.ltb_ge; lia).
  assert (E2 : (64 <? N.of_nat (length key)) = false) by (apply N.ltb_ge; lia).
  rewrite E1, E2, length_app. cbn [length]. rewrite <- app_assoc. f_equal.
  replace (64 - length key)%nat with (S (64 - (length key + 1))) by lia.
  reflexivity.
Qed.

Lemma HMAC_nul (h : Hasher) (key msg : bytes) :
  (length key < 64)%nat -> HMAC h (key ++ [0]) msg = HMAC h key msg.
Proof. intros H. unfold HMAC. now rewrite hmac_key_nul. Qed.

Lemma pbkdf2_iterate_nul (h : Hasher) (key : bytes) (n : nat) (u acc : bytes) :
  (length key < 64)%nat ->
  pbkdf2_iterate h (key ++ [0]) n u acc = pbkdf2_iterate h key n u acc.
Proof.
  intros H. revert u acc. induction n as [|n IH]; intros u acc; simpl; [reflexivity|].
  now rewrite HMAC_nul, IH.
Qed.

Lemma pbkdf2_bytes_nul (h : Hasher) (key salt : bytes) (extra nwords : nat) :
  (length key < 64)%nat ->
  pbkdf2_bytes h (key ++ [0]) salt extra nwords = pbkdf2_bytes h key salt extra nwords.
Proof.
  intros H. unfold pbkdf2_bytes. f_equal. apply flat_map_ext. intros i.
  unfold pbkdf2_block. now rewrite HMAC_nul, pbkdf2_iterate_nul.
Qed.

Lemma has_surrogate_nul (b : bytes) : has_surrogate (b ++ [0]) = has_surrogate b.
Proof.
  induction b as [|c b IH]; [reflexivity|].
  change ((c :: b) ++ [0]) with (c :: (b ++ [0])).
  cbn [has_surrogate]. rewrite IH. f_equal.
  destruct b as [|c1 b]; [|reflexivity].
  cbn [app]. now rewrite andb_false_r.
Qed.

Lemma bytes_of_string_app (a b : string) :
  bytes_of_string (a ++ b) = bytes_of_string a ++ bytes_of_string b.
Proof.
  unfold bytes_of_string. induction a as [|c a IH]; simpl; [reflexivity|].
  now rewrite IH.
Qed.

Lemma PBKDF2_nul (password : string) (salt : bytes) (cfg : PBKDF2_cfg) :
  (String.length password < 64)%nat ->
  PBKDF2 (Str (password ++ nul)) salt cfg = PBKDF2 (Str password) salt cfg.
Proof.
  intros H. unfold PBKDF2, Utf8_parse. rewrite bytes_of_string_app.
  change (bytes_of_string nul) with [0]. rewrite has_surrogate_nul.
  destruct (has_surrogate (bytes_of_string password)); [reflexivity|].
  cbn [JS.bind]. rewrite pbkdf2_bytes_nul; [reflexivity|].
  unfold bytes_of_string. rewrite length_map.
  replace (length (list_ascii_of_string password)) with (String.length password); [exact H|].
  clear H. induction password as [|c s IH]; simpl; [reflexivity | now rewrite IH].
Qed.

Lemma length_bytes_of_string (s : string) :
  length (bytes_of_string s) = String.length s.
Proof.
  unfold bytes_of_string. rewrite length_map.
  induction s as [|c s IH]; simpl; [reflexivity | now rewrite IH].
Qed.

(** X4. A password whose UTF-8 form has fewer than 64 bytes and the same
    password followed by the character U+0000 get the same answer from
    [decryptData], for every bundle, under a config that holds a key size
    of 128, 192 or 256 and a positive iteration count as whole JSON
    numbers: HMAC fills a short key with zero bytes, so both derive the
    same key. *)
Lemma nul_suffix_same_answer (encrypted config : value) (password : string)
      (keyBits iters : positive) :
  key_parameters config keyBits iters ->
  keyBits = 128%positive \/ keyBits = 192%positive \/ keyBits = 256%positive ->
  (length (bytes_of_string password) < 64)%nat ->
  decryptData encrypted (Str (password ++ nul)) config
  = decryptData encrypted (Str password) config.
Proof.
  intros _ _ H. rewrite length_bytes_of_string in H.
  unfold decryptData, decryptData_try, decrypt_to_string, derive_key.
  destruct browser_calls as (E1 & E2 & _). rewrite E1, E2.
  destruct (get_prop encrypted "ciphertext") as [c|]; [|reflexivity]. cbn [JS.bind].
  destruct (Base64_parse c) as [ciphertext|]; [|reflexivity]. cbn [JS.bind].
  destruct (get_prop encrypted "iv") as [i|]; [|reflexivity]. cbn [JS.bind].
  destruct (Base64_parse i) as [iv|]; [|reflexivity]. cbn [JS.bind].
  destruct (get_prop encrypted "salt") as [t|]; [|reflexivity]. cbn [JS.bind].
  destruct (Base64_parse t) as [salt|]; [|reflexivity]. cbn [JS.bind].
  destruct (pbkdf2_options config) as [opts|]; [|reflexivity]. cbn [JS.bind].
  now rewrite PBKDF2_nul.
Qed.

(** The section-8 bundle under its password followed by U+0000. *)
Lemma nul_suffix_same_answer_witness :
  key_parameters Scenario.config 256 2 /\
  (length (bytes_of_string "ASTHMAPOSTS") < 64)%nat /\
  decryptData Scenario.envelope (Str ("ASTHMAPOSTS" ++ nul)) Scenario.config
  = decryptData Scenario.envelope (Str "ASTHMAPOSTS") Scenario.config.
Proof.
  assert (K : key_parameters Scenario.config 256 2) by (split; reflexivity).
  split; [exact K|]. split; [simpl; lia|].
  apply (nul_suffix_same_answer Scenario.envelope Scenario.config "ASTHMAPOSTS" 256 2 K);
    [right; right; reflexivity | simpl; lia].
Defined.

End KeyPadding.

(** ** The key, and the standard *)

Module KeyDerivation.

Import CryptoJS.

Lemma INT_word (i : nat) :
  (i < 2 ^ 32)%nat -> Rfc2898.INT i = bytes_of_word (N.of_nat i).
Proof.
  intros H. unfold Rfc2898.INT, bytes_of_word. cbn [map].
  assert (E : forall k, N.of_nat ((i / 256 ^ k) mod 256)
                        = N.land (N.shiftr (N.of_nat i) (8 * N.of_nat k)) 255).
  { intros k. change 255%N with (N.ones 8). rewrite N.land_ones, N.shiftr_div_pow2.
    rewrite Nat2N.inj_mod, Nat2N.inj_div, Nat2N.inj_pow.
    change (N.of_nat 256) with (2 ^ 8)%N. rewrite <- N.pow_mul_r. reflexivity. }
  rewrite !E. reflexivity.
Qed.

Lemma iterate_folds (P S : bytes) (i n j : nat) (acc : bytes) :
  pbkdf2_iterate algo_SHA256 P n (Rfc2898.U P S i j) acc
  = fold_left xor_bytes (map (Rfc2898.U P S i) (seq (Datatypes.S j) n)) acc.
Proof.
  revert j acc. induction n as [|n IH]; intros j acc; [reflexivity|].
  cbn [pbkdf2_iterate seq map fold_left].
  change (HMAC algo_SHA256 P (Rfc2898.U P S i j)) with (Rfc2898.U P S i (Datatypes.S j)).
  apply IH.
Qed.

Lemma block_is_F (P S : bytes) (c i : nat) :
  (i < 2 ^ 32)%nat ->
  pbkdf2_block algo_SHA256 P S (c - 1) (N.of_nat i) = Rfc2898.F P S c i.
Proof.
  intros H. unfold pbkdf2_block, Rfc2898.F. rewrite <- (INT_word i H).
  change (HMAC algo_SHA256 P (S ++ Rfc2898.INT i)) with (Rfc2898.U P S i 0).
  apply iterate_folds.
Qed.

Lemma blocks_needed (w : nat) : ((4 * w + 31) / 32 = (w + 8 - 1) / 8)%nat.
Proof.
  replace 32%nat with (4 * 8)%nat by reflexivity.
  rewrite <- Nat.Div0.div_div.
  replace (4 * w + 31)%nat with (3 + (w + 7) * 4)%nat by lia.
  rewrite Nat.div_add by lia. change (3 / 4)%nat with 0%nat.
  f_equal. lia.
Qed.

Lemma pbkdf2_bytes_is_DK (P S : bytes) (c w : nat) :
  (w < 2 ^ 32)%nat ->
  pbkdf2_bytes algo_SHA256 P S (c - 1) w = Rfc2898.DK P S c (4 * w).
Proof.
  intros H. unfold pbkdf2_bytes, Rfc2898.DK. cbn [hash_words].
  rewrite blocks_needed. f_equal.
  rewrite flat_map_concat_map. f_equal.
  rewrite <- seq_shift, map_map. apply map_ext_in. intros i Hi.
  apply in_seq in Hi. apply block_is_F.
  assert ((w + 8 - 1) / 8 <= w)%nat.
  { destruct w as [|w']; [reflexivity|]. apply Nat.Div0.div_le_upper_bound. lia. }
  lia.
Qed.

Lemma key_words_plain (words : positive) :
  key_words (div32 (Dec (Zpos (32 * words)) 0)) = Pos.to_nat words.
Proof.
  unfold key_words, div32, ceiling. change (0 <=? 0 - 5)%Z with false. cbv iota.
  change (- (0 - 5))%Z with 5%Z.
  replace (- (Z.pos (32 * words) * 3125))%Z with (- Z.pos words * 10 ^ 5)%Z by lia.
  rewrite Z.div_mul by lia. lia.
Qed.

Lemma extra_iterations_plain (iters : positive) :
  extra_iterations (Num (Dec (Zpos iters) 0)) = (Pos.to_nat iters - 1)%nat.
Proof.
  unfold extra_iterations, to_number, ceiling.
  change (0 <=? 0)%Z with true. cbv iota. rewrite Z.pow_0_r, Z.mul_1_r. lia.
Qed.

Lemma derive_key_plain (config : value) (password : string) (salt : bytes)
      (words iters : positive) :
  key_parameters config (32 * words) iters ->
  derive_key (Str password) salt config
  = (pw <- Utf8_parse password ;;
     Ok (pbkdf2_bytes algo_SHA256 pw salt (Pos.to_nat iters - 1) (Pos.to_nat words)))%js.
Proof.
  intros [Hk Hi]. unfold derive_key, pbkdf2_options. rewrite Hk, Hi. cbn [JS.bind].
  destruct browser_calls as (E1 & E2 & _). rewrite E2.
  unfold PBKDF2. cbn [keySize iterations hasher].
  change (ToNumber (Num (Dec (Z.pos (32 * words)) 0))) with (Dec (Z.pos (32 * words)) 0).
  now rewrite key_words_plain, extra_iterations_plain.
Qed.

Lemma decryptData_same_parameters (config1 config2 encrypted password : value)
      (keyBits iters : positive) :
  key_parameters config1 keyBits iters -> key_parameters config2 keyBits iters ->
  decryptData encrypted password config1 = decryptData encrypted password config2.
Proof.
  intros [K1 I1] [K2 I2].
  unfold decryptData, decryptData_try, decrypt_to_string, derive_key, pbkdf2_options.
  now rewrite K1, I1, K2, I2.
Qed.

(** C4.  The key that lines 73-77 derive is a function of the password,
    the salt, the iteration count and the key size, and of nothing else:
    two configs that hold the same two numbers give the same key to every
    password and salt, whatever else they hold, and that key is, octet for
    octet, the derived key of PBKDF2 (RFC 2898) with HMAC-SHA-256 for the
    UTF-8 form of the password.  [decryptData] as a whole returns the same
    value in any two sessions and worlds that hand it the same bundle,
    password and parameters. *)
Theorem key_derivation_deterministic (config1 config2 : value) (password : string)
        (salt : bytes) (words iters : positive) :
  key_parameters config1 (32 * words) iters ->
  key_parameters config2 (32 * words) iters ->
  (Z.pos words < 2 ^ 32)%Z ->
  derive_key (Str password) salt config1 = derive_key (Str password) salt config2 /\
  derive_key (Str password) salt config1
  = (pw <- Utf8_parse password ;;
     Ok (Rfc2898.DK pw salt (Pos.to_nat iters) (4 * Pos.to_nat words)))%js /\
  (forall (W1 W2 : World) (s1 s2 : State) (encrypted : value),
      password <> ""%string ->
      fetch_json W1 url_config = Ok config1 -> fetch_json W2 url_config = Ok config2 ->
      fetch_json W1 url_cases = Ok encrypted -> fetch_json W2 url_cases = Ok encrypted ->
      exists returned,
        find is_decrypted (events_since s1 (run (submitPassword W1 password) s1))
        = Some (Decrypted encrypted (Str password) config1 returned) /\
        find is_decrypted (events_since s2 (run (submitPassword W2 password) s2))
        = Some (Decrypted encrypted (Str password) config2 returned)).
Proof.
  intros H1 H2 Hw.
  assert (Hn : (Pos.to_nat words < 2 ^ 32)%nat).
  { apply Nat2Z.inj_lt. rewrite positive_nat_Z, Nat2Z.inj_pow. exact Hw. }
  split; [|split].
  - now rewrite (derive_key_plain config1 password salt words iters H1),
                (derive_key_plain config2 password salt words iters H2).
  - rewrite (derive_key_plain config1 password salt words iters H1).
    destruct (Utf8_parse password) as [pw|e]; [|reflexivity]. cbn [JS.bind].
    now rewrite pbkdf2_bytes_is_DK.
  - intros W1 W2 s1 s2 encrypted Hp C1 C2 E1 E2.
    exists (decryptData encrypted (Str password) config1). split.
    + exact (first_decrypt W1 s1 password config1 encrypted Hp C1 E1).
    + rewrite (decryptData_same_parameters config1 config2 encrypted (Str password)
                 (32 * words) iters H1 H2).
      exact (first_decrypt W2 s2 password config2 encrypted Hp C2 E2).
Qed.

(** The configs of the scenarios, one naming SHA-256 and one SHA-1, in
    two sessions. *)
Lemma key_derivation_deterministic_witness :
  let W1 := Scenario.world in
  let W2 := Scenario.site (Scenario.files Scenario.config_sha1 Scenario.envelope) in
  let s2 := run (submitPassword W1 "ASTHMAPOSTs") initial in
  key_parameters Scenario.config 256 2 /\ key_parameters Scenario.config_sha1 256 2 /\
  derive_key (Str "ASTHMAPOSTS") Scenario.salt Scenario.config
  = derive_key (Str "ASTHMAPOSTS") Scenario.salt Scenario.config_sha1 /\
  derive_key (Str "ASTHMAPOSTS") Scenario.salt Scenario.config
  = Ok (Rfc2898.DK (bytes_of_string "ASTHMAPOSTS") Scenario.salt 2 32) /\
  exists returned,
    find is_decrypted (events_since initial (run (submitPassword W1 "ASTHMAPOSTS") initial))
    = Some (Decrypted Scenario.envelope (Str "ASTHMAPOSTS") Scenario.config returned) /\
    find is_decrypted (events_since s2 (run (submitPassword W2 "ASTHMAPOSTS") s2))
    = Some (Decrypted Scenario.envelope (Str "ASTHMAPOSTS") Scenario.config_sha1 returned).
Proof.
  assert (K1 : key_parameters Scenario.config (32 * 8) 2) by (split; reflexivity).
  assert (K2 : key_parameters Scenario.config_sha1 (32 * 8) 2) by (split; reflexivity).
  split; [exact K1|]. split; [exact K2|].
  destruct (key_derivation_deterministic Scenario.config Scenario.config_sha1
              "ASTHMAPOSTS" Scenario.salt 8 2 K1 K2 eq_refl) as (A & B & C).
  split; [exact A|]. split; [exact B|].
  apply (C Scenario.world
           (Scenario.site (Scenario.files Scenario.config_sha1 Scenario.envelope))
           initial (run (submitPassword Scenario.world "ASTHMAPOSTs") initial)
           Scenario.envelope);
    [apply Runs.not_empty | reflexivity | reflexivity | reflexivity | reflexivity].
Defined.

End KeyDerivation.

(** ** A start-up that fails *)

(** The bundle of section 8 on a page whose overview cannot be drawn. *)
Lemma startup_failure_is_unhandled_witness :
  let W := Sample.broken_overview in
  let r := submitPassword W "ASTHMAPOSTS" initial in
  let s' := snd r in
  dom_throws W "renderOverview" = true /\
  truthy (decryptData Scenario.envelope (Str "ASTHMAPOSTS") Scenario.config) = true /\
  (forall s1, initializeApp W s1 = (Throw TypeError, s1)) /\
  fst r = Ok tt /\
  modal_hidden s' = true /\ app_hidden s' = false /\
  password_error s' = msg_decrypting /\
  lateAwakeningData s' = lateAwakeningData initial /\
  lateAwakeningCases s' = lateAwakeningCases initial /\
  events_since initial s' =
    [Fetched url_config (Ok Scenario.config);
     Fetched url_cases (Ok Scenario.envelope);
     Decrypted Scenario.envelope (Str "ASTHMAPOSTS") Scenario.config
               (decryptData Scenario.envelope (Str "ASTHMAPOSTS") Scenario.config);
     Fetched url_metadata (Ok (Arr []))].
Proof.
  split; [reflexivity|]. split; [vm_compute; reflexivity|].
  apply (startup_failure_is_unhandled Sample.broken_overview initial "ASTHMAPOSTS"
           Scenario.config Scenario.envelope (Arr []));
    [apply Runs.not_empty | reflexivity | reflexivity | vm_compute; reflexivity
     | reflexivity | right; left; reflexivity].
Defined.

(** ** Doubles that hold integers *)

Module DoubleFacts.

Import Double.
Local Open Scope Z_scope.

Lemma scale_pos : 0 < scale.
Proof. unfold scale. apply Z.pow_pos_nonneg; lia. Qed.

Lemma rne_exact (n q : Z) : 0 < q -> rne (n * q) q = n.
Proof.
  intros Hq. unfold rne. rewrite Z.mod_mul by lia. rewrite Z.div_mul by lia.
  replace (2 * 0) with 0 by lia.
  destruct (Z.compare_spec 0 q); lia.
Qed.

(** A multiple of [2^-1074] with at most 53 significant bits... here: an
    integer of at most 53 bits times the scale is left as it is. *)
Lemma nearest_integer (z : Z) : 0 <= z < 2 ^ 53 -> nearest (z * scale) 1 = z * scale.
Proof.
  intros Hz. unfold nearest. rewrite Z.div_1_r.
  set (bits := Z.log2 (z * scale) + 1).
  set (shift := Z.max 0 (bits - 53)).
  assert (Hs : 0 <= shift <= 1074).
  { subst shift bits. destruct (Z.eq_dec z 0) as [->|Hnz].
    - rewrite Z.mul_0_l. change (Z.log2 0) with 0. lia.
    - assert (Z.log2 (z * scale) = Z.log2 z + 1074).
      { unfold scale. rewrite Z.log2_mul_pow2; lia. }
      assert (Z.log2 z < 53) by (apply Z.log2_lt_pow2; lia).
      lia. }
  rewrite Z.mul_1_l.
  assert (Hd : z * scale = (z * 2 ^ (1074 - shift)) * 2 ^ shift).
  { unfold scale. rewrite <- Z.mul_assoc, <- Z.pow_add_r by lia. do 2 f_equal. lia. }
  rewrite Hd at 1. rewrite rne_exact by (apply Z.pow_pos_nonneg; lia).
  symmetry. exact Hd.
Qed.

Lemma round_integer (z : Z) : Z.abs z < 2 ^ 53 -> round (z * scale) 1 = dFin (z * scale).
Proof.
  intros Hz. unfold round.
  pose proof scale_pos as Hs.
  rewrite Z.abs_mul, (Z.abs_eq scale) by lia.
  rewrite nearest_integer by lia.
  assert (Hh : (huge <=? Z.abs z * scale) = false).
  { apply Z.leb_gt. unfold huge, scale.
    replace 2098 with (1024 + 1074) by lia. rewrite Z.pow_add_r by lia.
    apply Z.mul_lt_mono_pos_r; [apply Z.pow_pos_nonneg; lia|].
    assert (2 ^ 53 < 2 ^ 1024) by (apply Z.pow_lt_mono_r; lia). lia. }
  rewrite Hh.
  destruct (Z.eq_dec z 0) as [->|Hnz].
  - reflexivity.
  - assert (Hn : (Z.abs z * scale =? 0) = false) by (apply Z.eqb_neq; nia).
    rewrite Hn. simpl. f_equal.
    rewrite Z.sgn_mul, (Z.sgn_pos scale) by lia.
    rewrite Z.mul_1_r, Z.mul_assoc.
    replace (Z.sgn z * Z.abs z) with z by (destruct z; simpl; lia). reflexivity.
Qed.

Lemma of_Z_exact (z : Z) : Z.abs z < 2 ^ 53 -> of_Z z = dFin (z * scale).
Proof. apply round_integer. Qed.

Lemma add_of_Z (a b : Z) :
  Z.abs a < 2 ^ 53 -> Z.abs b < 2 ^ 53 -> add (of_Z a) (of_Z b) = of_Z (a + b).
Proof.
  intros Ha Hb. rewrite (of_Z_exact a), (of_Z_exact b) by assumption.
  unfold add, of_Z. f_equal. lia.
Qed.

Lemma neg_of_Z (a : Z) : Z.abs a < 2 ^ 53 -> a <> 0 -> neg (of_Z a) = of_Z (- a).
Proof.
  intros Ha Hn. rewrite (of_Z_exact a), (of_Z_exact (- a)) by lia.
  pose proof scale_pos. unfold neg.
  destruct (a * scale) eqn:E; [nia| |]; f_equal; lia.
Qed.

Lemma sub_of_Z (a b : Z) :
  Z.abs a < 2 ^ 53 -> Z.abs b < 2 ^ 53 -> b <> 0 -> sub (of_Z a) (of_Z b) = of_Z (a - b).
Proof.
  intros Ha Hb Hn. unfold sub. rewrite neg_of_Z by assumption.
  rewrite add_of_Z by lia. f_equal.
Qed.

Lemma compare_of_Z (a b : Z) :
  Z.abs a < 2 ^ 53 -> Z.abs b < 2 ^ 53 -> compare (of_Z a) (of_Z b) = Some (a ?= b).
Proof.
  intros Ha Hb. rewrite (of_Z_exact a), (of_Z_exact b) by assumption.
  unfold compare, units. f_equal. pose proof scale_pos.
  destruct (Z.compare_spec a b); [subst; apply Z.compare_refl| |].
  - apply Z.compare_lt_iff. nia.
  - apply Z.compare_gt_iff. nia.
Qed.

Lemma lt_of_Z (a b : Z) :
  Z.abs a < 2 ^ 53 -> Z.abs b < 2 ^ 53 -> lt (of_Z a) (of_Z b) = (a <? b).
Proof.
  intros Ha Hb. unfold lt. rewrite compare_of_Z by assumption.
  unfold Z.ltb. destruct (a ?= b); reflexivity.
Qed.

Lemma le_of_Z (a b : Z) :
  Z.abs a < 2 ^ 53 -> Z.abs b < 2 ^ 53 -> le (of_Z a) (of_Z b) = (a <=? b).
Proof.
  intros Ha Hb. unfold le. rewrite compare_of_Z by assumption.
  unfold Z.leb. destruct (a ?= b); reflexivity.
Qed.

Lemma to_Z_of_Z (a : Z) : Z.abs a < 2 ^ 53 -> to_Z (of_Z a) = Some a.
Proof.
  intros Ha. rewrite of_Z_exact by assumption. unfold to_Z, units.
  pose proof scale_pos.
  rewrite Z.mod_mul by lia. simpl. rewrite Z.div_mul by lia. reflexivity.
Qed.

Lemma of_Z_zero : of_Z 0 = dFin 0.
Proof. rewrite of_Z_exact by (simpl; lia). reflexivity. Qed.

End DoubleFacts.

(** ** The pages *)

(** *** Text put into markup *)

Module Escaping.

Import Double Conv Pages.

(** Induction on strings two characters at a time. *)
Lemma string_ind2 (P : string -> Prop) :
  P "" -> (forall c, P (String c "")) ->
  (forall c c' s, P s -> P (String c' s) -> P (String c (String c' s))) ->
  forall s, P s.
Proof.
  intros H0 H1 H2.
  assert (H : forall s, P s /\ forall c, P (String c s)).
  { induction s as [|a s [IH1 IH2]]; [split; [exact H0 | exact H1]|].
    split; [apply IH2|]. intros c. apply H2; [exact IH1 | apply IH2]. }
  intros s. apply H.
Qed.

Lemma serialize_cons (c c' : ascii) (s : string) :
  Text.serialize_text (String c (String c' s)) =
  (if Ascii.eqb c "&" then "&amp;" ++ Text.serialize_text (String c' s)
   else if Ascii.eqb c "<" then "&lt;" ++ Text.serialize_text (String c' s)
   else if Ascii.eqb c ">" then "&gt;" ++ Text.serialize_text (String c' s)
   else if (Ascii.eqb c (ascii_of_nat 194) && Ascii.eqb c' (ascii_of_nat 160))%bool
        then "&nbsp;" ++ Text.serialize_text s
        else String c (Text.serialize_text (String c' s)))%string.
Proof. reflexivity. Qed.

Lemma serialize_one (c : ascii) :
  Text.serialize_text (String c "") =
  if Ascii.eqb c "&" then "&amp;"
  else if Ascii.eqb c "<" then "&lt;"
  else if Ascii.eqb c ">" then "&gt;"
  else String c "".
Proof. simpl. destruct (Ascii.eqb c "&"), (Ascii.eqb c "<"), (Ascii.eqb c ">"); reflexivity. Qed.

Ltac by_cases c c' :=
  destruct (Ascii.eqb c "&") eqn:E1;
  [|destruct (Ascii.eqb c "<") eqn:E2;
    [|destruct (Ascii.eqb c ">") eqn:E3;
      [|destruct (Ascii.eqb c (ascii_of_nat 194) && Ascii.eqb c' (ascii_of_nat 160))%bool eqn:E4]]].

Lemma serialize_no_angle (s : string) :
  count_char "<" (Text.serialize_text s) = 0%nat /\
  count_char ">" (Text.serialize_text s) = 0%nat.
Proof.
  induction s as [|c|c c' s IH1 IH2] using string_ind2.
  - split; reflexivity.
  - rewrite serialize_one.
    destruct (Ascii.eqb c "&") eqn:E1; [split; reflexivity|].
    destruct (Ascii.eqb c "<") eqn:E2; [split; reflexivity|].
    destruct (Ascii.eqb c ">") eqn:E3; [split; reflexivity|].
    simpl. rewrite E2, E3. split; reflexivity.
  - rewrite serialize_cons. by_cases c c'.
    + simpl. exact IH2.
    + simpl. exact IH2.
    + simpl. exact IH2.
    + simpl. exact IH1.
    + cbn [count_char]. rewrite E2, E3. exact IH2.
Qed.

Lemma unescape_serialize (s : string) : unescape (Text.serialize_text s) = s.
Proof.
  assert (Hc : forall c t, Ascii.eqb c "&" = false ->
                           unescape (String c t) = String c (unescape t)).
  { intros c t H. destruct c as [[] [] [] [] [] [] [] []]; try reflexivity; discriminate. }
  induction s as [|c|c c' s IH1 IH2] using string_ind2.
  - reflexivity.
  - rewrite serialize_one.
    destruct (Ascii.eqb_spec c "&") as [->|N1]; [reflexivity|].
    destruct (Ascii.eqb_spec c "<") as [->|N2]; [reflexivity|].
    destruct (Ascii.eqb_spec c ">") as [->|N3]; [reflexivity|].
    apply Hc. now apply Ascii.eqb_neq.
  - rewrite serialize_cons.
    destruct (Ascii.eqb_spec c "&") as [->|N1].
    { change (String "&" (unescape (Text.serialize_text (String c' s))) = String "&" (String c' s)).
      now rewrite IH2. }
    destruct (Ascii.eqb_spec c "<") as [->|N2].
    { change (String "<" (unescape (Text.serialize_text (String c' s))) = String "<" (String c' s)).
      now rewrite IH2. }
    destruct (Ascii.eqb_spec c ">") as [->|N3].
    { change (String ">" (unescape (Text.serialize_text (String c' s))) = String ">" (String c' s)).
      now rewrite IH2. }
    destruct (Ascii.eqb c (ascii_of_nat 194) && Ascii.eqb c' (ascii_of_nat 160))%bool eqn:E.
    + apply andb_prop in E. destruct E as [Ea Eb].
      apply Ascii.eqb_eq in Ea, Eb. subst c c'.
      change (String (ascii_of_nat 194) (String (ascii_of_nat 160)
                (unescape (Text.serialize_text s)))
              = String (ascii_of_nat 194) (String (ascii_of_nat 160) s)).
      now rewrite IH1.
    + rewrite Hc by now apply Ascii.eqb_neq. now rewrite IH2.
Qed.

Lemma escapeHtml_string (s : string) : escapeHtml (Str s) = Ok (Text.serialize_text s).
Proof. unfold escapeHtml. destruct s; reflexivity. Qed.

(** X5. Whatever [escapeHtml] returns holds neither [<] nor [>]: text put
    into the page through it cannot open or close a tag. *)
Theorem escapeHtml_no_markup (text : value) (h : string) :
  escapeHtml text = Ok h ->
  count_char "<" h = 0%nat /\ count_char ">" h = 0%nat.
Proof.
  unfold escapeHtml. destruct (negb (truthy text)).
  - intros H. injection H as <-. split; reflexivity.
  - destruct (ToString text) as [s|e]; [|discriminate].
    intros H. injection H as <-. apply serialize_no_angle.
Qed.

Lemma escapeHtml_no_markup_witness :
  escapeHtml (Str "a<b>") = Ok "a&lt;b&gt;" /\
  count_char "<" "a&lt;b&gt;" = 0%nat /\ count_char ">" "a&lt;b&gt;" = 0%nat.
Proof.
  split; [reflexivity|].
  apply (escapeHtml_no_markup (Str "a<b>") "a&lt;b&gt;"). reflexivity.
Defined.

(** X6. [escapeHtml] loses nothing of a string: two strings with the same
    escaped form are the same string ([unescape] reads the text back). *)
Theorem escapeHtml_keeps_texts_apart (a b : string) :
  escapeHtml (Str a) = escapeHtml (Str b) -> a = b.
Proof.
  rewrite !escapeHtml_string. intros H. injection H as H.
  rewrite <- (unescape_serialize a), <- (unescape_serialize b). now rewrite H.
Qed.

Lemma escapeHtml_keeps_texts_apart_witness :
  escapeHtml (Str "a<b") = escapeHtml (Str "a<b") /\ "a<b" = "a<b".
Proof.
  split; [reflexivity|]. apply (escapeHtml_keeps_texts_apart "a<b" "a<b"). reflexivity.
Defined.

Lemma br_counts (h : string) :
  count_char "<" h = 0%nat -> count_char ">" h = 0%nat ->
  count_char "<" (Text.br h) = count_char newline h /\
  count_char ">" (Text.br h) = count_char newline h.
Proof.
  induction h as [|c h IH]; [split; reflexivity|].
  cbn [count_char Text.br]. intros H1 H2.
  destruct (Ascii.eqb c "<") eqn:E1; [discriminate|].
  destruct (Ascii.eqb c ">") eqn:E2; [discriminate|].
  destruct (IH H1 H2) as [I1 I2].
  change (ascii_of_nat 10) with newline.
  destruct (Ascii.eqb c newline) eqn:E3.
  - cbn. now rewrite I1, I2.
  - cbn [count_char]. rewrite E1, E2, I1, I2. split; reflexivity.
Qed.

Lemma count_char_app (c : ascii) (a b : string) :
  count_char c (a ++ b) = (count_char c a + count_char c b)%nat.
Proof. induction a as [|x a IH]; simpl; [reflexivity|]. rewrite IH. lia. Qed.

Lemma serialize_newlines (s : string) :
  count_char newline (Text.serialize_text s) = count_char newline s.
Proof.
  induction s as [|c|c c' s IH1 IH2] using string_ind2.
  - reflexivity.
  - rewrite serialize_one.
    destruct (Ascii.eqb_spec c "&") as [->|N1]; [reflexivity|].
    destruct (Ascii.eqb_spec c "<") as [->|N2]; [reflexivity|].
    destruct (Ascii.eqb_spec c ">") as [->|N3]; reflexivity.
  - rewrite serialize_cons.
    destruct (Ascii.eqb_spec c "&") as [->|N1]; [rewrite count_char_app, IH2; reflexivity|].
    destruct (Ascii.eqb_spec c "<") as [->|N2]; [rewrite count_char_app, IH2; reflexivity|].
    destruct (Ascii.eqb_spec c ">") as [->|N3]; [rewrite count_char_app, IH2; reflexivity|].
    destruct (Ascii.eqb c (ascii_of_nat 194) && Ascii.eqb c' (ascii_of_nat 160))%bool eqn:E.
    + apply andb_prop in E. destruct E as [Ea Eb].
      apply Ascii.eqb_eq in Ea, Eb. subst c c'. rewrite count_char_app, IH1. reflexivity.
    + change (count_char newline (String c ?x))
        with ((if Ascii.eqb c newline then 1 else 0) + count_char newline x)%nat.
      now rewrite IH2.
Qed.

(** X7. In the markup made for the body of a post or a comment,
    [escapeHtml(body).replace(/\n/g, '<br>')], the only tags are line
    breaks: it has as many [<] and as many [>] as the body has newlines. *)
Theorem body_tags_are_line_breaks (s h : string) :
  body_html (Ok (Str s)) = Ok h ->
  count_char "<" h = count_char newline s /\
  count_char ">" h = count_char newline s.
Proof.
  unfold body_html. cbn [JS.bind]. rewrite escapeHtml_string. cbn [JS.bind].
  intros H. injection H as <-.
  destruct (serialize_no_angle s) as [A B].
  destruct (br_counts _ A B) as [C D].
  now rewrite C, D, serialize_newlines.
Qed.

Lemma body_tags_are_line_breaks_witness :
  let s := String "<" (String newline "x") in
  body_html (Ok (Str s)) = Ok "&lt;<br>x" /\
  count_char "<" "&lt;<br>x" = count_char newline s /\
  count_char ">" "&lt;<br>x" = count_char newline s.
Proof.
  split; [reflexivity|].
  apply (body_tags_are_line_breaks (String "<" (String newline "x")) "&lt;<br>x").
  reflexivity.
Defined.

End Escaping.

(** *** The charts of the overview *)

Module Counting.

Import Permutation.
Import Double Conv Pages DoubleFacts Sample.

Lemma own_put_same (k : string) (v : prim) (o : counts) : own k (put k v o) = Some v.
Proof.
  induction o as [|[k' v'] o IH]; simpl.
  - now rewrite String.eqb_refl.
  - destruct (String.eqb k' k) eqn:E; simpl; rewrite E; [reflexivity | exact IH].
Qed.

Lemma own_put_other (k k' : string) (v : prim) (o : counts) :
  k' <> k -> own k' (put k v o) = own k' o.
Proof.
  intros Hne. induction o as [|[k1 v1] o IH]; simpl.
  - destruct (String.eqb_spec k k'); [congruence | reflexivity].
  - destruct (String.eqb_spec k1 k) as [->|N]; simpl.
    + destruct (String.eqb_spec k k'); [congruence | reflexivity].
    + destruct (String.eqb_spec k1 k'); [reflexivity | exact IH].
Qed.

Lemma own_none (k : string) (o : counts) : own k o = None <-> ~ In k (map fst o).
Proof.
  induction o as [|[k' v'] o IH]; simpl; [tauto|].
  destruct (String.eqb_spec k' k) as [->|N].
  - split; [discriminate | intros H; exfalso; apply H; now left].
  - rewrite IH. tauto.
Qed.

Lemma keys_put (k : string) (v : prim) (o : counts) :
  map fst (put k v o) = match own k o with Some _ => map fst o | None => map fst o ++ [k] end.
Proof.
  induction o as [|[k' v'] o IH]; simpl; [reflexivity|].
  destruct (String.eqb_spec k' k) as [->|N]; simpl; [reflexivity|].
  rewrite IH. destruct (own k o); reflexivity.
Qed.

Lemma tally_snoc (ks : list string) (k k' : string) :
  tally (ks ++ [k]) k' = (tally ks k' + if string_dec k k' then 1 else 0)%nat.
Proof. unfold tally. rewrite count_occ_app. simpl. destruct (string_dec k k'); reflexivity. Qed.

Lemma of_nat_positive (n : nat) :
  (0 < n)%nat -> (Z.of_nat n < 2 ^ 53)%Z -> prim_truthy (PNum (of_nat n)) = true.
Proof.
  intros Hn Hb. unfold prim_truthy, of_nat. rewrite of_Z_exact by lia.
  pose proof scale_pos. unfold eq, is_nan, compare, units.
  destruct (Z.compare_spec (Z.of_nat n * scale) 0); try reflexivity; nia.
Qed.

Lemma counted_step {dom : Dom} (ks : list string) (k : string) (o : counts) :
  counted ks o -> is_inherited k = false -> (Z.of_nat (length ks) + 1 < 2 ^ 53)%Z ->
  counted (ks ++ [k]) (count_up k o).
Proof.
  intros (Hnd & Hin & Hown) Hk Hb.
  assert (Htl : forall x, (tally ks x <= length ks)%nat) by (intros x; apply count_occ_bound).
  assert (Hp : (k =? "__proto__") = false).
  { destruct (String.eqb_spec k "__proto__") as [->|]; [discriminate Hk | reflexivity]. }
  unfold count_up. destruct (own k o) as [p|] eqn:E.
  - assert (Hik : In k ks).
    { apply Hin. destruct (in_dec string_dec k (map fst o)) as [|N]; [assumption|].
      apply own_none in N. congruence. }
    rewrite (Hown k Hik) in E. injection E as <-.
    assert (Hpos : (0 < tally ks k)%nat) by (apply count_occ_In; exact Hik).
    rewrite of_nat_positive by (specialize (Htl k); lia).
    unfold plus. cbn [prim_to_number]. unfold of_nat at 1.
    rewrite add_of_Z by (specialize (Htl k); simpl; lia).
    split; [|split].
    + rewrite keys_put, (Hown k Hik). exact Hnd.
    + intros x. rewrite keys_put, (Hown k Hik), in_app_iff, Hin. simpl.
      intuition (subst; auto).
    + intros x Hx. destruct (string_dec x k) as [->|N].
      * rewrite own_put_same, tally_snoc. destruct (string_dec k k); [|congruence].
        unfold of_nat. do 3 f_equal. lia.
      * rewrite own_put_other by exact N. rewrite tally_snoc.
        destruct (string_dec k x); [congruence|]. rewrite Nat.add_0_r.
        apply Hown. apply in_app_iff in Hx. destruct Hx as [|[|[]]]; congruence.
  - rewrite Hp, Hk.
    assert (Hnk : ~ In k ks) by (rewrite <- Hin; now apply own_none).
    split; [|split].
    + rewrite keys_put, E.
      apply (Permutation_NoDup (Permutation_cons_append _ _)).
      constructor; [now apply own_none | exact Hnd].
    + intros x. rewrite keys_put, E, !in_app_iff, Hin. reflexivity.
    + intros x Hx. destruct (string_dec x k) as [->|N].
      * rewrite own_put_same, tally_snoc. destruct (string_dec k k); [|congruence].
        unfold tally at 1. rewrite (proj1 (count_occ_not_In string_dec ks k) Hnk).
        reflexivity.
      * rewrite own_put_other by exact N. rewrite tally_snoc.
        destruct (string_dec k x); [congruence|]. rewrite Nat.add_0_r.
        apply Hown. apply in_app_iff in Hx. destruct Hx as [|[|[]]]; congruence.
Qed.

Lemma counted_all {dom : Dom} (rest done : list string) (o : counts) :
  counted done o ->
  (forall k, In k rest -> is_inherited k = false) ->
  (Z.of_nat (length (done ++ rest)) < 2 ^ 53)%Z ->
  counted (done ++ rest) (fold_left (fun o k => count_up k o) rest o).
Proof.
  revert done o. induction rest as [|k rest IH]; intros done o Hc Hk Hb.
  - now rewrite app_nil_r.
  - simpl. replace (done ++ k :: rest) with ((done ++ [k]) ++ rest)
      by (now rewrite <- app_assoc).
    apply IH.
    + apply counted_step; [exact Hc | apply Hk; now left |].
      rewrite length_app in Hb. simpl in Hb. lia.
    + intros x Hx. apply Hk. now right.
    + now rewrite <- app_assoc.
Qed.

Lemma count_by_keys {dom : Dom} (key : value -> result string) (items : list value)
      (ks : list string) (o : counts) :
  map key items = map Ok ks ->
  count_by key items o = Ok (fold_left (fun o k => count_up k o) ks o).
Proof.
  revert ks o. induction items as [|c items IH]; intros [|k ks] o H; try discriminate.
  - reflexivity.
  - simpl in H. injection H as Hc H. simpl. rewrite Hc. cbn [JS.bind]. now apply IH.
Qed.

(** [entries] only changes the order. *)
Lemma insert_index_perm (k : string) (i : Z) (v : prim) (l : list (Z * (string * prim))) :
  Permutation (insert_index k i v l) ((i, (k, v)) :: l).
Proof.
  induction l as [|[j e] l IH]; simpl; [reflexivity|].
  destruct (i <? j)%Z; [reflexivity|].
  rewrite IH. apply perm_swap.
Qed.

Lemma index_entries_perm (o : counts) (acc : list (Z * (string * prim))) :
  Permutation
    (map snd (fold_left (fun acc e =>
                           match array_index (fst e) with
                           | Some i => insert_index (fst e) i (snd e) acc
                           | None => acc
                           end) o acc))
    (map snd acc ++
     filter (fun e => match array_index (fst e) with Some _ => true | None => false end) o).
Proof.
  revert acc. induction o as [|[k v] o IH]; intros acc; simpl.
  - now rewrite app_nil_r.
  - rewrite IH. destruct (array_index k) as [i|]; [|reflexivity].
    rewrite (Permutation_map snd (insert_index_perm k i v acc)). simpl.
    apply Permutation_middle.
Qed.

Lemma filter_split {A : Type} (p : A -> bool) (l : list A) :
  Permutation (filter p l ++ filter (fun x => negb (p x)) l) l.
Proof.
  induction l as [|x l IH]; simpl; [reflexivity|].
  destruct (p x); simpl.
  - now apply perm_skip.
  - rewrite <- Permutation_middle. now apply perm_skip.
Qed.

Lemma entries_perm (o : counts) : Permutation (entries o) o.
Proof.
  unfold entries, index_entries. rewrite index_entries_perm. simpl.
  rewrite <- (filter_split
                (fun e => match array_index (fst e) with Some _ => true | None => false end) o)
    at 3.
  apply Permutation_app_head.
  erewrite filter_ext; [reflexivity|].
  intros [k v]. simpl. destruct (array_index k); reflexivity.
Qed.

Lemma own_of_entry (o : counts) (k : string) (v : prim) :
  NoDup (map fst o) -> In (k, v) o -> own k o = Some v.
Proof.
  induction o as [|[k' v'] o IH]; simpl; [tauto|].
  intros Hnd [H|H].
  - injection H as -> ->. now rewrite String.eqb_refl.
  - inversion Hnd as [|? ? Hni Hnd']; subst.
    destruct (String.eqb_spec k' k) as [->|N].
    + exfalso. apply Hni. change k with (fst (k, v)). now apply in_map.
    + now apply IH.
Qed.

Lemma tally_cons (a : string) (ks : list string) (k : string) :
  tally (a :: ks) k = ((if string_dec a k then 1 else 0) + tally ks k)%nat.
Proof. unfold tally. simpl. destruct (string_dec a k); reflexivity. Qed.

Lemma tally_total (labels ks : list string) :
  NoDup labels -> (forall k, In k ks -> In k labels) ->
  list_sum (map (tally ks) labels) = length ks.
Proof.
  intros Hnd. induction ks as [|a ks IH]; intros Hin.
  - unfold tally. simpl. clear. induction labels as [|l labels IH]; simpl; auto.
  - simpl. rewrite <- IH by (intros k Hk; apply Hin; now right).
    assert (Ha : In a labels) by (apply Hin; now left).
    clear IH Hin. induction labels as [|l labels IHl]; [destruct Ha|].
    inversion Hnd as [|? ? Hni Hnd']; subst. cbn [map list_sum].
    rewrite tally_cons. destruct (string_dec a l) as [->|N].
    + assert (Hz : map (tally (l :: ks)) labels = map (tally ks) labels).
      { apply map_ext_in. intros x Hx. rewrite tally_cons.
        destruct (string_dec l x); [subst; contradiction | reflexivity]. }
      rewrite Hz. unfold list_sum. cbn [fold_right]. lia.
    + destruct Ha as [Ha|Ha]; [congruence|]. specialize (IHl Hnd' Ha).
      unfold list_sum in *. cbn [fold_right] in *. lia.
Qed.

Lemma chart_of_counts {dom : Dom} (ks : list string) :
  (forall k, In k ks -> is_inherited k = false) ->
  (Z.of_nat (length ks) < 2 ^ 53)%Z ->
  let o := fold_left (fun o k => count_up k o) ks [] in
  let labels := map fst (entries o) in
  map snd (entries o) = map (fun k => PNum (of_nat (tally ks k))) labels /\
  NoDup labels /\ (forall k, In k labels <-> In k ks) /\
  list_sum (map (tally ks) labels) = length ks.
Proof.
  intros Hk Hb o labels.
  assert (Hc : counted ks o).
  { apply (counted_all ks [] []); [|exact Hk | exact Hb].
    split; [constructor|]. split; [reflexivity | intros k []]. }
  destruct Hc as (Hnd & Hin & Hown).
  pose proof (entries_perm o) as Hp.
  assert (Hl : Permutation labels (map fst o)) by (apply Permutation_map; exact Hp).
  assert (Hnl : NoDup labels) by (apply (Permutation_NoDup (Permutation_sym Hl)); exact Hnd).
  assert (Hil : forall k, In k labels <-> In k ks).
  { intros k. rewrite <- Hin. split; apply Permutation_in; [|symmetry]; exact Hl. }
  split; [|split; [exact Hnl | split; [exact Hil|]]].
  - subst labels. rewrite map_map. apply map_ext_in. intros [k v] He. simpl.
    assert (Ho : In (k, v) o) by (apply (Permutation_in _ Hp); exact He).
    pose proof (own_of_entry o k v Hnd Ho) as H1.
    rewrite Hown in H1; [congruence|].
    apply Hin. change k with (fst (k, v)). now apply in_map.
  - apply tally_total; [exact Hnl | intros k Hk'; now apply Hil].
Qed.

(** X8. The doughnut chart of the overview shows every mechanism (the label
    up to the first [ (]) of the metadata once, with the number of cases
    that have it, and the numbers add up to the number of cases; this needs
    that no mechanism is a name that objects inherit, such as
    [constructor]. *)
Theorem mechanism_chart_counts_cases {dom : Dom} (b : Browser) (items : list value)
        (stems : list string) :
  metadata (globals b) = Arr items ->
  map mechanism_stem items = map Ok stems ->
  (forall k, In k stems -> is_inherited k = false) ->
  (Z.of_nat (length items) < 2 ^ 53)%Z ->
  exists labels,
    page (snd (renderMechanismChart b)) =
      page b ++ [NewChart "mechanism-chart"
                   (Doughnut labels (map (fun k => PNum (of_nat (tally stems k))) labels))] /\
    NoDup labels /\ (forall k, In k labels <-> In k stems) /\
    list_sum (map (tally stems) labels) = length items.
Proof.
  intros Hm Hs Hk Hb.
  assert (Hlen : length stems = length items).
  { rewrite <- (length_map Ok stems), <- Hs. apply length_map. }
  rewrite <- Hlen in Hb.
  destruct (chart_of_counts stems Hk Hb) as (Hd & Hnd & Hin & Hsum).
  eexists. split; [|split; [exact Hnd | split; [exact Hin | now rewrite Hsum]]].
  unfold renderMechanismChart, bind_P, read, lift, new_Chart, bind_P, log.
  rewrite Hm. cbn [elements fst snd]. rewrite (count_by_keys _ _ _ _ Hs). cbn [fst snd].
  rewrite Hd. destruct (Chart_throws "mechanism-chart"); reflexivity.
Qed.

Lemma mechanism_chart_counts_cases_witness :
  let b := opened (loaded (Arr []) (Arr entries3) (Arr [])) in
  let stems := ["Prince"; "Spontaneous"; "Prince"] in
  map mechanism_stem entries3 = map Ok stems /\
  exists labels,
    page (snd (renderMechanismChart (dom := page0) b)) =
      page b ++ [NewChart "mechanism-chart"
                   (Doughnut labels (map (fun k => PNum (of_nat (tally stems k))) labels))] /\
    NoDup labels /\ (forall k, In k labels <-> In k stems) /\
    list_sum (map (tally stems) labels) = length entries3.
Proof.
  split; [reflexivity|].
  apply (mechanism_chart_counts_cases (dom := page0)
           (opened (loaded (Arr []) (Arr entries3) (Arr []))) entries3
           ["Prince"; "Spontaneous"; "Prince"]);
    [reflexivity | reflexivity | intros k [<-|[<-|[<-|[]]]]; reflexivity | reflexivity].
Defined.

(** X9. The bar chart of the overview shows every category of the metadata
    once, with the number of cases in it, and the numbers add up to the
    number of cases; again no category may be a name that objects
    inherit. *)
Theorem category_chart_counts_cases {dom : Dom} (b : Browser) (items : list value)
        (keys : list string) :
  metadata (globals b) = Arr items ->
  map category_key items = map Ok keys ->
  (forall k, In k keys -> is_inherited k = false) ->
  (Z.of_nat (length items) < 2 ^ 53)%Z ->
  exists labels,
    page (snd (renderCategoryChart b)) =
      page b ++ [NewChart "category-chart"
                   (Bar labels (map (fun k => PNum (of_nat (tally keys k))) labels))] /\
    NoDup labels /\ (forall k, In k labels <-> In k keys) /\
    list_sum (map (tally keys) labels) = length items.
Proof.
  intros Hm Hs Hk Hb.
  assert (Hlen : length keys = length items).
  { rewrite <- (length_map Ok keys), <- Hs. apply length_map. }
  rewrite <- Hlen in Hb.
  destruct (chart_of_counts keys Hk Hb) as (Hd & Hnd & Hin & Hsum).
  eexists. split; [|split; [exact Hnd | split; [exact Hin | now rewrite Hsum]]].
  unfold renderCategoryChart, bind_P, read, lift, new_Chart, bind_P, log.
  rewrite Hm. cbn [elements fst snd]. rewrite (count_by_keys _ _ _ _ Hs). cbn [fst snd].
  rewrite Hd. destruct (Chart_throws "category-chart"); reflexivity.
Qed.

Lemma category_chart_counts_cases_witness :
  let b := opened (loaded (Arr []) (Arr entries3) (Arr [])) in
  let keys := ["Asthma"; "COPD"; "Asthma"] in
  map category_key entries3 = map Ok keys /\
  exists labels,
    page (snd (renderCategoryChart (dom := page0) b)) =
      page b ++ [NewChart "category-chart"
                   (Bar labels (map (fun k => PNum (of_nat (tally keys k))) labels))] /\
    NoDup labels /\ (forall k, In k labels <-> In k keys) /\
    list_sum (map (tally keys) labels) = length entries3.
Proof.
  split; [reflexivity|].
  apply (category_chart_counts_cases (dom := page0)
           (opened (loaded (Arr []) (Arr entries3) (Arr []))) entries3
           ["Asthma"; "COPD"; "Asthma"]);
    [reflexivity | reflexivity | intros k [<-|[<-|[<-|[]]]]; reflexivity | reflexivity].
Defined.

End Counting.

(** *** The case browser *)

Module Browsing.

Import Double Conv Pages DoubleFacts Sample.

Lemma renders_unit {A : Type} (a : A) : renders (unit_P a).
Proof. intros b. simpl. repeat split. exists []. now rewrite app_nil_r. Qed.

Lemma renders_lift {A : Type} (r : result A) : renders (lift r).
Proof. intros b. simpl. repeat split. exists []. now rewrite app_nil_r. Qed.

Lemma renders_read {A : Type} (f : Browser -> A) : renders (read f).
Proof. intros b. simpl. repeat split. exists []. now rewrite app_nil_r. Qed.

Lemma renders_log (ev : DomEvent) : is_alert ev = false -> renders (log ev).
Proof. intros H b. simpl. repeat split. exists [ev]. simpl. now rewrite H. Qed.

Lemma renders_on {dom : Dom} (key : string) (ev : DomEvent) :
  is_alert ev = false -> renders (on key ev).
Proof.
  intros H. unfold on. destruct (present key); [now apply renders_log | apply renders_lift].
Qed.

Lemma renders_bind {A B : Type} (c : P A) (k : A -> P B) :
  renders c -> (forall a, renders (k a)) -> renders (bind_P c k).
Proof.
  intros Hc Hk b. unfold bind_P. specialize (Hc b). simpl in Hc.
  destruct (c b) as [[a|e] b1]; simpl in *.
  - specialize (Hk a b1). simpl in Hk.
    destruct Hc as (H1 & H2 & H3 & H4 & evs & H5 & H6).
    destruct Hk as (K1 & K2 & K3 & K4 & evs' & K5 & K6).
    repeat split; try congruence.
    exists (evs ++ evs'). rewrite K5, H5, existsb_app, H6, K6.
    split; [now rewrite app_assoc | reflexivity].
  - exact Hc.
Qed.

Lemma renders_forEach {A : Type} (l : list A) (i : nat) (f : A -> nat -> P unit) :
  (forall x j, renders (f x j)) -> renders (forEach l i f).
Proof.
  intros Hf. revert i. induction l as [|x l IH]; intros i; simpl.
  - apply renders_unit.
  - apply renders_bind; [apply Hf | intros _; apply IH].
Qed.

Ltac framed_with known :=
  repeat first
    [ apply renders_unit | apply renders_lift | apply renders_read
    | apply renders_log; reflexivity | apply renders_on; reflexivity
    | known
    | apply renders_bind; [|intros ?]
    | apply renders_forEach; intros ? ?
    | match goal with
      | |- renders (if ?c then _ else _) => destruct c
      | |- renders (match ?c with _ => _ end) => destruct c
      end ].

Lemma renders_new_Chart {dom : Dom} (canvas : string) (config : chart_config) :
  renders (new_Chart canvas config).
Proof. unfold new_Chart. framed_with fail. Qed.

Lemma renders_renderTimelineChart {dom : Dom} (dailyViews peakDay : value) (canvasId : string) :
  renders (renderTimelineChart dailyViews peakDay canvasId).
Proof. unfold renderTimelineChart. framed_with ltac:(apply renders_new_Chart). Qed.

Lemma renders_loadGiscus {dom : Dom} (postId : value) : renders (loadGiscus postId).
Proof. unfold loadGiscus. framed_with fail. Qed.

Ltac framed :=
  framed_with ltac:(first [ apply renders_new_Chart | apply renders_renderTimelineChart
                          | apply renders_loadGiscus ]).

Lemma renders_renderCaseFromData {dom : Dom} (c : value) : renders (renderCaseFromData c).
Proof. unfold renderCaseFromData. framed. Qed.

(** What [renderCase] does after its first statement. *)
Lemma renderCase_sets_index {dom : Dom} (index : double) (b : Browser) :
  let b' := snd (renderCase index b) in
  globals b' = globals b /\ currentCaseIndex b' = index /\
  currentCaseSource b' = currentCaseSource b /\
  currentLateCaseIndex b' = currentLateCaseIndex b /\
  exists evs, page b' = page b ++ evs /\ existsb is_alert evs = false.
Proof.
  unfold renderCase.
  match goal with
  | |- context [bind_P (set_currentCaseIndex index) ?k] => set (rest := k)
  end.
  assert (Hr : renders (rest tt)).
  { subst rest. cbv beta. framed. }
  unfold bind_P at 1. simpl.
  specialize (Hr (snd (set_currentCaseIndex index b))). simpl in Hr.
  exact Hr.
Qed.

Lemma of_decimal_integer (z : Z) : of_decimal z 0 = of_Z z.
Proof. unfold of_decimal, of_Z. simpl (0 <=? 0)%Z. cbv iota. now rewrite Z.pow_0_r, Z.mul_1_r. Qed.

Lemma length_number (items : list value) :
  number_of (length_of (Arr items)) = Ok (of_nat (length items)).
Proof.
  unfold number_of, length_of, ToNumber, ToPrimitive, of_number. cbn [JS.bind prim_to_number].
  now rewrite of_decimal_integer.
Qed.

#[local] Arguments of_Z : simpl never.
#[local] Arguments to_string : simpl never.
#[local] Arguments sub : simpl never.
#[local] Arguments add : simpl never.
#[local] Arguments lt : simpl never.
#[local] Arguments gt : simpl never.

Lemma prevCase_runs {dom : Dom} (b : Browser) (i : Z) :
  currentCaseIndex b = of_Z i -> (Z.abs i < 2 ^ 53)%Z ->
  prevCase b =
  if (0 <? i)%Z then
    if present "case-selector" then
      renderCase (of_Z (i - 1))
        (snd (log (SetValue "case-selector" (to_string (of_Z (i - 1)))) b))
    else (Throw TypeError, b)
  else (Ok tt, b).
Proof.
  intros Hi Hb. unfold prevCase, bind_P at 1, read at 1.
  rewrite Hi. unfold gt. rewrite <- of_Z_zero, lt_of_Z by (simpl; lia).
  destruct (0 <? i)%Z eqn:Hpos; [|reflexivity].
  apply Z.ltb_lt in Hpos.
  unfold bind_P at 1, on. destruct (present "case-selector"); [|reflexivity].
  cbn [log fst snd]. unfold bind_P at 1, read at 1. cbn [fst snd currentCaseIndex].
  rewrite Hi, sub_of_Z by (simpl; lia). reflexivity.
Qed.

Lemma nextCase_runs {dom : Dom} (b : Browser) (items : list value) (i : Z) :
  casesData (globals b) = Arr items -> (Z.of_nat (length items) < 2 ^ 53)%Z ->
  currentCaseIndex b = of_Z i -> (Z.abs i < 2 ^ 53)%Z ->
  nextCase b =
  if (i <? Z.of_nat (length items) - 1)%Z then
    if present "case-selector" then
      renderCase (of_Z (i + 1))
        (snd (log (SetValue "case-selector" (to_string (of_Z (i + 1)))) b))
    else (Throw TypeError, b)
  else (Ok tt, b).
Proof.
  intros Hc Hn Hi Hb. unfold nextCase, bind_P at 1, read at 1.
  unfold bind_P at 1, read at 1. rewrite Hc, Hi.
  unfold bind_P at 1. rewrite length_number. cbn [lift fst snd].
  unfold of_nat. rewrite sub_of_Z by (simpl; lia).
  rewrite lt_of_Z by lia.
  destruct (i <? Z.of_nat (length items) - 1)%Z eqn:Hlt; [|reflexivity].
  apply Z.ltb_lt in Hlt.
  unfold bind_P at 1, on. destruct (present "case-selector"); [|reflexivity].
  cbn [log fst snd]. unfold bind_P at 1, read at 1. cbn [fst snd currentCaseIndex].
  rewrite Hi, add_of_Z by (simpl; lia). reflexivity.
Qed.

Lemma prevCase_steps {dom : Dom} (b : Browser) (i : Z) :
  currentCaseIndex b = of_Z i -> (Z.abs i < 2 ^ 53)%Z ->
  let b' := snd (prevCase b) in
  globals b' = globals b /\
  (currentCaseIndex b' = of_Z i \/ (0 < i)%Z /\ currentCaseIndex b' = of_Z (i - 1)) /\
  ((i <= 0)%Z -> b' = b).
Proof.
  intros Hi Hb b'. subst b'. rewrite (prevCase_runs b i Hi Hb).
  destruct (0 <? i)%Z eqn:Hpos.
  - apply Z.ltb_lt in Hpos. destruct (present "case-selector").
    + match goal with |- context [renderCase ?x ?y] =>
        destruct (renderCase_sets_index x y) as (G & I & _) end.
      cbn [globals log snd] in G. split; [exact G|].
      split; [right; split; [lia | exact I] | lia].
    + cbn [snd]. split; [reflexivity|]. split; [now left | lia].
  - cbn [snd]. split; [reflexivity|]. split; [now left | reflexivity].
Qed.

Lemma nextCase_steps {dom : Dom} (b : Browser) (items : list value) (i : Z) :
  casesData (globals b) = Arr items -> (Z.of_nat (length items) < 2 ^ 53)%Z ->
  currentCaseIndex b = of_Z i -> (Z.abs i < 2 ^ 53)%Z ->
  let b' := snd (nextCase b) in
  globals b' = globals b /\
  (currentCaseIndex b' = of_Z i \/
   (i < Z.of_nat (length items) - 1)%Z /\ currentCaseIndex b' = of_Z (i + 1)) /\
  ((Z.of_nat (length items) - 1 <= i)%Z -> b' = b).
Proof.
  intros Hc Hn Hi Hb b'. subst b'. rewrite (nextCase_runs b items i Hc Hn Hi Hb).
  destruct (i <? Z.of_nat (length items) - 1)%Z eqn:Hlt.
  - apply Z.ltb_lt in Hlt. destruct (present "case-selector").
    + match goal with |- context [renderCase ?x ?y] =>
        destruct (renderCase_sets_index x y) as (G & I & _) end.
      cbn [globals log snd] in G. split; [exact G|].
      split; [right; split; [lia | exact I] | lia].
    + cbn [snd]. split; [reflexivity|]. split; [now left | lia].
  - apply Z.ltb_ge in Hlt. cbn [snd]. split; [reflexivity|]. split; [now left | reflexivity].
Qed.

Lemma viewCase_steps {dom : Dom} (b : Browser) (index : double) :
  let b' := snd (viewCase index b) in
  globals b' = globals b /\
  (currentCaseIndex b' = currentCaseIndex b \/ currentCaseIndex b' = index).
Proof.
  intros b'. subst b'. unfold viewCase, bind_P, on, log.
  repeat (destruct (present _); [|cbn [lift snd]; auto]).
  match goal with |- context [renderCase ?x ?y] =>
    destruct (renderCase_sets_index x y) as (G & I & _) end.
  cbn [globals] in G. auto.
Qed.

(** X10. The case browser never leaves the list: when the current index is
    -1 (nothing shown yet) or an index of [casesData], it still is after
    Previous, after Next and after a View button whose number is an index
    of the list, whether or not the rendering succeeds. *)
Theorem browsing_stays_in_range (items : list value) (b b' : Browser) :
  (Z.of_nat (length items) < 2 ^ 53)%Z ->
  browsing items b -> click b b' -> browsing items b'.
Proof.
  intros Hn [Hc [i [Hi Hr]]] Hstep.
  destruct Hstep as [dom b | dom b | dom b items' k Hc' Hk].
  - destruct (prevCase_steps b i Hi) as (G & I & _); [lia|].
    split; [now rewrite G|].
    destruct I as [I|[Hpos I]]; [exists i | exists (i - 1)%Z]; split; auto; lia.
  - destruct (nextCase_steps b items i Hc Hn Hi) as (G & I & _); [lia|].
    split; [now rewrite G|].
    destruct I as [I|[Hlt I]]; [exists i | exists (i + 1)%Z]; split; auto; lia.
  - destruct (viewCase_steps b (of_nat k)) as (G & I).
    split; [now rewrite G|].
    assert (items' = items) by congruence. subst items'.
    destruct I as [I|I]; [exists i | exists (Z.of_nat k)]; split; auto; try congruence; lia.
Qed.

Lemma browsing_stays_in_range_witness :
  let items := [bare_case; bare_case] in
  let b := opened (loaded (Arr items) (Arr []) (Arr [])) in
  browsing items b /\ browsing items (snd (nextCase (dom := page0) b)).
Proof.
  assert (H : browsing [bare_case; bare_case]
                (opened (loaded (Arr [bare_case; bare_case]) (Arr []) (Arr [])))).
  { split; [reflexivity|]. exists (-1)%Z. split; [reflexivity | lia]. }
  split; [exact H|].
  apply (browsing_stays_in_range [bare_case; bare_case]
           (opened (loaded (Arr [bare_case; bare_case]) (Arr []) (Arr []))));
    [reflexivity | exact H | apply (click_next page0)].
Defined.

Ltac step_binds :=
  repeat match goal with
         | |- exists e, JS.bind ?r ?k = Throw e =>
           destruct r eqn:?; cbn [JS.bind]; [|eauto]
         end.

Lemma analysis_needs_exploration {dom : Dom} (exploration postId : value) :
  exploration = Undefined \/ exploration = Null ->
  renderAwakeningAnalysis exploration postId = Throw TypeError.
Proof. intros [->| ->]; reflexivity. Qed.

Lemma renderCase_html_throws {dom : Dom} (c : value) :
  c = Undefined \/ c = Null \/
  get_prop c "exploration" = Ok Undefined \/ get_prop c "exploration" = Ok Null ->
  exists e, renderCase_html c = Throw e.
Proof.
  intros [->|[->|H]]; [exists TypeError; reflexivity | exists TypeError; reflexivity |].
  unfold renderCase_html.
  assert (Hx : exists x, get_prop c "exploration" = Ok x /\ (x = Undefined \/ x = Null)).
  { destruct H as [H|H]; eauto. }
  destruct Hx as [x [Hx Hn]]. rewrite Hx.
  step_binds.
  match goal with
  | E : renderAwakeningAnalysis x _ = Ok _ |- _ =>
    rewrite (analysis_needs_exploration x _ Hn) in E; discriminate E
  end.
Qed.

(** X11. [renderCase] on an index that holds no case, or a case without
    an [exploration], throws, and it does so after it has made the index
    current and before it has touched the page: [currentCaseIndex] is the
    new index although the case on display is still the old one. *)
Theorem renderCase_needs_exploration {dom : Dom} (b : Browser) (index : double) (c : value) :
  at_index (casesData (globals b)) index = Ok c ->
  c = Undefined \/ c = Null \/
  get_prop c "exploration" = Ok Undefined \/ get_prop c "exploration" = Ok Null ->
  let r := renderCase index b in
  (exists e, fst r = Throw e) /\
  currentCaseIndex (snd r) = index /\
  page (snd r) = page b /\
  globals (snd r) = globals b.
Proof.
  intros Hc H r. destruct (renderCase_html_throws c H) as [e He].
  subst r. unfold renderCase, bind_P, set_currentCaseIndex, read, lift.
  cbn [globals fst snd]. rewrite Hc, He. cbn. eauto.
Qed.

Lemma renderCase_needs_exploration_witness :
  let b := opened (loaded (Arr [bare_case]) (Arr []) (Arr [])) in
  let r := renderCase (dom := page0) (of_Z 0) b in
  get_prop bare_case "exploration" = Ok Undefined /\
  (exists e, fst r = Throw e) /\
  currentCaseIndex (snd r) = of_Z 0 /\
  page (snd r) = page b /\
  globals (snd r) = globals b.
Proof.
  split; [reflexivity|].
  apply (renderCase_needs_exploration (dom := page0)
           (opened (loaded (Arr [bare_case]) (Arr []) (Arr []))) (of_Z 0) bare_case);
    [vm_compute; reflexivity | right; right; left; reflexivity].
Defined.

(** X12. Of the author's comments elsewhere the awakening analysis reads
    the first ten and the number of them only: two explorations that agree
    on these, and on everything else, give the same markup. *)
Theorem analysis_reads_ten_comments {dom : Dom} (e1 e2 postId : value) (l1 l2 : list value) :
  (forall k, k <> "author_comments_elsewhere" -> get_prop e1 k = get_prop e2 k) ->
  get_prop e1 "author_comments_elsewhere" = Ok (Arr l1) ->
  get_prop e2 "author_comments_elsewhere" = Ok (Arr l2) ->
  firstn 10 l1 = firstn 10 l2 ->
  length l1 = length l2 ->
  renderAwakeningAnalysis e1 postId = renderAwakeningAnalysis e2 postId.
Proof.
  intros Hk H1 H2 Hf Hl. unfold renderAwakeningAnalysis.
  rewrite H1, H2.
  rewrite (Hk "author_posts"), (Hk "peak_commenters"), (Hk "commenter_activity")
    by discriminate.
  cbn [JS.bind].
  change (or_empty (Arr l1)) with (Arr l1). change (or_empty (Arr l2)) with (Arr l2).
  change (elements (Arr l1)) with (Ok l1). change (elements (Arr l2)) with (Ok l2).
  change (length_of (Arr l1)) with (Ok (Num (Dec (Z.of_nat (length l1)) 0))).
  change (length_of (Arr l2)) with (Ok (Num (Dec (Z.of_nat (length l2)) 0))).
  cbn [JS.bind]. rewrite Hl, Hf. reflexivity.
Qed.

Lemma analysis_reads_ten_comments_witness :
  firstn 10 (repeat (comment 1) 10 ++ [comment 2])
  = firstn 10 (repeat (comment 1) 10 ++ [comment 3]) /\
  renderAwakeningAnalysis (dom := page0) (exploration 2) (Num (Dec 7 0))
  = renderAwakeningAnalysis (dom := page0) (exploration 3) (Num (Dec 7 0)).
Proof.
  split; [reflexivity|].
  apply (analysis_reads_ten_comments (dom := page0) (exploration 2) (exploration 3)
           (Num (Dec 7 0))
           (repeat (comment 1) 10 ++ [comment 2]) (repeat (comment 1) 10 ++ [comment 3]));
    [| reflexivity | reflexivity | reflexivity | reflexivity].
  intros k Hk. unfold exploration, get_prop, lookup.
  destruct (String.eqb_spec "author_comments_elsewhere" k) as [E|E];
    [elim Hk; now rewrite <- E | reflexivity].
Defined.

Lemma at_index_beyond (items : list value) (k : nat) :
  (length items <= k)%nat -> (Z.of_nat k < 2 ^ 53)%Z ->
  at_index (Arr items) (of_nat k) = Ok Undefined.
Proof.
  intros Hk Hb. unfold at_index, of_nat. rewrite to_Z_of_Z by lia.
  replace (0 <=? Z.of_nat k)%Z with true by (symmetry; apply Z.leb_le; lia).
  rewrite Nat2Z.id. now rewrite nth_overflow.
Qed.

(** X16. [viewCase] does not check its argument: with a number beyond
    the cases, on a page that has the tab and the selector, it switches to
    the cases tab, writes the number to the selector and to
    [currentCaseIndex], and then throws before the case on display is
    replaced; the index is left outside the list. *)
Theorem viewCase_beyond_list {dom : Dom} (b : Browser) (items : list value) (k : nat) :
  casesData (globals b) = Arr items ->
  (length items <= k)%nat -> (Z.of_nat k < 2 ^ 53)%Z ->
  present cases_tab = true -> present "cases" = true -> present "case-selector" = true ->
  let r := viewCase (of_nat k) b in
  (exists e, fst r = Throw e) /\
  currentCaseIndex (snd r) = of_nat k /\
  globals (snd r) = globals b /\
  page (snd r) =
    page b ++ [RemoveClassAll ".tab-btn" "active"; RemoveClassAll ".tab-content" "active";
               AddClass cases_tab "active"; AddClass "cases" "active";
               SetValue "case-selector" (to_string (of_nat k))].
Proof.
  intros Hc Hk Hb P1 P2 P3 r. subst r.
  destruct (renderCase_html_throws Undefined (or_introl eq_refl)) as [e He].
  unfold viewCase, bind_P, on, log. fold cases_tab. rewrite P1, P2, P3.
  unfold renderCase, bind_P, set_currentCaseIndex, read, lift.
  cbn [globals fst snd page currentCaseIndex]. rewrite Hc, at_index_beyond by assumption.
  rewrite He. cbn [fst snd globals page currentCaseIndex].
  split; [eauto|]. split; [reflexivity|]. split; [reflexivity|].
  now rewrite <- !app_assoc.
Qed.

Lemma viewCase_beyond_list_witness :
  let b := opened (loaded (Arr [bare_case]) (Arr []) (Arr [])) in
  let r := viewCase (dom := page0) (of_nat 1) b in
  (exists e, fst r = Throw e) /\
  currentCaseIndex (snd r) = of_nat 1 /\
  globals (snd r) = globals b /\
  page (snd r) =
    page b ++ [RemoveClassAll ".tab-btn" "active"; RemoveClassAll ".tab-content" "active";
               AddClass cases_tab "active"; AddClass "cases" "active";
               SetValue "case-selector" (to_string (of_nat 1))].
Proof.
  apply (viewCase_beyond_list (dom := page0)
           (opened (loaded (Arr [bare_case]) (Arr []) (Arr []))) [bare_case] 1);
    [reflexivity | simpl; lia | reflexivity | reflexivity | reflexivity | reflexivity].
Defined.

(** X17. Previous on the first case (or with nothing shown yet) and Next
    on the last case do nothing at all: no error, no write to the page, no
    change of the index.  With an empty list both do nothing. *)
Theorem arrows_stop_at_the_ends {dom : Dom} (b : Browser) (items : list value) (i : Z) :
  casesData (globals b) = Arr items -> (Z.of_nat (length items) < 2 ^ 53)%Z ->
  currentCaseIndex b = of_Z i -> (-1 <= i < Z.of_nat (length items))%Z ->
  ((i <= 0)%Z -> prevCase b = (Ok tt, b)) /\
  (i = (Z.of_nat (length items) - 1)%Z -> nextCase b = (Ok tt, b)).
Proof.
  intros Hc Hn Hi Hr. split; intros H.
  - rewrite (prevCase_runs b i Hi) by lia.
    replace (0 <? i)%Z with false by (symmetry; apply Z.ltb_ge; lia). reflexivity.
  - rewrite (nextCase_runs b items i Hc Hn Hi) by lia.
    replace (i <? Z.of_nat (length items) - 1)%Z with false
      by (symmetry; apply Z.ltb_ge; lia).
    reflexivity.
Qed.

Lemma arrows_stop_at_the_ends_witness :
  let b := opened (loaded (Arr []) (Arr []) (Arr [])) in
  ((-1 <= 0)%Z -> prevCase (dom := page0) b = (Ok tt, b)) /\
  (-1 = Z.of_nat (length (@nil value)) - 1 -> nextCase (dom := page0) b = (Ok tt, b))%Z.
Proof.
  apply (arrows_stop_at_the_ends (dom := page0)
           (opened (loaded (Arr []) (Arr []) (Arr []))) [] (-1));
    [reflexivity | reflexivity | reflexivity | simpl; lia].
Defined.

(** X18. The two selectors are not treated alike: without the element
    [case-selector], [populateCaseSelector] throws, whatever the cases are,
    and leaves the page as it was; without [late-case-selector],
    [populateLateCaseSelector] returns normally, having done nothing. *)
Theorem selector_needed_by_main_browser_only {dom : Dom} (b : Browser) :
  (present "case-selector" = false ->
   (exists e, fst (populateCaseSelector b) = Throw e) /\ snd (populateCaseSelector b) = b) /\
  (present "late-case-selector" = false -> populateLateCaseSelector b = (Ok tt, b)).
Proof.
  split; intros H.
  - unfold populateCaseSelector, bind_P, read, lift.
    destruct (elements (casesData (globals b))) as [items|e]; [|cbn; eauto].
    destruct items as [|c items].
    + cbn [forEach unit_P]. unfold on. rewrite H. cbn. eauto.
    + cbn [forEach]. unfold bind_P, lift, on. rewrite H.
      destruct (template _) as [t|e]; cbn; eauto.
  - unfold populateLateCaseSelector. now rewrite H.
Qed.

Lemma selector_needed_by_main_browser_only_witness :
  let b := opened (loaded (Arr [bare_case]) (Arr []) (Arr [])) in
  present (Dom := empty_page) "case-selector" = false /\
  ((exists e, fst (populateCaseSelector (dom := empty_page) b) = Throw e) /\
   snd (populateCaseSelector (dom := empty_page) b) = b) /\
  populateLateCaseSelector (dom := empty_page) b = (Ok tt, b).
Proof.
  split; [reflexivity|]. split.
  - apply (proj1 (selector_needed_by_main_browser_only (dom := empty_page)
                    (opened (loaded (Arr [bare_case]) (Arr []) (Arr []))))).
    reflexivity.
  - apply (proj2 (selector_needed_by_main_browser_only (dom := empty_page)
                    (opened (loaded (Arr [bare_case]) (Arr []) (Arr []))))).
    reflexivity.
Defined.

End Browsing.

(** *** The 3-year table and its browser *)

Module LateCases.

Import Double Conv Pages DoubleFacts Browsing Sample.

Lemma append_nil_r (s : string) : (s ++ "")%string = s.
Proof. induction s as [|c s IH]; simpl; [reflexivity | now rewrite IH]. Qed.

Lemma append_assoc (a b c : string) : ((a ++ b) ++ c)%string = (a ++ (b ++ c))%string.
Proof. induction a as [|x a IH]; simpl; [reflexivity | now rewrite IH]. Qed.

Lemma template_ends (ps : list piece) (v t h : string) :
  template (ps ++ [Txt (Ok v); Lit t]) = Ok h -> ends_with h (v ++ qt t).
Proof.
  revert h. induction ps as [|p ps IH]; intros h.
  - simpl. intros H. injection H as <-. exists "". now rewrite append_nil_r.
  - cbn [app template]. destruct (piece_string p) as [a|]; [|discriminate]. cbn [JS.bind].
    destruct (template (ps ++ [Txt (Ok v); Lit t])) as [b|]; [|discriminate]. cbn [JS.bind].
    intros H. injection H as <-. destruct (IH b eq_refl) as [pre ->].
    exists (a ++ pre)%string. now rewrite append_assoc.
Qed.

Lemma template_button (a c : string) (d : double) :
  template [Lit a; Dbl (Ok d); Lit c] = Ok (qt a ++ to_string d ++ qt c)%string.
Proof. unfold template, piece_string, JS.bind. now rewrite append_nil_r. Qed.

Ltac peel H :=
  repeat match type of H with
         | JS.bind ?r _ = Ok _ => destruct r eqn:?; cbn [JS.bind] in H; [|discriminate H]
         end.

#[local] Arguments qt : simpl never.
#[local] Arguments of_Z : simpl never.
#[local] Arguments to_string : simpl never.
#[local] Arguments lt : simpl never.
#[local] Arguments gt : simpl never.
#[local] Arguments ge : simpl never.
#[local] Arguments le : simpl never.

(** X13. A row of the 3-year table ends with a View button, which calls
    [viewLateAwakeningCase] with the number of the row, when the detailed
    cases reach that far, and with the badge Pending when they do not. *)
Theorem late_row_offers_view {dom : Dom} (cases : list value) (item : value) (index : nat)
        (html : string) :
  (Z.of_nat (length cases) < 2 ^ 53)%Z -> (Z.of_nat index < 2 ^ 53)%Z ->
  late_row (Arr cases) item index = Ok html ->
  ends_with html
    ((if (index <? length cases)%nat then view_button index else pending_badge)
     ++ qt "</td>
        ").
Proof.
  intros Hn Hi H. unfold late_row in H.
  rewrite length_number in H.
  peel H.
  unfold gt, of_nat in *. rewrite lt_of_Z in * by lia.
  assert (Hb : (Z.of_nat index <? Z.of_nat (length cases))%Z = (index <? length cases)%nat).
  { destruct (Nat.ltb_spec index (length cases)); [apply Z.ltb_lt | apply Z.ltb_ge]; lia. }
  rewrite Hb in *.
  match type of H with
  | template ?l = _ =>
    match l with
    | context [Txt (Ok ?v) :: Lit ?t :: nil] =>
      let front := eval cbv [firstn] in (firstn 19 l) in
      change l with (front ++ [Txt (Ok v); Lit t]) in H
    end
  end.
  apply template_ends in H.
  destruct (index <? length cases)%nat.
  - match goal with E : template _ = Ok ?s |- _ =>
      rewrite template_button in E; injection E as <- end.
    exact H.
  - match goal with E : Ok _ = Ok ?s |- _ => injection E as <- end.
    exact H.
Qed.

Lemma late_row_offers_view_witness :
  late_row (dom := page0) (Arr [bare_case]) late_item 0 = Ok late_item_row /\
  ends_with late_item_row
    (view_button 0 ++ qt "</td>
        ").
Proof.
  split; [vm_compute; reflexivity|].
  apply (late_row_offers_view (dom := page0) [bare_case] late_item 0 late_item_row);
    [reflexivity | reflexivity | vm_compute; reflexivity].
Defined.

Lemma viewLateAwakeningCase_runs {dom : Dom} (cases : list value) (b : Browser) (k : nat) :
  lateAwakeningCases (globals b) = Arr cases ->
  (Z.of_nat (length cases) < 2 ^ 53)%Z -> (Z.of_nat k < 2 ^ 53)%Z ->
  viewLateAwakeningCase (of_nat k) b =
  if (k <? length cases)%nat then
    (log (RemoveClassAll ".tab-btn" "active") ;;;
     log (RemoveClassAll ".tab-content" "active") ;;;
     on cases_tab (AddClass cases_tab "active") ;;;
     on "cases" (AddClass "cases" "active") ;;;
     set_currentCaseSource "late" ;;;
     set_currentCaseIndex (of_nat k) ;;;
     c <~ lift (at_index (Arr cases) (of_nat k)) ;;
     renderCaseFromData c)%p b
  else (Ok tt, alerted b).
Proof.
  intros Hc Hn Hk.
  unfold viewLateAwakeningCase, bind_P at 1, read at 1. rewrite Hc.
  unfold bind_P at 1. rewrite length_number. cbn [lift].
  unfold ge, of_nat. rewrite le_of_Z by lia.
  destruct (Nat.ltb_spec k (length cases)) as [Hlt|Hge].
  - replace (Z.of_nat (length cases) <=? Z.of_nat k)%Z with false
      by (symmetry; apply Z.leb_gt; lia).
    reflexivity.
  - replace (Z.of_nat (length cases) <=? Z.of_nat k)%Z with true
      by (symmetry; apply Z.leb_le; lia).
    reflexivity.
Qed.

(** X14. [viewLateAwakeningCase] with a number beyond the detailed cases
    shows the alert and does nothing else.  With a number within them it
    shows no alert, leaves the globals and the index of the 3-year browser
    alone, and, when the cases tab is there, writes the number to
    [currentCaseIndex], the index that Previous and Next of the main case
    browser go by. *)
Theorem view_late_case_guard {dom : Dom} (cases : list value) (b : Browser) (k : nat) :
  lateAwakeningCases (globals b) = Arr cases ->
  (Z.of_nat (length cases) < 2 ^ 53)%Z -> (Z.of_nat k < 2 ^ 53)%Z ->
  let r := viewLateAwakeningCase (of_nat k) b in
  if (k <? length cases)%nat then
    globals (snd r) = globals b /\
    currentLateCaseIndex (snd r) = currentLateCaseIndex b /\
    (exists evs, page (snd r) = page b ++ evs /\ existsb is_alert evs = false) /\
    (present cases_tab = true -> present "cases" = true ->
     currentCaseIndex (snd r) = of_nat k /\ currentCaseSource (snd r) = "late")
  else r = (Ok tt, alerted b).
Proof.
  intros Hc Hn Hk r. subst r. rewrite (viewLateAwakeningCase_runs cases b k Hc Hn Hk).
  destruct (k <? length cases)%nat; [|reflexivity].
  unfold bind_P, on, log, set_currentCaseSource, set_currentCaseIndex, lift.
  set (e1 := RemoveClassAll ".tab-btn" "active").
  set (e2 := RemoveClassAll ".tab-content" "active").
  set (e3 := AddClass cases_tab "active").
  set (e4 := AddClass "cases" "active").
  destruct (present cases_tab).
  2:{ cbn [snd globals currentLateCaseIndex page].
      split; [reflexivity|]. split; [reflexivity|]. split; [|discriminate].
      exists (e1 :: e2 :: nil). now rewrite <- app_assoc. }
  destruct (present "cases").
  2:{ cbn [snd globals currentLateCaseIndex page].
      split; [reflexivity|]. split; [reflexivity|]. split; [|discriminate].
      exists (e1 :: e2 :: e3 :: nil). now rewrite <- !app_assoc. }
  cbn [globals currentCaseIndex currentCaseSource currentLateCaseIndex page].
  destruct (at_index (Arr cases) (of_nat k)) as [c|e].
  - match goal with |- context [renderCaseFromData c ?b1] =>
      destruct (renders_renderCaseFromData c b1) as (G & I & S & L & evs & Hp & Ha) end.
    cbn [globals currentCaseIndex currentCaseSource currentLateCaseIndex page] in *.
    split; [exact G|]. split; [exact L|]. split; [|intros _ _; now split].
    exists ((e1 :: e2 :: e3 :: e4 :: nil) ++ evs).
    split; [rewrite Hp; now rewrite <- !app_assoc | exact Ha].
  - cbn [snd globals currentCaseIndex currentCaseSource currentLateCaseIndex page].
    split; [reflexivity|]. split; [reflexivity|]. split; [|intros _ _; now split].
    exists (e1 :: e2 :: e3 :: e4 :: nil).
    now rewrite <- !app_assoc.
Qed.

Lemma view_late_case_guard_witness :
  let b := opened (loaded (Arr []) (Arr []) (Arr [bare_case])) in
  viewLateAwakeningCase (dom := page0) (of_nat 1) b = (Ok tt, alerted b).
Proof.
  apply (view_late_case_guard (dom := page0) [bare_case]
           (opened (loaded (Arr []) (Arr []) (Arr [bare_case]))) 1);
    reflexivity.
Defined.

Local Open Scope Z_scope.

#[local] Arguments sub : simpl never.
#[local] Arguments add : simpl never.

(** What [renderLateCaseInTab] does after its first statement. *)
Lemma renderLateCaseInTab_sets_index {dom : Dom} (index : double) (b : Browser) :
  let b' := snd (renderLateCaseInTab index b) in
  globals b' = globals b /\ currentLateCaseIndex b' = index /\
  currentCaseIndex b' = currentCaseIndex b.
Proof.
  unfold renderLateCaseInTab.
  match goal with
  | |- context [bind_P (set_currentLateCaseIndex index) ?k] => set (rest := k)
  end.
  assert (Hr : renders (rest tt)).
  { subst rest. cbv beta. framed. }
  unfold bind_P at 1. simpl.
  specialize (Hr (snd (set_currentLateCaseIndex index b))). simpl in Hr.
  tauto.
Qed.

Lemma prevLateCase_runs {dom : Dom} (b : Browser) (i : Z) :
  currentLateCaseIndex b = of_Z i -> (Z.abs i < 2 ^ 53)%Z ->
  prevLateCase b =
  if (0 <? i)%Z then
    if present "late-case-selector" then
      renderLateCaseInTab (of_Z (i - 1))
        (snd (log (SetValue "late-case-selector" (to_string (of_Z (i - 1)))) b))
    else (Throw TypeError, b)
  else (Ok tt, b).
Proof.
  intros Hi Hb. unfold prevLateCase, bind_P at 1, read at 1.
  rewrite Hi. unfold gt. rewrite <- of_Z_zero, lt_of_Z by (simpl; lia).
  destruct (0 <? i)%Z eqn:Hpos; [|reflexivity].
  apply Z.ltb_lt in Hpos.
  unfold bind_P at 1, on. destruct (present "late-case-selector"); [|reflexivity].
  cbn [log fst snd]. unfold bind_P at 1, read at 1. cbn [fst snd currentLateCaseIndex].
  rewrite Hi, sub_of_Z by (simpl; lia). reflexivity.
Qed.

Lemma nextLateCase_runs {dom : Dom} (b : Browser) (items : list value) (i : Z) :
  lateAwakeningCases (globals b) = Arr items -> (Z.of_nat (length items) < 2 ^ 53)%Z ->
  currentLateCaseIndex b = of_Z i -> (Z.abs i < 2 ^ 53)%Z ->
  nextLateCase b =
  if (i <? Z.of_nat (length items) - 1)%Z then
    if present "late-case-selector" then
      renderLateCaseInTab (of_Z (i + 1))
        (snd (log (SetValue "late-case-selector" (to_string (of_Z (i + 1)))) b))
    else (Throw TypeError, b)
  else (Ok tt, b).
Proof.
  intros Hc Hn Hi Hb. unfold nextLateCase, bind_P at 1, read at 1.
  unfold bind_P at 1, read at 1. rewrite Hc, Hi.
  unfold bind_P at 1. rewrite length_number. cbn [lift fst snd].
  unfold of_nat. rewrite sub_of_Z by (simpl; lia).
  rewrite lt_of_Z by lia.
  destruct (i <? Z.of_nat (length items) - 1)%Z eqn:Hlt; [|reflexivity].
  apply Z.ltb_lt in Hlt.
  unfold bind_P at 1, on. destruct (present "late-case-selector"); [|reflexivity].
  cbn [log fst snd]. unfold bind_P at 1, read at 1. cbn [fst snd currentLateCaseIndex].
  rewrite Hi, add_of_Z by (simpl; lia). reflexivity.
Qed.

(** X15. The browser of the 3-year cases never leaves its list either:
    after Previous or Next its index is still -1 or an index of
    [lateAwakeningCases]; the index of the main browser and the globals
    are not touched. *)
Theorem late_browsing_stays_in_range (items : list value) (b b' : Browser) :
  (Z.of_nat (length items) < 2 ^ 53)%Z ->
  late_browsing items b -> late_click b b' ->
  late_browsing items b' /\ currentCaseIndex b' = currentCaseIndex b /\
  globals b' = globals b.
Proof.
  intros Hn [Hc [i [Hi Hr]]] Hstep.
  destruct Hstep as [dom b | dom b].
  - rewrite (prevLateCase_runs b i Hi) by lia.
    destruct (0 <? i)%Z eqn:Hpos.
    + apply Z.ltb_lt in Hpos. destruct (present "late-case-selector").
      * cbn [log snd].
        match goal with |- context [renderLateCaseInTab ?x ?y] =>
          destruct (renderLateCaseInTab_sets_index x y) as (G & I & M) end.
        cbn [globals currentCaseIndex log snd] in G, M.
        split; [|split; assumption].
        split; [unfold late_browsing; now rewrite G|]. exists (i - 1). split; [exact I | lia].
      * cbn [snd]. split; [|split; reflexivity]. split; [assumption|]. exists i. split; [assumption | lia].
    + cbn [snd]. split; [|split; reflexivity]. split; [assumption|]. exists i. split; [assumption | lia].
  - rewrite (nextLateCase_runs b items i Hc Hn Hi) by lia.
    destruct (i <? Z.of_nat (length items) - 1)%Z eqn:Hlt.
    + apply Z.ltb_lt in Hlt. destruct (present "late-case-selector").
      * cbn [log snd].
        match goal with |- context [renderLateCaseInTab ?x ?y] =>
          destruct (renderLateCaseInTab_sets_index x y) as (G & I & M) end.
        cbn [globals currentCaseIndex log snd] in G, M.
        split; [|split; assumption].
        split; [unfold late_browsing; now rewrite G|]. exists (i + 1). split; [exact I | lia].
      * cbn [snd]. split; [|split; reflexivity]. split; [assumption|]. exists i. split; [assumption | lia].
    + cbn [snd]. split; [|split; reflexivity]. split; [assumption|]. exists i. split; [assumption | lia].
Qed.

Lemma late_browsing_stays_in_range_witness :
  let items := [bare_case; bare_case] in
  let b := opened (loaded (Arr []) (Arr []) (Arr items)) in
  late_browsing items b /\
  late_browsing items (snd (nextLateCase (dom := page0) b)) /\
  currentCaseIndex (snd (nextLateCase (dom := page0) b)) = currentCaseIndex b /\
  globals (snd (nextLateCase (dom := page0) b)) = globals b.
Proof.
  assert (H : late_browsing [bare_case; bare_case]
                (opened (loaded (Arr []) (Arr []) (Arr [bare_case; bare_case])))).
  { split; [reflexivity|]. exists (-1)%Z. split; [reflexivity | lia]. }
  split; [exact H|].
  apply (late_browsing_stays_in_range [bare_case; bare_case]
           (opened (loaded (Arr []) (Arr []) (Arr [bare_case; bare_case]))));
    [reflexivity | exact H | apply (click_next_late page0)].
Defined.

End LateCases.

(** *** The overview table *)

Module OverviewTable.

Import Double Conv Pages DoubleFacts Browsing Sample LateCases.

Lemma qt_app (a b : string) : qt (a ++ b) = (qt a ++ qt b)%string.
Proof. induction a as [|c a IH]; [reflexivity|]. cbn [append qt]. now rewrite IH. Qed.

#[local] Arguments qt : simpl never.
#[local] Arguments of_Z : simpl never.
#[local] Arguments to_string : simpl never.
#[local] Arguments sub : simpl never.

Lemma template_ends_number (ps : list piece) (a1 a2 t h : string) (d : double) :
  template (ps ++ [Lit (a1 ++ a2); Dbl (Ok d); Lit t]) = Ok h ->
  ends_with h (qt a2 ++ to_string d ++ qt t).
Proof.
  revert h. induction ps as [|p ps IH]; intros h.
  - cbn [app template piece_string JS.bind]. intros H. injection H as <-.
    exists (qt a1). rewrite qt_app, append_nil_r. now rewrite append_assoc.
  - cbn [app template]. destruct (piece_string p) as [a|]; [|discriminate]. cbn [JS.bind].
    destruct (template (ps ++ _)) as [b|]; [|discriminate]. cbn [JS.bind].
    intros H. injection H as <-. destruct (IH b eq_refl) as [pre ->].
    exists (a ++ pre)%string. now rewrite append_assoc.
Qed.

(** X19. The View button of a row of the overview table calls [viewCase]
    with the rank of the row less one, not with the position of the row:
    for an integer rank the markup of the row ends with that button. *)
Theorem overview_row_views_rank (c : value) (rank : Z) (html : string) :
  get_prop c "rank" = Ok (Num (Dec rank 0)) ->
  (Z.abs rank < 2 ^ 53)%Z ->
  overview_row c = Ok html ->
  ends_with html
    (view_case_button (rank - 1) ++ qt "</td>
        ").
Proof.
  intros Hr Hb H. unfold overview_row in H. rewrite Hr in H.
  unfold number_of, ToNumber, ToPrimitive, of_number in H.
  cbn [JS.bind prim_to_number] in H.
  rewrite of_decimal_integer, sub_of_Z in H by (simpl; lia).
  match type of H with
  | template ?l = _ =>
    let front := eval cbv [firstn] in (firstn 12 l) in
    change l with (front ++ [Lit ("</span></td>
            <td>" ++ "<button onclick=~viewCase("); Dbl (Ok (of_Z (rank - 1)));
                             Lit (")~>View</button>" ++ "</td>
        ")]) in H
  end.
  apply template_ends_number in H. unfold view_case_button.
  rewrite qt_app in H. now rewrite !append_assoc.
Qed.

Lemma overview_row_views_rank_witness :
  overview_row overview_entry = Ok overview_entry_row /\
  ends_with overview_entry_row
    (view_case_button 2 ++ qt "</td>
        ").
Proof.
  split; [vm_compute; reflexivity|].
  apply (overview_row_views_rank overview_entry 3 overview_entry_row);
    [reflexivity | reflexivity | vm_compute; reflexivity].
Defined.

End OverviewTable.

(** *** What the handlers leave alone *)

Module Frames.

Import Double Conv Pages DoubleFacts Browsing Sample.

Lemma blind_unit {A : Type} (a : A) : blind (unit_P a).
Proof. intros b1 b2 H. split; [reflexivity | exact H]. Qed.

Lemma blind_lift {A : Type} (r : result A) : blind (lift r).
Proof. intros b1 b2 H. split; [reflexivity | exact H]. Qed.

Lemma blind_read {A : Type} (f : Browser -> A) :
  (forall b1 b2, same_but_source b1 b2 -> f b1 = f b2) -> blind (read f).
Proof. intros Hf b1 b2 H. split; [simpl; now rewrite (Hf b1 b2 H) | exact H]. Qed.

Lemma blind_log (ev : DomEvent) : blind (log ev).
Proof.
  intros b1 b2 (G & I & L & Pg). split; [reflexivity|].
  repeat split; simpl; congruence.
Qed.

Lemma blind_on {dom : Dom} (key : string) (ev : DomEvent) : blind (on key ev).
Proof. unfold on. destruct (present key); [apply blind_log | apply blind_lift]. Qed.

Lemma blind_set_currentCaseIndex (i : double) : blind (set_currentCaseIndex i).
Proof. intros b1 b2 (G & I & L & Pg). split; [reflexivity|]. repeat split; simpl; congruence. Qed.

Lemma blind_set_currentLateCaseIndex (i : double) : blind (set_currentLateCaseIndex i).
Proof. intros b1 b2 (G & I & L & Pg). split; [reflexivity|]. repeat split; simpl; congruence. Qed.

Lemma blind_set_currentCaseSource (s : string) : blind (set_currentCaseSource s).
Proof. intros b1 b2 (G & I & L & Pg). split; [reflexivity|]. repeat split; simpl; congruence. Qed.

Lemma blind_bind {A B : Type} (c : P A) (k : A -> P B) :
  blind c -> (forall a, blind (k a)) -> blind (bind_P c k).
Proof.
  intros Hc Hk b1 b2 H. unfold bind_P. destruct (Hc b1 b2 H) as [E S].
  destruct (c b1) as [[a|e] b1'], (c b2) as [[a'|e'] b2']; simpl in *; try discriminate.
  - injection E as <-. apply Hk, S.
  - split; [congruence | exact S].
Qed.

Lemma blind_forEach {A : Type} (l : list A) (i : nat) (f : A -> nat -> P unit) :
  (forall x j, blind (f x j)) -> blind (forEach l i f).
Proof.
  intros Hf. revert i. induction l as [|x l IH]; intros i; simpl.
  - apply blind_unit.
  - apply blind_bind; [apply Hf | intros _; apply IH].
Qed.

Ltac unseen_with known :=
  repeat first
    [ apply blind_unit | apply blind_lift
    | apply blind_read; intros ? ? (? & ? & ? & ?); congruence
    | apply blind_log | apply blind_on
    | apply blind_set_currentCaseIndex | apply blind_set_currentLateCaseIndex
    | apply blind_set_currentCaseSource
    | known
    | apply blind_bind; [|intros ?]
    | apply blind_forEach; intros ? ?
    | match goal with
      | |- blind (if ?c then _ else _) => destruct c
      | |- blind (match ?c with _ => _ end) => destruct c
      end ].

Lemma blind_new_Chart {dom : Dom} (canvas : string) (config : chart_config) :
  blind (new_Chart canvas config).
Proof. unfold new_Chart. unseen_with fail. Qed.

Lemma blind_renderTimelineChart {dom : Dom} (dailyViews peakDay : value) (canvasId : string) :
  blind (renderTimelineChart dailyViews peakDay canvasId).
Proof. unfold renderTimelineChart. unseen_with ltac:(apply blind_new_Chart). Qed.

Lemma blind_loadGiscus {dom : Dom} (postId : value) : blind (loadGiscus postId).
Proof. unfold loadGiscus. unseen_with fail. Qed.

Ltac unseen :=
  unseen_with ltac:(first [ apply blind_new_Chart | apply blind_renderTimelineChart
                          | apply blind_loadGiscus ]).

Lemma blind_renderCase {dom : Dom} (index : double) : blind (renderCase index).
Proof. unfold renderCase. unseen. Qed.

Lemma blind_renderCaseFromData {dom : Dom} (c : value) : blind (renderCaseFromData c).
Proof. unfold renderCaseFromData. unseen. Qed.

Lemma blind_renderLateCaseInTab {dom : Dom} (index : double) : blind (renderLateCaseInTab index).
Proof. unfold renderLateCaseInTab. unseen. Qed.

Lemma blind_renderMechanismChart {dom : Dom} : blind renderMechanismChart.
Proof. unfold renderMechanismChart. unseen. Qed.

Lemma blind_renderCategoryChart {dom : Dom} : blind renderCategoryChart.
Proof. unfold renderCategoryChart. unseen. Qed.

Lemma blind_renderOverviewTable {dom : Dom} : blind renderOverviewTable.
Proof. unfold renderOverviewTable. unseen. Qed.

Ltac unseen_all :=
  unseen_with ltac:(first [ apply blind_new_Chart | apply blind_renderTimelineChart
                          | apply blind_loadGiscus | apply blind_renderCase
                          | apply blind_renderCaseFromData | apply blind_renderLateCaseInTab
                          | apply blind_renderMechanismChart | apply blind_renderCategoryChart
                          | apply blind_renderOverviewTable ]).

(** X20. [currentCaseSource] is written and never read: started from two
    browsers that differ in it at most, every handler of the page gives the
    same result and leaves the same globals, indices and page calls. *)
Theorem source_is_never_read {dom : Dom} (index : double) (selected btn : string)
        (tab : option string) (c : P unit) (b1 b2 : Browser) :
  In c (handlers index selected btn tab) ->
  same_but_source b1 b2 ->
  fst (c b1) = fst (c b2) /\ same_but_source (snd (c b1)) (snd (c b2)).
Proof.
  intros Hin. revert b1 b2. change (blind c).
  unfold handlers in Hin. cbn [In] in Hin.
  repeat (destruct Hin as [<-|Hin];
          [unfold initializeTabs, tab_clicked, renderOverview, populateCaseSelector,
             case_selected, viewCase, prevCase, nextCase, renderLateAwakeningTable,
             viewLateAwakeningCase, populateLateCaseSelector, late_case_selected,
             prevLateCase, nextLateCase; unseen_all|]).
  destruct Hin.
Qed.

Lemma source_is_never_read_witness :
  let b1 := opened (loaded (Arr [bare_case]) (Arr []) (Arr [])) in
  let b2 := snd (set_currentCaseSource "late" b1) in
  same_but_source b1 b2 /\
  fst (nextCase (dom := page0) b1) = fst (nextCase (dom := page0) b2) /\
  same_but_source (snd (nextCase (dom := page0) b1)) (snd (nextCase (dom := page0) b2)).
Proof.
  split; [repeat split|].
  apply (source_is_never_read (dom := page0) (of_Z 0) "0" "overview" None
           (nextCase (dom := page0)));
    [do 7 right; left; reflexivity | repeat split].
Defined.

Lemma renders_renderMechanismChart {dom : Dom} : renders renderMechanismChart.
Proof. unfold renderMechanismChart. framed. Qed.

Lemma renders_renderCategoryChart {dom : Dom} : renders renderCategoryChart.
Proof. unfold renderCategoryChart. framed. Qed.

Lemma renders_renderOverviewTable {dom : Dom} : renders renderOverviewTable.
Proof. unfold renderOverviewTable. framed. Qed.

(** X21. The drawing functions only draw: they leave the globals, both
    indices and [currentCaseSource] as they are, whether they return or
    throw, and show no alert; all they do is add calls to the page. *)
Theorem drawing_changes_no_state {dom : Dom} (c postId dailyViews peakDay : value)
        (canvasId btn : string) (tab : option string) (f : P unit) (b : Browser) :
  In f (drawing c postId dailyViews peakDay canvasId btn tab) ->
  let b' := snd (f b) in
  globals b' = globals b /\
  currentCaseIndex b' = currentCaseIndex b /\
  currentCaseSource b' = currentCaseSource b /\
  currentLateCaseIndex b' = currentLateCaseIndex b /\
  exists evs, page b' = page b ++ evs /\ existsb is_alert evs = false.
Proof.
  intros Hin. revert b. change (renders f).
  unfold drawing in Hin. cbn [In] in Hin.
  repeat (destruct Hin as [<-|Hin];
          [unfold initializeTabs, tab_clicked, renderOverview, populateCaseSelector,
             populateLateCaseSelector, renderLateAwakeningTable;
           framed_with ltac:(first [ apply renders_new_Chart | apply renders_renderTimelineChart
                          | apply renders_loadGiscus | apply renders_renderCaseFromData
                          | apply renders_renderMechanismChart
                          | apply renders_renderCategoryChart
                          | apply renders_renderOverviewTable ])|]).
  destruct Hin.
Qed.

Lemma drawing_changes_no_state_witness :
  let b := opened (loaded (Arr []) (Arr entries3) (Arr [])) in
  let b' := snd (renderOverview (dom := page0) b) in
  globals b' = globals b /\
  currentCaseIndex b' = currentCaseIndex b /\
  currentCaseSource b' = currentCaseSource b /\
  currentLateCaseIndex b' = currentLateCaseIndex b /\
  exists evs, page b' = page b ++ evs /\ existsb is_alert evs = false.
Proof.
  apply (drawing_changes_no_state (dom := page0) Null Null Null Null "chart" "overview" None
           (renderOverview (dom := page0))).
  do 2 right; left; reflexivity.
Defined.

End Frames.
